(** * whisper: transcript formatting and the transcription pipeline of [app.py]

    A shallow embedding of [src/app.py] and the properties of its
    specification.  Python values are modelled the way the interpreter has
    them:
    - a [str] is a sequence of Unicode code points ([list N]);
    - an [int] is an unbounded integer ([Z]);
    - a [float] is an IEEE-754 binary64 value ([spec_float] of the Standard
      Library, precision 53, [emax] 1024), with the operators [//], [%] and
      [int()] defined as CPython defines them on C doubles;
    - a raised exception is the [Raise] branch of the result type [res]. *)

From Stdlib Require Import ZArith NArith List String Ascii Bool Lia.
From Stdlib Require Import QArith Qround Qpower DecimalN.
From Stdlib Require Import SpecFloat.
From Stdlib Require Import Sorted.
Import ListNotations.

Local Open Scope Z_scope.

(* ===================================================================== *)
(** ** Python strings *)
(* ===================================================================== *)

Module PyStr.

(** A Python [str] is a sequence of code points. *)
Definition char := N.
Definition str := list char.

(** Literals are written as Rocq strings and read as Latin-1 code points. *)
Fixpoint of_string (s : string) : str :=
  match s with
  | EmptyString => []
  | String c rest => N_of_ascii c :: of_string rest
  end.

Definition nl : char := 10%N.

Fixpoint eqb (a b : str) : bool :=
  match a, b with
  | [], [] => true
  | x :: a', y :: b' => N.eqb x y && eqb a' b'
  | _, _ => false
  end.

(** [Py_UNICODE_ISSPACE]: the code points [str.strip()] removes. *)
Definition isspace (c : char) : bool :=
  ((9 <=? c) && (c <=? 13) || (28 <=? c) && (c <=? 32)
   || (c =? 133) || (c =? 160) || (c =? 5760)
   || (8192 <=? c) && (c <=? 8202)
   || (c =? 8232) || (c =? 8233) || (c =? 8239) || (c =? 8287)
   || (c =? 12288))%N.

(** [str.lstrip()], [str.rstrip()] and [str.strip()] without argument. *)
Fixpoint lstrip (s : str) : str :=
  match s with
  | [] => []
  | c :: rest => if isspace c then lstrip rest else s
  end.

Definition rstrip (s : str) : str := rev (lstrip (rev s)).

Definition strip (s : str) : str := rstrip (lstrip s).

(** [sep.join(xs)]. *)
Fixpoint join (sep : str) (xs : list str) : str :=
  match xs with
  | [] => []
  | [x] => x
  | x :: rest => x ++ sep ++ join sep rest
  end.

(** Truthiness of a [str]: [not s] holds for the empty string only. *)
Definition is_empty (s : str) : bool :=
  match s with [] => true | _ => false end.

(** A string made of whitespace only (the empty string included). *)
Definition blank (s : str) : Prop := Forall (fun c => isspace c = true) s.

End PyStr.

Import PyStr.

Abbreviation py := of_string.

(* ===================================================================== *)
(** ** Exceptions *)
(* ===================================================================== *)

(** A raised exception: its class name and [str(e)]. *)
Inductive exn : Type :=
| Exc (type_name : string) (message : str).

Definition exn_message (e : exn) : str :=
  match e with Exc _ m => m end.

Inductive res (A : Type) : Type :=
| Ret (a : A)
| Raise (e : exn).
Arguments Ret {A} a.
Arguments Raise {A} e.

Definition bind {A B : Type} (c : res A) (k : A -> res B) : res B :=
  match c with
  | Ret a => k a
  | Raise e => Raise e
  end.

Notation "x <- c ;; k" := (bind c (fun x => k))
  (at level 61, c at next level, right associativity).

Fixpoint mapM {A B : Type} (f : A -> res B) (l : list A) : res (list B) :=
  match l with
  | [] => Ret []
  | a :: rest => b <- f a ;; bs <- mapM f rest ;; Ret (b :: bs)
  end.

(* ===================================================================== *)
(** ** Python floats: IEEE-754 binary64 *)
(* ===================================================================== *)

Module PyFloat.

Definition prec : Z := 53.
Definition emax : Z := 1024.

Definition float := spec_float.

Definition fadd : float -> float -> float := SFadd prec emax.
Definition fsub : float -> float -> float := SFsub prec emax.
Definition fdiv : float -> float -> float := SFdiv prec emax.
Definition flt : float -> float -> bool := SFltb.
Definition fle : float -> float -> bool := SFleb.

(** Conversion of an [int] to the nearest [float]. *)
Definition of_Z (z : Z) : float := binary_normalize prec emax z 0 false.

(** The decimal literal [n/d], for [n] and [d] exactly representable:
    the correctly rounded quotient, as the parser produces it. *)
Definition lit (n d : Z) : float := fdiv (of_Z n) (of_Z d).

Definition zero : float := S754_zero false.
Definition one : float := of_Z 1.
Definition half : float := lit 5 10.

(** [x == 0.0] in C; a NaN is non-zero (hence true as a condition). *)
Definition is_zero (x : float) : bool :=
  match x with S754_zero _ => true | _ => false end.

Definition sign_bit (x : float) : bool :=
  match x with
  | S754_zero s | S754_infinity s | S754_finite s _ _ => s
  | S754_nan => false
  end.

(** [copysign(0.0, y)]. *)
Definition copysign_zero (y : float) : float := S754_zero (sign_bit y).

(** C's [fmod]: the exact remainder of [x / y] truncated towards zero,
    with the sign of [x]. *)
Definition fmod (x y : float) : float :=
  match x, y with
  | S754_nan, _ | _, S754_nan => S754_nan
  | S754_infinity _, _ => S754_nan
  | _, S754_zero _ => S754_nan
  | S754_zero _, _ => x
  | S754_finite _ _ _, S754_infinity _ => x
  | S754_finite sx mx ex, S754_finite _ my ey =>
      let e := Z.min ex ey in
      let X := Zpos mx * 2 ^ (ex - e) in
      let Y := Zpos my * 2 ^ (ey - e) in
      binary_normalize prec emax (cond_Zopp sx (X mod Y)) e sx
  end.

(** C's [floor]. *)
Definition floor (x : float) : float :=
  match x with
  | S754_finite sx mx ex =>
      if 0 <=? ex then x
      else binary_normalize prec emax (cond_Zopp sx (Zpos mx) / 2 ^ (- ex)) 0 sx
  | _ => x
  end.

(** [_float_div_mod] of CPython's [floatobject.c], for [wx != 0]. *)
Definition float_div_mod (vx wx : float) : float * float :=
  let mod0 := fmod vx wx in
  let div0 := fdiv (fsub vx mod0) wx in
  let '(mod1, div1) :=
    if negb (is_zero mod0) then
      if negb (Bool.eqb (flt wx zero) (flt mod0 zero))
      then (fadd mod0 wx, fsub div0 one)
      else (mod0, div0)
    else (copysign_zero wx, div0) in
  let floordiv :=
    if negb (is_zero div1) then
      let fl := floor div1 in
      if flt half (fsub div1 fl) then fadd fl one else fl
    else copysign_zero (fdiv vx wx) in
  (floordiv, mod1).

(** [float.__floordiv__]. *)
Definition float_floor_div (v w : float) : res float :=
  if is_zero w
  then Raise (Exc "ZeroDivisionError" (py "float floor division by zero"))
  else Ret (fst (float_div_mod v w)).

(** [float.__mod__]. *)
Definition float_rem (v w : float) : res float :=
  if is_zero w
  then Raise (Exc "ZeroDivisionError" (py "float modulo by zero"))
  else
    let mod0 := fmod v w in
    Ret (if negb (is_zero mod0) then
           if negb (Bool.eqb (flt w zero) (flt mod0 zero))
           then fadd mod0 w else mod0
         else copysign_zero w).

(** [float.__int__]: truncation towards zero. *)
Definition float_int (x : float) : res Z :=
  match x with
  | S754_nan =>
      Raise (Exc "ValueError" (py "cannot convert float NaN to integer"))
  | S754_infinity _ =>
      Raise (Exc "OverflowError" (py "cannot convert float infinity to integer"))
  | S754_zero _ => Ret 0
  | S754_finite s m e =>
      Ret (cond_Zopp s (if 0 <=? e then Zpos m * 2 ^ e else Zpos m / 2 ^ (- e)))
  end.

End PyFloat.

Import PyFloat.

(** ** Python numbers: [int] or [float] *)

Inductive pynum : Type :=
| PyInt (z : Z)
| PyFloat (f : float).

(** [x // d] for an [int] literal [d]. *)
Definition py_floordiv (x : pynum) (d : Z) : res pynum :=
  match x with
  | PyInt z =>
      if d =? 0
      then Raise (Exc "ZeroDivisionError" (py "integer division or modulo by zero"))
      else Ret (PyInt (z / d))
  | PyFloat f => q <- float_floor_div f (of_Z d) ;; Ret (PyFloat q)
  end.

(** [x % d] for an [int] literal [d]. *)
Definition py_mod (x : pynum) (d : Z) : res pynum :=
  match x with
  | PyInt z =>
      if d =? 0
      then Raise (Exc "ZeroDivisionError" (py "integer division or modulo by zero"))
      else Ret (PyInt (z mod d))
  | PyFloat f => r <- float_rem f (of_Z d) ;; Ret (PyFloat r)
  end.

(** [int(x)]. *)
Definition py_int (x : pynum) : res Z :=
  match x with
  | PyInt z => Ret z
  | PyFloat f => float_int f
  end.

(* ===================================================================== *)
(** ** Formatting of integers: [str(n)] and the format spec [02d] *)
(* ===================================================================== *)

Fixpoint str_of_uint (u : Decimal.uint) : str :=
  match u with
  | Decimal.Nil => []
  | Decimal.D0 u => 48%N :: str_of_uint u
  | Decimal.D1 u => 49%N :: str_of_uint u
  | Decimal.D2 u => 50%N :: str_of_uint u
  | Decimal.D3 u => 51%N :: str_of_uint u
  | Decimal.D4 u => 52%N :: str_of_uint u
  | Decimal.D5 u => 53%N :: str_of_uint u
  | Decimal.D6 u => 54%N :: str_of_uint u
  | Decimal.D7 u => 55%N :: str_of_uint u
  | Decimal.D8 u => 56%N :: str_of_uint u
  | Decimal.D9 u => 57%N :: str_of_uint u
  end.

(** The decimal digits of [|z|]. *)
Definition digits_of (z : Z) : str := str_of_uint (N.to_uint (Z.abs_N z)).

(** [str(z)]. *)
Definition str_of_int (z : Z) : str :=
  (if z <? 0 then [45%N] else []) ++ digits_of z.

(** [format(z, "02d")]: sign-aware zero padding to a minimum width of 2. *)
Definition format_02d (z : Z) : str :=
  let ds := digits_of z in
  if z <? 0
  then 45%N :: repeat 48%N (1 - List.length ds)%nat ++ ds
  else repeat 48%N (2 - List.length ds)%nat ++ ds.

(* ===================================================================== *)
(** ** [format_timestamp] *)
(* ===================================================================== *)

Definition format_timestamp (seconds : pynum) : res str :=
  h <- py_floordiv seconds 3600 ;;
  hours <- py_int h ;;
  r <- py_mod seconds 3600 ;;
  m <- py_floordiv r 60 ;;
  minutes <- py_int m ;;
  s <- py_mod seconds 60 ;;
  secs <- py_int s ;;
  Ret (format_02d hours ++ py ":" ++ format_02d minutes ++ py ":" ++ format_02d secs).

(* ===================================================================== *)
(** ** Segments and the transcript formatters *)
(* ===================================================================== *)

(** A segment is a dict; each of the three keys the formatters read may be
    absent. *)
Record Segment : Type := mkSegment {
  seg_start : option pynum;
  seg_speaker : option str;
  seg_text : option str
}.

(** [d.get(key, default)]. *)
Definition get {A : Type} (field : option A) (default : A) : A :=
  match field with
  | Some v => v
  | None => default
  end.

Definition no_results : str := py "No transcription results.".

(** [speaker != current_speaker], where [current_speaker] may be [None]. *)
Definition speaker_differs (speaker : str) (current_speaker : option str) : bool :=
  match current_speaker with
  | None => true
  | Some c => negb (PyStr.eqb speaker c)
  end.

(** The local variables of the loop of [format_transcript_with_speakers]. *)
Record loop_state : Type := mkState {
  lines : list str;
  current_speaker : option str;
  current_text_parts : list str;
  segment_start_time : option pynum
}.

Definition initial_state : loop_state :=
  {| lines := [];
     current_speaker := None;
     current_text_parts := [];
     segment_start_time := None |}.

(** [format_timestamp(segment_start_time)]; the variable may still hold
    [None], on which [//] raises. *)
Definition format_start_time (t : option pynum) : res str :=
  match t with
  | Some seconds => format_timestamp seconds
  | None =>
      Raise (Exc "TypeError"
               (py "unsupported operand type(s) for //: 'NoneType' and 'int'"))
  end.

(** [f"[{timestamp}] {current_speaker}: {combined_text}"]. *)
Definition speaker_line (timestamp speaker combined_text : str) : str :=
  py "[" ++ timestamp ++ py "] " ++ speaker ++ py ": " ++ combined_text.

(** The guarded write of the open block, used at a speaker change and after
    the loop: [lines] with the block's line appended when a block is open
    and has text. *)
Definition flush (st : loop_state) : res (list str) :=
  match current_speaker st, current_text_parts st with
  | Some speaker, _ :: _ =>
      timestamp <- format_start_time (segment_start_time st) ;;
      let combined_text := join (py " ") (current_text_parts st) in
      Ret (lines st ++ [speaker_line timestamp speaker combined_text])
  | _, _ => Ret (lines st)
  end.

(** One iteration of the loop. *)
Definition loop_body (st : loop_state) (segment : Segment) : res loop_state :=
  let speaker := get (seg_speaker segment) (py "UNKNOWN") in
  let text := strip (get (seg_text segment) []) in
  let start_time := get (seg_start segment) (PyInt 0) in
  if is_empty text then Ret st
  else if speaker_differs speaker (current_speaker st) then
    lines' <- flush st ;;
    Ret {| lines := lines';
           current_speaker := Some speaker;
           current_text_parts := [text];
           segment_start_time := Some start_time |}
  else
    Ret {| lines := lines st;
           current_speaker := current_speaker st;
           current_text_parts := current_text_parts st ++ [text];
           segment_start_time := segment_start_time st |}.

Fixpoint run_loop (st : loop_state) (segments : list Segment) : res loop_state :=
  match segments with
  | [] => Ret st
  | segment :: rest => st' <- loop_body st segment ;; run_loop st' rest
  end.

(** The list [lines] at the [return] of [format_transcript_with_speakers]. *)
Definition speaker_lines (segments : list Segment) : res (list str) :=
  st <- run_loop initial_state segments ;;
  flush st.

Definition format_transcript_with_speakers (segments : list Segment) : res str :=
  match segments with
  | [] => Ret no_results
  | _ =>
      ls <- speaker_lines segments ;;
      Ret (join [nl; nl] ls)
  end.

(** [f"[{timestamp}] {text}"]. *)
Definition simple_line (timestamp text : str) : str :=
  py "[" ++ timestamp ++ py "] " ++ text.

(** One iteration of the loop of [format_transcript_simple]. *)
Definition simple_body (lines : list str) (segment : Segment) : res (list str) :=
  let text := strip (get (seg_text segment) []) in
  let start_time := get (seg_start segment) (PyInt 0) in
  if negb (is_empty text) then
    timestamp <- format_timestamp start_time ;;
    Ret (lines ++ [simple_line timestamp text])
  else Ret lines.

Fixpoint simple_loop (lines : list str) (segments : list Segment) : res (list str) :=
  match segments with
  | [] => Ret lines
  | segment :: rest => lines' <- simple_body lines segment ;; simple_loop lines' rest
  end.

(** The list [lines] at the [return] of [format_transcript_simple]. *)
Definition simple_lines (segments : list Segment) : res (list str) :=
  simple_loop [] segments.

Definition format_transcript_simple (segments : list Segment) : res str :=
  match segments with
  | [] => Ret no_results
  | _ =>
      ls <- simple_lines segments ;;
      Ret (join [nl; nl] ls)
  end.

(* ===================================================================== *)
(** ** The pipeline: [transcribe_audio] *)
(* ===================================================================== *)

(** What an invocation does to the outside, in order. *)
Inductive event : Type :=
| Progress (fraction : float) (desc : str)
| SetEnv (name : string) (value : str)
| Call (name : string).

(** Computations that log events and may raise. *)
Definition io (A : Type) : Type := list event -> list event * res A.

Definition io_ret {A : Type} (a : A) : io A := fun tr => (tr, Ret a).

Definition io_bind {A B : Type} (c : io A) (k : A -> io B) : io B :=
  fun tr =>
    match c tr with
    | (tr', Ret a) => k a tr'
    | (tr', Raise e) => (tr', Raise e)
    end.

Notation "x <~ c ;; k" := (io_bind c (fun x => k))
  (at level 61, c at next level, right associativity).
Notation "c ;;; k" := (io_bind c (fun _ => k))
  (at level 61, right associativity).

Definition emit (ev : event) : io unit := fun tr => (tr ++ [ev], Ret tt).

(** [progress(fraction, desc=desc)]. *)
Definition progress (fraction : float) (desc : str) : io unit :=
  emit (Progress fraction desc).

(** A call of an external collaborator, with the outcome the world gives. *)
Definition call {A : Type} (name : string) (outcome : res A) : io A :=
  fun tr => (tr ++ [Call name], outcome).

(** A pure computation that may raise. *)
Definition lift {A : Type} (r : res A) : io A := fun tr => (tr, r).

(** A statement of a [try] block: on an exception the handler runs, with
    the local variables as they are at that point. *)
Definition attempt {A B : Type} (c : io A) (handler : exn -> io B)
    (k : A -> io B) : io B :=
  fun tr =>
    match c tr with
    | (tr', Ret a) => k a tr'
    | (tr', Raise e) => handler e tr'
    end.

(** Opaque objects of the libraries (models, the decoded audio, ...). *)
Definition handle : Type := N.

(** The dict returned by the transcription stages; the key ["segments"] may
    be absent. *)
Record Result : Type := mkResult { segments : option (list Segment) }.

(** The external collaborators of one invocation. *)
Record World : Type := mkWorld {
  getenv : string -> option str;
  cuda_is_available : bool;
  cuda_empty_cache : res unit;
  set_num_threads : Z -> res unit;
  load_model : str -> string -> string -> res handle;
  load_audio : str -> res handle;
  transcribe : handle -> handle -> Z -> res Result;
  load_align_model : string -> res handle;
  align : list Segment -> handle -> handle -> string -> res Result;
  DiarizationPipeline : str -> string -> res handle;
  diarize : handle -> handle -> option Z -> option Z -> res handle;
  assign_word_speakers : handle -> Result -> res Result;
  mkdtemp : res str;
  path_stem : str -> str;
  path_name : str -> str;
  path_join : str -> str -> str;
  strftime : str;
  write_file : str -> str -> res unit
}.

(** Truthiness of an [Optional[str]]. *)
Definition truthy (s : option str) : bool :=
  match s with
  | Some (_ :: _) => true
  | _ => false
  end.

(** [a or b] on [Optional[str]]. *)
Definition or_else (a b : option str) : option str :=
  if truthy a then a else b.

Definition get_hf_token_from_env (w : World) : option str :=
  or_else (getenv w "HF_TOKEN") (getenv w "HUGGINGFACE_TOKEN").

Definition get_device_and_compute_type (w : World) : string * string :=
  if cuda_is_available w then ("cuda"%string, "float16"%string)
  else ("cpu"%string, "int8"%string).

(** [hf_token and hf_token.strip()], as a condition. *)
Definition ui_token_given (hf_token : option str) : bool :=
  match hf_token with
  | Some t => negb (is_empty t) && negb (is_empty (strip t))
  | None => false
  end.

(** [hf_token.strip() if hf_token and hf_token.strip() else env_token]. *)
Definition effective_token_of (hf_token env_token : option str) : option str :=
  match hf_token with
  | Some t => if ui_token_given hf_token then Some (strip t) else env_token
  | None => env_token
  end.

(** [min_speakers and min_speakers > 0]. *)
Definition positive_bound (b : option Z) : option Z :=
  match b with
  | Some n => if negb (n =? 0) && (0 <? n) then Some n else None
  | None => None
  end.

Definition no_token_note : str :=
  py "NOTE: No HuggingFace token provided (neither in UI nor .env file) - speaker diarization disabled."
  ++ [nl; nl].

Definition is_cuda (device : string) : bool := String.eqb device "cuda".

Definition empty_cache_if_cuda (w : World) (device : string) : io unit :=
  if is_cuda device then call "torch.cuda.empty_cache" (cuda_empty_cache w)
  else io_ret tt.

(** The alignment stage; on an exception the transcription result is kept. *)
Definition align_stage (w : World) (device : string) (audio : handle)
    (result : Result) : io Result :=
  let warn (e : exn) : io Result :=
    progress (lit 50 100)
      (py "Alignment warning: " ++ exn_message e ++ py ", continuing...") ;;;
    io_ret result in
  attempt (call "whisperx.load_align_model" (load_align_model w device)) warn
    (fun model_a =>
  attempt (lift (match segments result with
                 | Some segs => Ret segs
                 | None => Raise (Exc "KeyError" (py "'segments'"))
                 end)) warn
    (fun segs =>
  attempt (call "whisperx.align" (align w segs model_a audio device)) warn
    (fun aligned => io_ret aligned))).

(** The body of [if effective_token:]; returns [result] and
    [diarization_success]. *)
Definition diarize_stage (w : World) (device : string) (audio : handle)
    (token : str) (from_ui : bool) (min_speakers max_speakers : option Z)
    (result : Result) : io (Result * bool) :=
  let token_source := if from_ui then py "UI input" else py ".env file" in
  progress (lit 65 100)
    (py "Performing speaker diarization (token from " ++ token_source ++ py ")...") ;;;
  let failed (locals : Result * bool) (e : exn) : io (Result * bool) :=
    progress (lit 65 100)
      (py "Diarization failed: " ++ exn_message e
       ++ py ", continuing without speaker labels...") ;;;
    io_ret locals in
  attempt (call "whisperx.DiarizationPipeline" (DiarizationPipeline w token device))
    (failed (result, false))
    (fun diarize_model =>
  attempt (call "diarize_model"
             (diarize w diarize_model audio
                (positive_bound min_speakers) (positive_bound max_speakers)))
    (failed (result, false))
    (fun diarize_segments =>
  attempt (call "whisperx.assign_word_speakers"
             (assign_word_speakers w diarize_segments result))
    (failed (result, false))
    (fun result' =>
  attempt (empty_cache_if_cuda w device)
    (failed (result', true))
    (fun _ => io_ret (result', true))))).

Definition file_contents (w : World) (audio_file model_size : str)
    (diarization_success : bool) (transcript : str) : str :=
  py "Transcription of: " ++ path_name w audio_file ++ [nl]
  ++ py "Model: " ++ model_size ++ [nl]
  ++ py "Speaker diarization: "
  ++ (if diarization_success then py "Yes" else py "No") ++ [nl]
  ++ py "Generated: " ++ strftime w ++ [nl]
  ++ repeat 61%N 60 ++ [nl; nl]
  ++ transcript.

Definition transcribe_audio (w : World) (audio_file : option str)
    (model_size : str) (hf_token : option str)
    (min_speakers max_speakers : option Z) (num_threads : Z)
    : io (str * option str) :=
  if negb (truthy audio_file) then io_ret (py "Please upload an audio file.", None)
  else
    let audio_path := get audio_file [] in
    let env_token := get_hf_token_from_env w in
    let effective_token := effective_token_of hf_token env_token in
    emit (SetEnv "OMP_NUM_THREADS" (str_of_int num_threads)) ;;;
    call "torch.set_num_threads" (set_num_threads w num_threads) ;;;
    let '(device, compute_type) := get_device_and_compute_type w in
    progress (lit 5 100) (py "Loading Whisper model...") ;;;
    attempt (call "whisperx.load_model" (load_model w model_size device compute_type))
      (fun e => io_ret (py "Error loading model: " ++ exn_message e, None))
      (fun model =>
    progress (lit 15 100)
      (py "Transcribing audio (this may take a while for long files)...") ;;;
    attempt (call "whisperx.load_audio" (load_audio w audio_path))
      (fun e => io_ret (py "Error during transcription: " ++ exn_message e, None))
      (fun audio =>
    attempt (call "model.transcribe"
               (transcribe w model audio (if is_cuda device then 16 else 4)))
      (fun e => io_ret (py "Error during transcription: " ++ exn_message e, None))
      (fun result0 =>
    progress (lit 50 100) (py "Aligning transcript...") ;;;
    result1 <~ align_stage w device audio result0 ;;
    empty_cache_if_cuda w device ;;;
    rs <~ (if truthy effective_token
           then diarize_stage w device audio (get effective_token [])
                  (ui_token_given hf_token) min_speakers max_speakers result1
           else io_ret (result1, false)) ;;
    let '(result2, diarization_success) := rs in
    progress (lit 90 100) (py "Formatting output...") ;;;
    let segs := get (segments result2) [] in
    transcript <~ lift
      (if diarization_success then format_transcript_with_speakers segs
       else
         t <- format_transcript_simple segs ;;
         Ret (if negb (truthy effective_token) then no_token_note ++ t else t)) ;;
    progress (lit 95 100) (py "Saving transcript...") ;;;
    output_dir <~ call "tempfile.mkdtemp" (mkdtemp w) ;;
    let input_filename := path_stem w audio_path in
    let output_path :=
      path_join w output_dir (input_filename ++ py "_transcript.txt") in
    call "open/write"
      (write_file w output_path
         (file_contents w audio_path model_size diarization_success transcript)) ;;;
    progress (lit 10 10) (py "Complete!") ;;;
    io_ret (transcript, Some output_path)))).

(** One invocation, from an empty log. *)
Definition run {A : Type} (c : io A) : list event * res A := c [].

(* ===================================================================== *)
(** ** The interface: [create_ui] *)
(* ===================================================================== *)

(** Of [create_ui], the part that depends on the environment: the flag
    [token_from_env] and the token field it selects.  The other
    components are built from constants. *)

(** A [gr.Textbox] of type "password". *)
Record Textbox : Type := mkTextbox {
  label : str;
  placeholder : str;
  info : str
}.

(** [env_token is not None and len(env_token) > 0]. *)
Definition token_from_env (w : World) : bool :=
  match get_hf_token_from_env w with
  | Some env_token => (0 <? List.length env_token)%nat
  | None => false
  end.

(** The component [hf_token] of the interface. *)
Definition hf_token_textbox (w : World) : Textbox :=
  if token_from_env w then
    {| label := py "HuggingFace Token (optional - override .env)";
       placeholder := py "Leave empty to use token from .env";
       info := py "Token already loaded from .env file" |}
  else
    {| label := py "HuggingFace Token (for speaker diarization)";
       placeholder := py "hf_...";
       info := py "Required for speaker identification. Get one at huggingface.co/settings/tokens or add HF_TOKEN to .env file" |}.

(* ===================================================================== *)
(** ** Vocabulary of the specification *)
(* ===================================================================== *)

(** A segment with all three keys present. *)
Definition seg (start : pynum) (speaker text : string) : Segment :=
  {| seg_start := Some start;
     seg_speaker := Some (py speaker);
     seg_text := Some (py text) |}.

Definition speaker_of (s : Segment) : str := get (seg_speaker s) (py "UNKNOWN").
Definition text_of (s : Segment) : str := strip (get (seg_text s) []).
Definition start_of (s : Segment) : pynum := get (seg_start s) (PyInt 0).

(** The segments that carry text once trimmed. *)
Definition nonblank (s : Segment) : bool := negb (is_empty (text_of s)).

(** SpeakerBlocks: the maximal runs of consecutive segments with one
    speaker label. *)
Fixpoint group_by_speaker (segs : list Segment) : list (list Segment) :=
  match segs with
  | [] => []
  | s :: rest =>
      match group_by_speaker rest with
      | (first :: g) :: gs =>
          if PyStr.eqb (speaker_of s) (speaker_of first)
          then (s :: first :: g) :: gs
          else [s] :: (first :: g) :: gs
      | gs => [s] :: gs
      end
  end.

(** The text of a block: its segments' trimmed texts, space-joined. *)
Definition block_text (g : list Segment) : str :=
  join (py " ") (map text_of g).

(** The line of a block: timestamp and speaker of its first segment. *)
Definition render_block (g : list Segment) : res str :=
  match g with
  | [] => Ret []
  | first :: _ =>
      timestamp <- format_timestamp (start_of first) ;;
      Ret (speaker_line timestamp (speaker_of first) (block_text g))
  end.

(** The line of a segment in the fallback format. *)
Definition render_simple (s : Segment) : res str :=
  timestamp <- format_timestamp (start_of s) ;;
  Ret (simple_line timestamp (text_of s)).

(** The progress fractions of a log, in order of emission. *)
Fixpoint fractions (tr : list event) : list float :=
  match tr with
  | [] => []
  | Progress f _ :: rest => f :: fractions rest
  | _ :: rest => fractions rest
  end.

(** Order of progress fractions, as the floats compare. *)
Definition fraction_le (a b : float) : Prop := fle a b = true.

(** A fraction in the interval (0, 1]. *)
Definition fraction_in_range (f : float) : Prop :=
  flt zero f = true /\ fle f one = true.

(** The outcome of a stage that succeeds with [a] or raises [message]. *)
Definition outcome {A : Type} (ok : bool) (a : A) (message : string) : res A :=
  if ok then Ret a else Raise (Exc "RuntimeError" (py message)).

(** A world for examples: the environment holds [env_token] under
    [HF_TOKEN]; each stage succeeds or raises as its flag says; the
    transcription yields [segs], alignment keeps them and diarization
    labels every segment with speaker ["S"]. *)
Definition example_world (env_token : option str)
    (load_ok transcribe_ok align_ok diarize_ok : bool)
    (segs : list Segment) : World :=
  {| getenv := fun name => if String.eqb name "HF_TOKEN" then env_token else None;
     cuda_is_available := false;
     cuda_empty_cache := Ret tt;
     set_num_threads := fun _ => Ret tt;
     load_model := fun _ _ _ => outcome load_ok 1%N "model file missing";
     load_audio := fun _ => Ret 2%N;
     transcribe := fun _ _ _ =>
       outcome transcribe_ok (mkResult (Some segs)) "decoding failed";
     load_align_model := fun _ => Ret 3%N;
     align := fun segs' _ _ _ =>
       outcome align_ok (mkResult (Some segs')) "alignment failed";
     DiarizationPipeline := fun _ _ => outcome diarize_ok 4%N "access denied";
     diarize := fun _ _ _ _ => Ret 5%N;
     assign_word_speakers := fun _ r =>
       Ret (mkResult
              (option_map
                 (map (fun s => {| seg_start := seg_start s;
                                   seg_speaker := Some (py "S");
                                   seg_text := seg_text s |}))
                 (segments r)));
     mkdtemp := Ret (py "/tmp/tmpdir");
     path_stem := fun _ => py "talk";
     path_name := fun _ => py "talk.wav";
     path_join := fun d f => d ++ py "/" ++ f;
     strftime := py "2024-01-01 00:00:00";
     write_file := fun _ _ => Ret tt |}.

(** *** The timestamp as the specification states it *)

(** The real number a finite float stands for. *)
Definition value (x : float) : Q :=
  match x with
  | S754_finite s m e => (inject_Z (cond_Zopp s (Zpos m)) * 2 ^ e)%Q
  | _ => 0%Q
  end.

(** A finite float that is not negative (either zero included). *)
Definition is_finite_nonneg (x : float) : bool :=
  match x with
  | S754_zero _ => true
  | S754_finite false m e => bounded prec emax m e
  | _ => false
  end.

(** [v mod d] on the rationals. *)
Definition Qmod (v d : Q) : Q := (v - d * inject_Z (Qfloor (v / d)))%Q.

(** The fields as the specification states them. *)
Definition spec_hours (v : Q) : Z := Qfloor (v / 3600).
Definition spec_minutes (v : Q) : Z := Qfloor (Qmod v 3600 / 60).
Definition spec_seconds (v : Q) : Z := Qfloor (Qmod v 60).

(** A field zero-padded to two digits, wider when the number needs it. *)
Definition zero_padded2 (n : Z) : str :=
  if n <? 10 then [48%N; (48 + Z.to_N n)%N] else digits_of n.

(** The string HH:MM:SS of the specification. *)
Definition spec_timestamp (v : Q) : str :=
  zero_padded2 (spec_hours v) ++ py ":" ++ zero_padded2 (spec_minutes v)
  ++ py ":" ++ zero_padded2 (spec_seconds v).

(** Whether an event is a call of the collaborator [name]. *)
Definition is_call (name : string) (ev : event) : bool :=
  match ev with
  | Call n => String.eqb n name
  | _ => false
  end.

(* ===================================================================== *)
(** ** Vocabulary of the further properties *)
(* ===================================================================== *)

(** A float that is NaN or an infinity. *)
Definition is_nonfinite (x : float) : bool :=
  match x with
  | S754_nan | S754_infinity _ => true
  | _ => false
  end.

(** The segment with every absent key set to the default that the
    formatters read for it. *)
Definition with_defaults (s : Segment) : Segment :=
  {| seg_start := Some (get (seg_start s) (PyInt 0));
     seg_speaker := Some (get (seg_speaker s) (py "UNKNOWN"));
     seg_text := Some (get (seg_text s) []) |}.

(** The segment [s] with another value under the key ["start"]. *)
Definition with_start (s : Segment) (t : option pynum) : Segment :=
  {| seg_start := t; seg_speaker := seg_speaker s; seg_text := seg_text s |}.

(** Start times on which [format_timestamp] is known to return: any
    [int], and a finite non-negative float below 2^62. *)
Definition formattable (t : pynum) : Prop :=
  match t with
  | PyInt _ => True
  | PyFloat f => is_finite_nonneg f = true /\ (value f < 2 ^ 62)%Q
  end.

(** A segment whose text is absent, empty or whitespace only. *)
Definition blank_segment (s : Segment) : Prop := blank (get (seg_text s) []).

(** *** The shape of an invocation *)

(** The names of the collaborators called, in order. *)
Fixpoint calls (tr : list event) : list string :=
  match tr with
  | [] => []
  | Call name :: rest => name :: calls rest
  | _ :: rest => calls rest
  end.

(** The collaborators in the order of the pipeline's stages. *)
Definition pipeline_calls : list string :=
  ["torch.set_num_threads"; "whisperx.load_model"; "whisperx.load_audio";
   "model.transcribe"; "whisperx.load_align_model"; "whisperx.align";
   "torch.cuda.empty_cache"; "whisperx.DiarizationPipeline"; "diarize_model";
   "whisperx.assign_word_speakers"; "torch.cuda.empty_cache";
   "tempfile.mkdtemp"; "open/write"]%string.

(** Each collaborator with the one whose result it needs. *)
Definition prerequisites : list (string * string) :=
  [("whisperx.load_model", "torch.set_num_threads");
   ("whisperx.load_audio", "whisperx.load_model");
   ("model.transcribe", "whisperx.load_audio");
   ("whisperx.load_align_model", "model.transcribe");
   ("whisperx.align", "whisperx.load_align_model");
   ("torch.cuda.empty_cache", "model.transcribe");
   ("whisperx.DiarizationPipeline", "model.transcribe");
   ("diarize_model", "whisperx.DiarizationPipeline");
   ("whisperx.assign_word_speakers", "diarize_model");
   ("tempfile.mkdtemp", "model.transcribe");
   ("open/write", "tempfile.mkdtemp")]%string.

(** [xs] is [ys] with some elements left out. *)
Inductive subsequence {A : Type} : list A -> list A -> Prop :=
| subsequence_nil : subsequence [] []
| subsequence_skip (xs ys : list A) (y : A) :
    subsequence xs ys -> subsequence xs (y :: ys)
| subsequence_take (xs ys : list A) (x : A) :
    subsequence xs ys -> subsequence (x :: xs) (x :: ys).


(** The result the alignment stage leaves: the aligned one when the
    alignment model loads, the result has segments and [align] returns;
    the transcription's own result otherwise. *)
Definition after_alignment (w : World) (device : string) (audio : handle)
    (result : Result) : Result :=
  match load_align_model w device, segments result with
  | Ret model_a, Some segs =>
      match align w segs model_a audio device with
      | Ret aligned => aligned
      | Raise _ => result
      end
  | _, _ => result
  end.

(** The name shown for the source of the token. *)
Definition token_source_of (hf_token : option str) : str :=
  if ui_token_given hf_token then py "UI input" else py ".env file".

(** The events from the formatting of the transcript to the end of a
    completed invocation. *)
Definition closing_events : list event :=
  [Progress (lit 90 100) (py "Formatting output...");
   Progress (lit 95 100) (py "Saving transcript...");
   Call "tempfile.mkdtemp"; Call "open/write";
   Progress (lit 10 10) (py "Complete!")].

(* ===================================================================== *)
(** ** Auxiliary notions of the proofs *)
(* ===================================================================== *)

(** The value of a non-negative float in units of [2^-1074], the smallest
    positive binary64 number. *)
Definition scaled (x : float) : Z :=
  match x with
  | S754_finite false m e => Zpos m * 2 ^ (e + 1074)
  | _ => 0
  end.

(** The number of bits of a positive integer. *)
Definition bitlen (v : Z) : Z := Z.log2 v + 1.

(** The number of low bits a 53-bit mantissa cannot hold. *)
Definition shift_of (v : Z) : Z := Z.max (bitlen v - 53) 0.

(** The binary64 float of value [v * 2^-1074], when there is one. *)
Definition canon (v : Z) : float :=
  match v with
  | Zpos _ => S754_finite false (Z.to_pos (v / 2 ^ shift_of v)) (shift_of v - 1074)
  | _ => S754_zero false
  end.

(** [v * 2^-1074] is a non-negative binary64 number. *)
Definition representable (v : Z) : Prop :=
  0 <= v /\ v mod 2 ^ shift_of v = 0 /\ shift_of v <= 2045.

(** [near v v']: [v'] is [v] rounded down or up to a multiple of its unit
    in the last place. *)
Definition near (v v' : Z) : Prop :=
  v' = v / 2 ^ shift_of v * 2 ^ shift_of v
  \/ v' = (v / 2 ^ shift_of v + 1) * 2 ^ shift_of v.

(** The loop invariant: when a block is open, it has at least one text
    fragment and its start time is set. *)
Definition block_has_text (st : loop_state) : Prop :=
  current_speaker st <> None ->
  current_text_parts st <> [] /\ segment_start_time st <> None.

(** A non-empty trimmed string has the shape [a :: _] and [_ ++ [b]] with
    [a] and [b] not whitespace. *)
Definition trimmed (t : str) : Prop :=
  (exists a r, t = a :: r /\ isspace a = false)
  /\ (exists r b, t = r ++ [b] /\ isspace b = false).

(** All segments of [g] carry the speaker label [sp]. *)
Definition one_speaker (sp : str) (g : list Segment) : Prop :=
  Forall (fun s => speaker_of s = sp) g.

(** The loop state while the block [first :: g] is open. *)
Definition open_block (ls : list str) (first : Segment) (g : list Segment)
    : loop_state :=
  {| lines := ls;
     current_speaker := Some (speaker_of first);
     current_text_parts := map text_of (first :: g);
     segment_start_time := Some (start_of first) |}.

(** [emitted c S]: whatever the log so far, [c] only appends to it, and
    the progress fractions it appends form one of the sequences of [S]. *)
Definition emitted {A : Type} (c : io A) (S : list (list float)) : Prop :=
  forall tr, exists evs, fst (c tr) = tr ++ evs /\ In (fractions evs) S.

(** The sequences of [S1] followed by those of [S2]. *)
Definition seq_product (S1 S2 : list (list float)) : list (list float) :=
  flat_map (fun a => map (app a) S2) S1.

(** Decision of "non-decreasing and within (0, 1]". *)
Fixpoint sortedb (fs : list float) : bool :=
  match fs with
  | a :: ((b :: _) as rest) => fle a b && sortedb rest
  | _ => true
  end.

(** Decision of [fraction_in_range]. *)
Definition in_rangeb (f : float) : bool := flt zero f && fle f one.

(** *** Abstraction of an invocation: its steps and how it ends *)

(** An event without its text. *)
Definition erase (ev : event) : event :=
  match ev with
  | Progress f _ => Progress f []
  | SetEnv name _ => SetEnv name []
  | Call name => Call name
  end.

Fixpoint starts_with (prefix s : str) : bool :=
  match prefix, s with
  | [], _ => true
  | p :: prefix', c :: s' => N.eqb p c && starts_with prefix' s'
  | _ :: _, [] => false
  end.

(** The kinds of value [transcribe_audio] returns. *)
Inductive ending : Type :=
| Saved
| NoAudio
| LoadError
| TranscriptionError
| OtherText.

Definition ending_of (r : str * option str) : ending :=
  match snd r with
  | Some _ => Saved
  | None =>
      if PyStr.eqb (fst r) (py "Please upload an audio file.") then NoAudio
      else if starts_with (py "Error loading model: ") (fst r) then LoadError
      else if starts_with (py "Error during transcription: ") (fst r)
           then TranscriptionError
      else OtherText
  end.

(** The observation of a result: [None] for an exception. *)
Definition observe {A U : Type} (u : A -> U) (r : res A) : option U :=
  match r with
  | Ret a => Some (u a)
  | Raise _ => None
  end.

(** [behaves u c S]: whatever the log so far, [c] only appends to it, and
    the erased events it appends, with the observation of its result, form
    one of the pairs of [S]. *)
Definition behaves {A U : Type} (u : A -> U) (c : io A)
    (S : list (list event * option U)) : Prop :=
  forall tr, exists evs,
    fst (c tr) = tr ++ evs /\ In (map erase evs, observe u (snd (c tr))) S.

(** The behaviours of a computation followed by a handler (after an
    exception) or a continuation (after a value). *)
Definition then_set {U V : Type} (S1 : list (list event * option U))
    (SH SK : list (list event * option V)) : list (list event * option V) :=
  flat_map (fun p =>
              map (fun q => (fst p ++ fst q, snd q))
                  (match snd p with Some _ => SK | None => SH end)) S1.

(** Structural equality of floats. *)
Definition float_eqb (a b : float) : bool :=
  match a, b with
  | S754_zero s, S754_zero s' => Bool.eqb s s'
  | S754_infinity s, S754_infinity s' => Bool.eqb s s'
  | S754_nan, S754_nan => true
  | S754_finite s m e, S754_finite s' m' e' =>
      Bool.eqb s s' && Pos.eqb m m' && Z.eqb e e'
  | _, _ => false
  end.

Fixpoint subsequenceb (xs ys : list string) : bool :=
  match ys with
  | [] => match xs with [] => true | _ :: _ => false end
  | y :: ys' =>
      match xs with
      | [] => true
      | x :: xs' =>
          if String.eqb x y then subsequenceb xs' ys' else subsequenceb xs ys'
      end
  end.

Definition called (name : string) (tr : list event) : bool :=
  existsb (String.eqb name) (calls tr).

Definition same_calls (tr : list event) (names : list string) : bool :=
  if list_eq_dec string_dec (calls tr) names then true else false.

(** The checks made on each behaviour of [transcribe_audio]. *)
Definition check_order (b : list event * option ending) : bool :=
  subsequenceb (calls (fst b)) pipeline_calls
  && forallb (fun p => implb (called (fst p) (fst b)) (called (snd p) (fst b)))
       prerequisites.


Definition check_saved (b : list event * option ending) : bool :=
  match snd b with
  | Some Saved =>
      match rev (fst b) with
      | Progress f _ :: Call write :: Call mkdir :: _ =>
          float_eqb f (lit 10 10) && String.eqb write "open/write"
          && String.eqb mkdir "tempfile.mkdtemp"
      | _ => false
      end
  | _ => negb (existsb (float_eqb (lit 10 10)) (fractions (fst b)))
  end.

Definition check_refused (b : list event * option ending) : bool :=
  match snd b with
  | Some NoAudio => match fst b with [] => true | _ :: _ => false end
  | Some LoadError =>
      same_calls (fst b)
        ["torch.set_num_threads"; "whisperx.load_model"]%string
  | Some TranscriptionError =>
      same_calls (fst b)
        ["torch.set_num_threads"; "whisperx.load_model";
         "whisperx.load_audio"]%string
      || same_calls (fst b)
           ["torch.set_num_threads"; "whisperx.load_model";
            "whisperx.load_audio"; "model.transcribe"]%string
  | Some OtherText => false
  | Some Saved | None => true
  end.

(* ===================================================================== *)
(** * Properties *)
(* ===================================================================== *)

(** ** Strings *)

Lemma eqb_eq (a b : str) : PyStr.eqb a b = true <-> a = b.
Proof.
  revert b; induction a as [|x a IH]; intros [|y b]; simpl; split;
    try congruence; try reflexivity.
  - intros H. apply andb_true_iff in H as [Hx Hab].
    apply N.eqb_eq in Hx. apply IH in Hab. congruence.
  - intros H. injection H as -> ->.
    apply andb_true_iff. split; [apply N.eqb_refl | now apply IH].
Qed.

Lemma eqb_refl (a : str) : PyStr.eqb a a = true.
Proof. now apply eqb_eq. Qed.

Lemma lstrip_blank (s : str) : blank s -> lstrip s = [].
Proof.
  induction 1 as [|c s Hc _ IH]; simpl; [reflexivity|].
  now rewrite Hc.
Qed.

Lemma strip_blank (s : str) : blank s -> strip s = [].
Proof.
  intros H. unfold strip. now rewrite (lstrip_blank s H).
Qed.

(** ** Exact float arithmetic *)

Section FloatExact.

Local Abbreviation U := (2 ^ 1074).

Lemma digits2_size (p : positive) : digits2_pos p = Pos.size p.
Proof. induction p; simpl; congruence. Qed.

Lemma digits2_bitlen (p : positive) : Zpos (digits2_pos p) = bitlen (Zpos p).
Proof.
  rewrite digits2_size. unfold bitlen.
  destruct p; simpl; lia.
Qed.

Lemma bitlen_shift (v n : Z) : 0 < v -> 0 <= n -> bitlen (v * 2 ^ n) = bitlen v + n.
Proof.
  intros Hv Hn. unfold bitlen. rewrite Z.log2_mul_pow2 by lia. lia.
Qed.

Lemma bitlen_pos (v : Z) : 0 < v -> 0 < bitlen v.
Proof. intros Hv. unfold bitlen. pose proof (Z.log2_nonneg v). lia. Qed.

Lemma bitlen_le (a b : Z) : a <= b -> bitlen a <= bitlen b.
Proof. intros H. unfold bitlen. pose proof (Z.log2_le_mono a b H). lia. Qed.

Lemma bitlen_lt_pow2 (v n : Z) : 0 < v -> v < 2 ^ n -> bitlen v <= n.
Proof.
  intros Hv H. unfold bitlen.
  destruct (Z.le_gt_cases n 0) as [Hn|Hn].
  - assert (2 ^ n <= 1).
    { destruct (Z.eq_dec n 0) as [->|]; [simpl; lia|].
      rewrite Z.pow_neg_r by lia. lia. }
    lia.
  - apply Z.log2_lt_pow2 in H; lia.
Qed.

Lemma bitlen_bounds (v : Z) : 0 < v -> 2 ^ (bitlen v - 1) <= v < 2 ^ bitlen v.
Proof.
  intros Hv. unfold bitlen. replace (Z.log2 v + 1 - 1) with (Z.log2 v) by lia.
  replace (Z.log2 v + 1) with (Z.succ (Z.log2 v)) by lia.
  apply Z.log2_spec. exact Hv.
Qed.

Lemma fexp_eq (e : Z) : fexp prec emax e = Z.max (e - 53) (-1074).
Proof. reflexivity. Qed.

(** Iterated halving of an even mantissa loses nothing. *)
Lemma iter_pos_nat {A : Type} (f : A -> A) (n : positive) (x : A) :
  iter_pos f n x = Nat.iter (Pos.to_nat n) f x.
Proof.
  revert x. induction n as [n IH|n IH|]; intros x.
  - change (iter_pos f n~1 x) with (iter_pos f n (iter_pos f n (f x))).
    rewrite !IH, Pos2Nat.inj_xI.
    replace (S (2 * Pos.to_nat n)) with (Pos.to_nat n + S (Pos.to_nat n))%nat by lia.
    now rewrite Nat.iter_add, Nat.iter_succ_r.
  - change (iter_pos f n~0 x) with (iter_pos f n (iter_pos f n x)).
    rewrite !IH, Pos2Nat.inj_xO.
    replace (2 * Pos.to_nat n)%nat with (Pos.to_nat n + Pos.to_nat n)%nat by lia.
    now rewrite Nat.iter_add.
  - reflexivity.
Qed.

Lemma shl_value (n : nat) (m : positive) :
  Zpos (Nat.iter n xO m) = Zpos m * 2 ^ Z.of_nat n.
Proof.
  induction n as [|n IH].
  - simpl. lia.
  - rewrite Nat2Z.inj_succ, Z.pow_succ_r by lia.
    simpl Nat.iter. rewrite Pos2Z.inj_xO, IH. lia.
Qed.

Lemma iter_shr_shl (n : nat) (m : positive) :
  Nat.iter n shr_1 (Build_shr_record (Zpos (Nat.iter n xO m)) false false)
  = Build_shr_record (Zpos m) false false.
Proof.
  induction n as [|n IH]; [reflexivity|].
  rewrite Nat.iter_succ_r. simpl Nat.iter at 2. exact IH.
Qed.

Lemma iter_shr_exact (n : positive) (q : positive) :
  Zpos q mod 2 ^ Zpos n = 0 ->
  iter_pos shr_1 n (Build_shr_record (Zpos q) false false)
  = Build_shr_record (Zpos q / 2 ^ Zpos n) false false.
Proof.
  intros Hmod. rewrite iter_pos_nat.
  assert (Hpow : 0 < 2 ^ Zpos n) by (apply Z.pow_pos_nonneg; lia).
  apply Z.div_exact in Hmod; [|lia].
  assert (Hq : 0 < Zpos q / 2 ^ Zpos n) by nia.
  destruct (Zpos q / 2 ^ Zpos n) as [|m|m] eqn:Hm; try lia.
  assert (Hqm : q = Nat.iter (Pos.to_nat n) xO m).
  { apply Pos2Z.inj. rewrite shl_value, positive_nat_Z. lia. }
  rewrite Hqm. apply iter_shr_shl.
Qed.

Lemma pos_iter_shl (d : positive) (m : positive) :
  Zpos (Pos.iter xO m d) = Zpos m * 2 ^ Zpos d.
Proof.
  pose proof (shl_value (Pos.to_nat d) m) as H. unfold Nat.iter in H.
  rewrite Pos2Nat.inj_iter, H, positive_nat_Z. reflexivity.
Qed.

(** Rounding a value that needs no rounding. *)
Lemma round_aux_exact (q : positive) (e E0 : Z) :
  E0 = fexp prec emax (Zpos (digits2_pos q) + e) ->
  e <= E0 -> Zpos q mod 2 ^ (E0 - e) = 0 -> E0 <= 971 ->
  binary_round_aux prec emax false (Zpos q) e loc_Exact
  = S754_finite false (Z.to_pos (Zpos q / 2 ^ (E0 - e))) E0.
Proof.
  intros HE0 Hle Hmod Hmax.
  unfold binary_round_aux, shr_fexp.
  change (Zdigits2 (Zpos q)) with (Zpos (digits2_pos q)). rewrite <- HE0.
  change (emax - prec) with 971.
  destruct (E0 - e) as [|n|n] eqn:Hn; [| |lia].
  - assert (E0 = e) by lia. subst e.
    unfold shr. cbv beta iota. simpl shr_record_of_loc.
    simpl loc_of_shr_record. simpl shr_m. simpl round_nearest_even.
    change (Zdigits2 (Zpos q)) with (Zpos (digits2_pos q)).
    rewrite <- HE0, Hn. cbv beta iota. simpl shr_m.
    replace (E0 <=? 971) with true by (symmetry; apply Z.leb_le; lia).
    now rewrite Z.pow_0_r, Z.div_1_r.
  - assert (Hpow : 0 < 2 ^ Zpos n) by (apply Z.pow_pos_nonneg; lia).
    pose proof (iter_shr_exact n q Hmod) as Hiter.
    pose proof Hmod as Hdiv. apply Z.div_exact in Hdiv; [|lia].
    destruct (Zpos q / 2 ^ Zpos n) as [|m|m] eqn:Hm; try lia.
    assert (Hdig : Zpos (digits2_pos m) + (e + Zpos n) = Zpos (digits2_pos q) + e).
    { rewrite !digits2_bitlen, Hdiv, (Z.mul_comm (2 ^ Zpos n)).
      rewrite bitlen_shift by lia. lia. }
    unfold shr at 1. cbn [shr_record_of_loc]. rewrite Hiter.
    cbv beta iota. cbn [loc_of_shr_record shr_m round_nearest_even].
    change (Zdigits2 (Zpos m)) with (Zpos (digits2_pos m)).
    rewrite Hdig, <- HE0.
    replace (E0 - (e + Zpos n)) with 0 by lia.
    unfold shr. cbn [shr_record_of_loc]. cbv beta iota. cbn [shr_m].
    replace (e + Zpos n <=? 971) with true by (symmetry; apply Z.leb_le; lia).
    f_equal. lia.
Qed.

Lemma canon_pos (v : Z) :
  0 < v ->
  canon v = S754_finite false (Z.to_pos (v / 2 ^ shift_of v)) (shift_of v - 1074).
Proof. intros Hv. destruct v; try lia. reflexivity. Qed.

Lemma shift_of_nonneg (v : Z) : 0 <= shift_of v.
Proof. unfold shift_of. lia. Qed.

(** The float of the exact value [M * 2^e], when it is representable. *)
Lemma normalize_exact (M e : Z) (sz : bool) :
  0 < M -> -1074 <= e -> representable (M * 2 ^ (e + 1074)) ->
  binary_normalize prec emax M e sz = canon (M * 2 ^ (e + 1074)).
Proof.
  intros HM He [_ [Hmod Hmax]].
  destruct M as [|mx|mx]; try lia.
  remember (Zpos mx * 2 ^ (e + 1074)) as V eqn:HV'.
  assert (HV : 0 < V).
  { subst V. apply Z.mul_pos_pos; [lia | apply Z.pow_pos_nonneg; lia]. }
  rewrite (canon_pos V HV).
  remember (fexp prec emax (Zpos (digits2_pos mx) + e)) as E0 eqn:HE0.
  assert (Hsh : shift_of V = E0 + 1074).
  { unfold shift_of. subst V E0.
    rewrite bitlen_shift, fexp_eq, digits2_bitlen by lia. lia. }
  rewrite Hsh in *.
  assert (HE0lo : -1074 <= E0) by (rewrite HE0, fexp_eq; lia).
  unfold binary_normalize, binary_round, shl_align. rewrite <- HE0.
  destruct (E0 - e) as [|n|d] eqn:Hd.
  - (* already aligned *)
    rewrite (round_aux_exact mx e E0 HE0);
      [| lia | rewrite Hd; apply Z.mod_1_r | lia].
    rewrite Hd. f_equal; [|lia]. f_equal. rewrite Z.pow_0_r, Z.div_1_r. subst V.
    replace (E0 + 1074) with (e + 1074) by lia.
    rewrite Z.div_mul; [reflexivity|]. apply Z.pow_nonzero; lia.
  - (* trailing zero bits are dropped *)
    assert (Hq : Zpos mx mod 2 ^ Zpos n = 0).
    { subst V.
      replace (E0 + 1074) with (Zpos n + (e + 1074)) in Hmod by lia.
      rewrite (Z.pow_add_r 2 (Zpos n) (e + 1074)) in Hmod by lia.
      rewrite Z.mul_mod_distr_r in Hmod;
        try (apply Z.pow_nonzero; lia).
      apply Z.mul_eq_0 in Hmod as [Hmod|Hmod]; [exact Hmod|].
      assert (0 < 2 ^ (e + 1074)) by (apply Z.pow_pos_nonneg; lia). lia. }
    rewrite (round_aux_exact mx e E0 HE0);
      [| lia | rewrite Hd; exact Hq | lia].
    rewrite Hd. f_equal; [|lia]. f_equal. subst V.
    replace (E0 + 1074) with (Zpos n + (e + 1074)) by lia.
    rewrite (Z.pow_add_r 2 (Zpos n) (e + 1074)) by lia.
    rewrite Z.div_mul_cancel_r; try (apply Z.pow_nonzero; lia). reflexivity.
  - (* the mantissa is shifted left *)
    assert (Hdig : Zpos (digits2_pos (Pos.iter xO mx d)) + E0
                   = Zpos (digits2_pos mx) + e).
    { rewrite !digits2_bitlen, pos_iter_shl, bitlen_shift by lia. lia. }
    rewrite (round_aux_exact _ E0 E0);
      [| now rewrite Hdig | lia
       | replace (E0 - E0) with 0 by lia; apply Z.mod_1_r | lia].
    replace (E0 - E0) with 0 by lia.
    f_equal; [|lia]. f_equal. rewrite Z.pow_0_r, Z.div_1_r, pos_iter_shl.
    subst V. replace (e + 1074) with (Zpos d + (E0 + 1074)) by lia.
    rewrite (Z.pow_add_r 2 (Zpos d) (E0 + 1074)), Z.mul_assoc by lia.
    rewrite Z.div_mul; [reflexivity|]. apply Z.pow_nonzero; lia.
Qed.

Lemma pow2_pos (n : Z) : 0 <= n -> 0 < 2 ^ n.
Proof. intros. apply Z.pow_pos_nonneg; lia. Qed.

Lemma mod_pow2_le (a s j : Z) :
  0 <= s <= j -> a mod 2 ^ j = 0 -> a mod 2 ^ s = 0.
Proof.
  intros Hs Hj.
  pose proof (pow2_pos j ltac:(lia)). pose proof (pow2_pos s ltac:(lia)).
  apply Z.mod_divide in Hj; [|lia]. apply Z.mod_divide; [lia|].
  apply Z.divide_trans with (2 ^ j); [|exact Hj].
  exists (2 ^ (j - s)). rewrite <- Z.pow_add_r by lia. f_equal. lia.
Qed.

(** A multiple of [2^j] with at most [j + 53] bits is representable. *)
Lemma representable_multiple (v j : Z) :
  0 <= v -> 0 <= j <= 2045 -> v mod 2 ^ j = 0 -> bitlen v - 53 <= j ->
  representable v.
Proof.
  intros Hv Hj Hmod Hlen. unfold representable.
  assert (Hs : 0 <= shift_of v <= j) by (unfold shift_of; lia).
  repeat split; [exact Hv | | lia].
  now apply mod_pow2_le with j.
Qed.

Lemma representable_zero : representable 0.
Proof.
  split; [lia|]. split; [reflexivity|]. vm_compute. discriminate.
Qed.

(** The fields of [canon v]. *)
Lemma canon_fields (v : Z) :
  representable v -> 0 < v ->
  exists m e, canon v = S754_finite false m e
              /\ Zpos m * 2 ^ (e + 1074) = v
              /\ e + 1074 = shift_of v
              /\ -1074 <= e <= 971.
Proof.
  intros [_ [Hmod Hmax]] Hv. rewrite (canon_pos v Hv).
  pose proof (shift_of_nonneg v) as Hs. pose proof (pow2_pos _ Hs) as Hp.
  pose proof Hmod as Hdiv. apply Z.div_exact in Hdiv; [|lia].
  assert (Hq : 0 < v / 2 ^ shift_of v) by nia.
  exists (Z.to_pos (v / 2 ^ shift_of v)), (shift_of v - 1074).
  split; [reflexivity|]. rewrite Z2Pos.id by exact Hq.
  replace (shift_of v - 1074 + 1074) with (shift_of v) by lia.
  repeat split; lia.
Qed.

Lemma scaled_canon (v : Z) : representable v -> scaled (canon v) = v.
Proof.
  intros Hr. destruct (Z.eq_dec v 0) as [->|Hne]; [reflexivity|].
  assert (Hv : 0 < v) by (destruct Hr; lia).
  destruct (canon_fields v Hr Hv) as [m [e [-> [Hval _]]]]. exact Hval.
Qed.

(** A valid non-negative float is the canonical float of its value. *)
Lemma valid_canon (m : positive) (e : Z) :
  bounded prec emax m e = true ->
  S754_finite false m e = canon (Zpos m * 2 ^ (e + 1074))
  /\ representable (Zpos m * 2 ^ (e + 1074)).
Proof.
  unfold bounded, canonical_mantissa. intros H.
  apply andb_true_iff in H as [Hc He].
  apply Z.eqb_eq in Hc. apply Z.leb_le in He. change (emax - prec) with 971 in He.
  rewrite fexp_eq, digits2_bitlen in Hc.
  assert (Hlo : -1074 <= e) by lia.
  pose proof (pow2_pos (e + 1074) ltac:(lia)) as Hp.
  set (V := Zpos m * 2 ^ (e + 1074)).
  assert (HV : 0 < V) by (unfold V; nia).
  assert (Hsh : shift_of V = e + 1074).
  { unfold shift_of, V. rewrite bitlen_shift by lia. lia. }
  split.
  - rewrite (canon_pos V HV), Hsh. unfold V.
    rewrite Z.div_mul by lia. f_equal. lia.
  - unfold representable. rewrite Hsh. unfold V.
    repeat split; [lia | apply Z.mod_mul; lia | lia].
Qed.

Lemma representable_int (k : Z) :
  0 <= k < 2 ^ 53 -> representable (k * 2 ^ 1074).
Proof.
  intros Hk. destruct (Z.eq_dec k 0) as [->|Hne]; [apply representable_zero|].
  apply representable_multiple with 1074; try lia.
  - apply Z.mod_mul. lia.
  - rewrite bitlen_shift by lia.
    pose proof (bitlen_lt_pow2 k 53 ltac:(lia) ltac:(lia)). lia.
Qed.

Lemma of_Z_exact (k : Z) : 0 <= k < 2 ^ 53 -> of_Z k = canon (k * 2 ^ 1074).
Proof.
  intros Hk. destruct (Z.eq_dec k 0) as [->|Hne]; [reflexivity|].
  unfold of_Z. rewrite normalize_exact; try lia; [reflexivity|].
  now apply representable_int.
Qed.

Lemma bitlen_upper (v : Z) : 0 < v -> bitlen v - 53 <= shift_of v.
Proof. intros _. unfold shift_of. lia. Qed.

(** Aligning two mantissas on the smaller exponent. *)
Lemma aligned_value (m : positive) (e ez : Z) :
  -1074 <= ez <= e ->
  Zpos m * 2 ^ (e - ez) * 2 ^ (ez + 1074) = Zpos m * 2 ^ (e + 1074).
Proof.
  intros H. rewrite <- Z.mul_assoc, <- Z.pow_add_r by lia. f_equal. f_equal. lia.
Qed.

(** [fmod] is exact. *)
Lemma fmod_exact (vx vy : Z) :
  representable vx -> representable vy -> 0 < vy ->
  fmod (canon vx) (canon vy) = canon (vx mod vy)
  /\ representable (vx mod vy).
Proof.
  intros Hx Hy Hvy.
  destruct (canon_fields vy Hy Hvy) as [my [ey [Ey [Hvaly [Hshy Hey]]]]].
  destruct (Z.eq_dec vx 0) as [->|Hne].
  { rewrite Z.mod_0_l by lia. rewrite Ey. split; [reflexivity|].
    apply representable_zero. }
  assert (Hvx : 0 < vx) by (destruct Hx; lia).
  destruct (canon_fields vx Hx Hvx) as [mx [ex [Ex [Hvalx [Hshx Hex]]]]].
  rewrite Ex, Ey. unfold fmod.
  set (ez := Z.min ex ey).
  assert (Hez : -1074 <= ez) by (unfold ez; lia).
  pose proof (pow2_pos (ez + 1074) ltac:(lia)) as Hp.
  set (X := Zpos mx * 2 ^ (ex - ez)). set (Y := Zpos my * 2 ^ (ey - ez)).
  assert (HX : X * 2 ^ (ez + 1074) = vx).
  { unfold X. rewrite aligned_value; [exact Hvalx | unfold ez; lia]. }
  assert (HY : Y * 2 ^ (ez + 1074) = vy).
  { unfold Y. rewrite aligned_value; [exact Hvaly | unfold ez; lia]. }
  assert (HYpos : 0 < Y) by nia.
  assert (Hmod : vx mod vy = (X mod Y) * 2 ^ (ez + 1074)).
  { rewrite <- HX, <- HY. apply Z.mul_mod_distr_r; lia. }
  pose proof (Z.mod_pos_bound X Y HYpos) as HR.
  pose proof (Z.mod_pos_bound vx vy Hvy) as HRv.
  assert (Hrep : representable (vx mod vy)).
  { destruct (Z.eq_dec (vx mod vy) 0) as [->|Hnz]; [apply representable_zero|].
    apply representable_multiple with (ez + 1074); try lia.
    - rewrite Hmod. apply Z.mod_mul. lia.
    - assert (vx mod vy <= vx) by (apply Z.mod_le; lia).
      pose proof (bitlen_le (vx mod vy) vx ltac:(lia)).
      pose proof (bitlen_le (vx mod vy) vy ltac:(lia)).
      pose proof (bitlen_upper vx Hvx). pose proof (bitlen_upper vy Hvy).
      unfold ez. lia. }
  split; [|exact Hrep].
  cbv beta iota zeta delta [cond_Zopp]. fold ez. fold X Y. rewrite Hmod.
  destruct (Z.eq_dec (X mod Y) 0) as [Hz|Hnz]; [rewrite Hz; reflexivity|].
  apply normalize_exact; try lia. now rewrite <- Hmod.
Qed.

Lemma shl_align_value (m : positive) (e ez : Z) :
  ez <= e -> Zpos (fst (shl_align m e ez)) = Zpos m * 2 ^ (e - ez).
Proof.
  intros H. unfold shl_align.
  destruct (ez - e) as [|d|d] eqn:Hd; try lia; simpl fst.
  - replace (e - ez) with 0 by lia. lia.
  - rewrite pos_iter_shl. f_equal. f_equal. lia.
Qed.

(** A subtraction whose exact result is representable. *)
Lemma fsub_exact (vx vy : Z) :
  representable vx -> representable vy -> vy <= vx ->
  representable (vx - vy) ->
  fsub (canon vx) (canon vy) = canon (vx - vy).
Proof.
  intros Hx Hy Hle Hr.
  destruct (Z.eq_dec vy 0) as [->|Hney].
  { rewrite Z.sub_0_r. destruct (Z.eq_dec vx 0) as [->|Hnex]; [reflexivity|].
    assert (Hvx : 0 < vx) by (destruct Hx; lia).
    destruct (canon_fields vx Hx Hvx) as [mx [ex [Ex _]]].
    rewrite Ex. reflexivity. }
  assert (Hvy : 0 < vy) by (destruct Hy; lia).
  assert (Hvx : 0 < vx) by lia.
  destruct (canon_fields vx Hx Hvx) as [mx [ex [Ex [Hvalx [Hshx Hex]]]]].
  destruct (canon_fields vy Hy Hvy) as [my [ey [Ey [Hvaly [Hshy Hey]]]]].
  rewrite Ex, Ey. unfold fsub, SFsub.
  set (ez := Z.min ex ey).
  assert (Hez : -1074 <= ez) by (unfold ez; lia).
  pose proof (pow2_pos (ez + 1074) ltac:(lia)) as Hp.
  rewrite !shl_align_value by (unfold ez; lia).
  cbv beta iota delta [cond_Zopp].
  set (X := Zpos mx * 2 ^ (ex - ez)). set (Y := Zpos my * 2 ^ (ey - ez)).
  assert (HX : X * 2 ^ (ez + 1074) = vx).
  { unfold X. rewrite aligned_value; [exact Hvalx | unfold ez; lia]. }
  assert (HY : Y * 2 ^ (ez + 1074) = vy).
  { unfold Y. rewrite aligned_value; [exact Hvaly | unfold ez; lia]. }
  assert (Hdiff : vx - vy = (X - Y) * 2 ^ (ez + 1074)) by lia.
  rewrite Hdiff in *.
  destruct (Z.eq_dec (X - Y) 0) as [Hz|Hnz]; [rewrite Hz; reflexivity|].
  apply normalize_exact; try lia; [nia | exact Hr].
Qed.

Lemma div_eucl_exact (a b q : Z) : 0 < b -> a = b * q -> Z.div_eucl a b = (q, 0).
Proof.
  intros Hb Ha.
  assert (Hq : a / b = q) by (symmetry; apply Z.div_unique_exact; lia).
  assert (Hr : a mod b = 0) by (rewrite Ha, Z.mul_comm; apply Z.mod_mul; lia).
  unfold Z.div, Z.modulo in *. destruct (Z.div_eucl a b). now subst.
Qed.

Lemma new_location_exact (nb : Z) : new_location nb 0 = loc_Exact.
Proof.
  unfold new_location, new_location_even, new_location_odd.
  destruct (Z.even nb); reflexivity.
Qed.

Lemma bitlen_mul (a b : Z) : 0 < a -> 0 < b -> bitlen (a * b) <= bitlen a + bitlen b.
Proof.
  intros Ha Hb. unfold bitlen.
  pose proof (Z.log2_mul_above a b ltac:(lia) ltac:(lia)). lia.
Qed.

(** A division whose exact quotient is an integer below [2^53]. *)
Lemma fdiv_exact (vw k : Z) :
  representable vw -> 0 < vw -> 0 <= k < 2 ^ 53 -> representable (vw * k) ->
  fdiv (canon (vw * k)) (canon vw) = canon (k * 2 ^ 1074).
Proof.
  intros Hw Hvw Hk Hx.
  destruct (canon_fields vw Hw Hvw) as [my [ey [Ey [Hvaly [Hshy Hey]]]]].
  destruct (Z.eq_dec k 0) as [->|Hnk].
  { rewrite Z.mul_0_r, Ey. reflexivity. }
  assert (Hvx : 0 < vw * k) by nia.
  destruct (canon_fields _ Hx Hvx) as [mx [ex [Ex [Hvalx [Hshx Hex]]]]].
  rewrite Ex, Ey. unfold fdiv, SFdiv.
  (* the exponent chosen by the division *)
  set (D := Zpos (digits2_pos mx) + ex - (Zpos (digits2_pos my) + ey)).
  set (e' := Z.min (fexp prec emax D) (ex - ey)).
  assert (Hbx : Zpos (digits2_pos mx) + ex + 1074 = bitlen (vw * k)).
  { rewrite <- Hvalx, bitlen_shift, digits2_bitlen by lia. lia. }
  assert (Hby : Zpos (digits2_pos my) + ey + 1074 = bitlen vw).
  { rewrite <- Hvaly, bitlen_shift, digits2_bitlen by lia. lia. }
  pose proof (bitlen_mul vw k Hvw ltac:(lia)) as Hmul.
  pose proof (bitlen_lt_pow2 k 53 ltac:(lia) ltac:(lia)) as Hk53.
  pose proof (bitlen_pos k ltac:(lia)) as Hkpos.
  assert (HD : D <= bitlen k) by (unfold D; lia).
  assert (He'0 : e' <= 0) by (unfold e'; rewrite fexp_eq; lia).
  assert (He's : e' <= ex - ey) by (unfold e'; lia).
  pose proof (pow2_pos (- e') ltac:(lia)) as Hpe.
  pose proof (pow2_pos (ey + 1074) ltac:(lia)) as Hpy.
  pose proof (pow2_pos (ex + 1074) ltac:(lia)) as Hpx.
  assert (Hm' : Zpos mx * 2 ^ (ex - ey - e') = Zpos my * (k * 2 ^ (- e'))).
  { apply Z.mul_reg_r with (2 ^ (ey + 1074)); [lia|].
    rewrite <- Z.mul_assoc, <- Z.pow_add_r by lia.
    replace (ex - ey - e' + (ey + 1074)) with (ex + 1074 + - e') by lia.
    rewrite Z.pow_add_r by lia. nia. }
  assert (Hcore : SFdiv_core_binary prec emax (Zpos mx) ex (Zpos my) ey
                  = (k * 2 ^ (- e'), e', loc_Exact)).
  { unfold SFdiv_core_binary.
    change (Zdigits2 (Zpos mx)) with (Zpos (digits2_pos mx)).
    change (Zdigits2 (Zpos my)) with (Zpos (digits2_pos my)).
    fold D. fold e'.
    assert (Hshift : match ex - ey - e' with
                     | 0 => Zpos mx
                     | Zpos _ => Z.shiftl (Zpos mx) (ex - ey - e')
                     | Zneg _ => 0
                     end = Zpos mx * 2 ^ (ex - ey - e')).
    { destruct (ex - ey - e') as [|s|s] eqn:Hs; try lia.
      rewrite Z.shiftl_mul_pow2; lia. }
    rewrite Hshift, (div_eucl_exact _ (Zpos my) (k * 2 ^ (- e')) ltac:(lia) Hm').
    now rewrite new_location_exact. }
  rewrite Hcore. cbv beta iota.
  assert (Hq : 0 < k * 2 ^ (- e')) by nia.
  destruct (k * 2 ^ (- e')) as [|q|q] eqn:Eq; try lia.
  set (E0 := bitlen k - 53).
  assert (HE0 : E0 = fexp prec emax (Zpos (digits2_pos q) + e')).
  { rewrite digits2_bitlen, <- Eq, bitlen_shift, fexp_eq by lia. unfold E0. lia. }
  assert (Hee : e' <= E0).
  { unfold e', E0. rewrite fexp_eq. lia. }
  change (xorb false false) with false.
  rewrite (round_aux_exact q e' E0 HE0 Hee); [| |unfold E0; lia].
  - rewrite canon_pos by nia.
    assert (Hsh : shift_of (k * 2 ^ 1074) = E0 + 1074).
    { unfold shift_of, E0. rewrite bitlen_shift by lia. lia. }
    rewrite Hsh. f_equal; [|lia]. f_equal. rewrite <- Eq.
    replace (- e') with (- E0 + (E0 - e')) by lia.
    replace 1074 with (- E0 + (E0 + 1074)) at 1 by lia.
    rewrite !Z.pow_add_r, !Z.mul_assoc by (unfold E0; lia).
    rewrite !Z.div_mul; try (apply Z.pow_nonzero; unfold E0; lia). reflexivity.
  - rewrite <- Eq. replace (- e') with (- E0 + (E0 - e')) by lia.
    rewrite Z.pow_add_r, Z.mul_assoc by (unfold E0; lia).
    apply Z.mod_mul. apply Z.pow_nonzero; unfold E0; lia.
Qed.

(** The shape of a canonical float. *)
Lemma canon_cases (v : Z) :
  representable v ->
  (v = 0 /\ canon v = S754_zero false)
  \/ (0 < v /\ exists m e, canon v = S754_finite false m e).
Proof.
  intros Hr. destruct (Z.eq_dec v 0) as [->|Hne]; [now left|].
  right. assert (Hv : 0 < v) by (destruct Hr; lia). split; [exact Hv|].
  destruct (canon_fields v Hr Hv) as [m [e [E _]]]. now exists m, e.
Qed.

Lemma floor_int (k : Z) :
  0 <= k < 2 ^ 53 -> floor (canon (k * 2 ^ 1074)) = canon (k * 2 ^ 1074).
Proof.
  intros Hk. pose proof (representable_int k Hk) as Hr.
  destruct (Z.eq_dec k 0) as [->|Hne]; [reflexivity|].
  destruct (canon_fields _ Hr ltac:(lia)) as [m [e [E [Hval [_ He]]]]].
  rewrite E. unfold floor.
  destruct (0 <=? e) eqn:Hsign; [reflexivity|].
  apply Z.leb_gt in Hsign. rewrite <- E.
  cbv beta iota delta [cond_Zopp].
  pose proof (pow2_pos (- e) ltac:(lia)) as Hp.
  pose proof (pow2_pos (e + 1074) ltac:(lia)) as Hp'.
  assert (Hm : Zpos m = k * 2 ^ (- e)).
  { apply Z.mul_reg_r with (2 ^ (e + 1074)); [lia|].
    rewrite Hval, <- Z.mul_assoc, <- Z.pow_add_r by lia.
    f_equal. f_equal. lia. }
  rewrite Hm, Z.div_mul by lia.
  now apply of_Z_exact.
Qed.

Lemma float_int_exact (v : Z) :
  representable v -> float_int (canon v) = Ret (v / 2 ^ 1074).
Proof.
  intros Hr. destruct (Z.eq_dec v 0) as [->|Hne]; [reflexivity|].
  assert (Hv : 0 < v) by (destruct Hr; lia).
  destruct (canon_fields v Hr Hv) as [m [e [E [Hval [_ He]]]]].
  rewrite E. unfold float_int. cbv beta iota delta [cond_Zopp]. f_equal.
  rewrite <- Hval.
  destruct (0 <=? e) eqn:Hsign.
  - apply Z.leb_le in Hsign.
    rewrite Z.pow_add_r, Z.mul_assoc, Z.div_mul by lia. reflexivity.
  - apply Z.leb_gt in Hsign.
    replace 1074 with (- e + (e + 1074)) at 2 by lia.
    rewrite (Z.pow_add_r 2 (- e) (e + 1074)) by lia.
    rewrite Z.div_mul_cancel_r; try (apply Z.pow_nonzero; lia). reflexivity.
Qed.

Lemma flt_canon_zero (v : Z) : representable v -> flt (canon v) zero = false.
Proof.
  intros Hr. destruct (canon_cases v Hr) as [[_ E]|[_ [m [e E]]]];
    rewrite E; reflexivity.
Qed.

Lemma is_zero_canon (v : Z) :
  representable v -> is_zero (canon v) = (v =? 0).
Proof.
  intros Hr. destruct (canon_cases v Hr) as [[-> E]|[Hv [m [e E]]]];
    rewrite E; [reflexivity|].
  symmetry. apply Z.eqb_neq. lia.
Qed.

Lemma sign_round_aux (q e : Z) (l : location) :
  sign_bit (binary_round_aux prec emax false q e l) = false.
Proof.
  unfold binary_round_aux.
  destruct (shr_fexp prec emax q e l) as [mrs' e'].
  destruct (shr_fexp prec emax _ e' loc_Exact) as [mrs'' e''].
  destruct (shr_m mrs''); [reflexivity| |reflexivity].
  destruct (e'' <=? emax - prec); reflexivity.
Qed.

Lemma sign_fdiv (vx vw : Z) :
  representable vx -> representable vw -> 0 < vw ->
  sign_bit (fdiv (canon vx) (canon vw)) = false.
Proof.
  intros Hx Hw Hvw.
  destruct (canon_cases vw Hw) as [[-> _]|[_ [my [ey Ey]]]]; [lia|].
  destruct (canon_cases vx Hx) as [[_ Ex]|[_ [mx [ex Ex]]]];
    rewrite Ex, Ey; [reflexivity|].
  unfold fdiv, SFdiv.
  destruct (SFdiv_core_binary prec emax (Zpos mx) ex (Zpos my) ey) as [[mz ez] lz].
  apply sign_round_aux.
Qed.

(** [v % d] on floats is exact. *)
Lemma float_rem_exact (v d : Z) :
  representable v -> 0 < d < 2 ^ 53 ->
  float_rem (canon v) (of_Z d) = Ret (canon (v mod (d * 2 ^ 1074)))
  /\ representable (v mod (d * 2 ^ 1074)).
Proof.
  intros Hv Hd.
  pose proof (representable_int d ltac:(lia)) as Hw.
  assert (Hvw : 0 < d * 2 ^ 1074) by lia.
  destruct (fmod_exact v _ Hv Hw Hvw) as [Hmod Hrep].
  split; [|exact Hrep].
  unfold float_rem. rewrite of_Z_exact by lia.
  rewrite (is_zero_canon _ Hw).
  replace (d * 2 ^ 1074 =? 0) with false by (symmetry; apply Z.eqb_neq; lia).
  rewrite Hmod, (is_zero_canon _ Hrep), (flt_canon_zero _ Hw),
    (flt_canon_zero _ Hrep).
  destruct (v mod (d * 2 ^ 1074) =? 0) eqn:Hz;
    cbv beta iota delta [negb Bool.eqb]; [|reflexivity].
  apply Z.eqb_eq in Hz. rewrite Hz.
  destruct (canon_cases _ Hw) as [[? _]|[_ [m [e E]]]]; [lia|].
  rewrite E. reflexivity.
Qed.

(** [v // d] on floats is exact when [d] is a multiple of [2^t] and [v]
    stays below [2^(t+53)]. *)
Lemma float_floor_div_exact (v d t : Z) :
  representable v -> 0 < d < 2 ^ 53 -> 0 <= t -> d mod 2 ^ t = 0 ->
  v < 2 ^ (t + 1127) ->
  float_floor_div (canon v) (of_Z d)
  = Ret (canon (v / (d * 2 ^ 1074) * 2 ^ 1074))
  /\ 0 <= v / (d * 2 ^ 1074) < 2 ^ 53.
Proof.
  intros Hv Hd Ht Hdt Hbound.
  pose proof (representable_int d ltac:(lia)) as Hw.
  set (vw := d * 2 ^ 1074) in *.
  assert (Hvw : 0 < vw) by (unfold vw; lia).
  assert (Hv0 : 0 <= v) by (destruct Hv; lia).
  set (k := v / vw).
  pose proof (Z.div_mod v vw ltac:(lia)) as Hdm. fold k in Hdm.
  pose proof (Z.mod_pos_bound v vw Hvw) as Hmb.
  assert (Hk0 : 0 <= k) by (apply Z.div_pos; lia).
  pose proof (pow2_pos t Ht) as Hpt.
  assert (Hdge : 2 ^ t <= d).
  { pose proof Hdt as Hdiv'. apply Z.mod_divide in Hdiv'; [|lia].
    apply Z.divide_pos_le; [lia | exact Hdiv']. }
  assert (Ht53 : t < 53).
  { apply (Z.pow_lt_mono_r_iff 2); lia. }
  assert (Hk : 0 <= k < 2 ^ 53).
  { split; [exact Hk0|].
    apply Z.div_lt_upper_bound; [lia|].
    replace (t + 1127) with (t + 1074 + 53) in Hbound by lia.
    rewrite Z.pow_add_r in Hbound by lia.
    assert (2 ^ (t + 1074) <= vw).
    { unfold vw. rewrite Z.pow_add_r by lia. nia. }
    nia. }
  split; [|exact Hk].
  assert (Hprod : representable (vw * k)).
  { destruct (Z.eq_dec k 0) as [->|Hnk];
      [rewrite Z.mul_0_r; apply representable_zero|].
    apply representable_multiple with (t + 1074); try nia.
    - unfold vw. apply Z.mod_divide; [apply Z.pow_nonzero; lia|].
      apply Z.mod_divide in Hdt; [|lia]. destruct Hdt as [c Hc].
      exists (c * k). rewrite Hc, Z.pow_add_r by lia. ring.
    - assert (vw * k <= v) by lia.
      pose proof (bitlen_le _ _ H).
      pose proof (bitlen_lt_pow2 v (t + 1127) ltac:(nia) Hbound). lia. }
  destruct (fmod_exact v vw Hv Hw Hvw) as [Hmod Hrep].
  assert (Hsub : fsub (canon v) (canon (v mod vw)) = canon (vw * k)).
  { rewrite fsub_exact; try assumption; try lia.
    - f_equal. lia.
    - replace (v - v mod vw) with (vw * k) by lia. exact Hprod. }
  pose proof (fdiv_exact vw k Hw Hvw Hk Hprod) as Hdiv.
  pose proof (representable_int k Hk) as Hkr.
  unfold float_floor_div, float_div_mod. rewrite of_Z_exact by lia.
  fold vw. rewrite (is_zero_canon _ Hw).
  replace (vw =? 0) with false by (symmetry; apply Z.eqb_neq; lia).
  rewrite Hmod, Hsub, Hdiv.
  rewrite (is_zero_canon _ Hrep), (flt_canon_zero _ Hw), (flt_canon_zero _ Hrep).
  change (Bool.eqb false false) with true. cbv beta iota delta [negb].
  assert (Hhalf : flt half (canon 0) = false) by reflexivity.
  destruct (v mod vw =? 0); cbv beta iota; rewrite (is_zero_canon _ Hkr);
    (destruct (k * 2 ^ 1074 =? 0) eqn:Hz; cbv beta iota delta [fst];
     [ apply Z.eqb_eq in Hz; rewrite Hz; unfold copysign_zero;
       rewrite (sign_fdiv v vw Hv Hw Hvw); reflexivity
     | rewrite (floor_int k Hk), (fsub_exact _ _ Hkr Hkr);
       [ rewrite Z.sub_diag, Hhalf; reflexivity | lia
       | rewrite Z.sub_diag; apply representable_zero ] ]).
Qed.

(** ** Float operations up to one unit in the last place *)

Lemma shr_1_half (r : shr_record) :
  0 <= shr_m r -> shr_m (shr_1 r) = shr_m r / 2.
Proof.
  destruct r as [m rb sb]. cbn [shr_m]. intros Hm.
  destruct m as [|[p|p|]|p]; try lia; cbn [shr_1 shr_m].
  - reflexivity.
  - apply Z.div_unique with 1; lia.
  - apply Z.div_unique with 0; lia.
  - reflexivity.
Qed.

Lemma shr_iter_half (n : nat) (r : shr_record) :
  0 <= shr_m r -> shr_m (Nat.iter n shr_1 r) = shr_m r / 2 ^ Z.of_nat n.
Proof.
  intros Hm. induction n as [|n IH].
  - simpl. now rewrite Z.div_1_r.
  - simpl Nat.iter. rewrite shr_1_half.
    + rewrite IH, Z.div_div, Nat2Z.inj_succ, Z.pow_succ_r by lia.
      f_equal. lia.
    + rewrite IH. apply Z.div_pos; lia.
Qed.

Lemma shr_record_of_loc_m (m : Z) (l : location) :
  shr_m (shr_record_of_loc m l) = m.
Proof. destruct l as [|[| |]]; reflexivity. Qed.

Lemma shr_m_shift (m : Z) (l : location) (e n : Z) :
  0 <= m -> 0 <= n ->
  shr_m (fst (shr (shr_record_of_loc m l) e n)) = m / 2 ^ n
  /\ snd (shr (shr_record_of_loc m l) e n) = e + n.
Proof.
  intros Hm Hn. unfold shr. destruct n as [|p|p]; try lia; simpl fst; simpl snd.
  - rewrite shr_record_of_loc_m, Z.div_1_r. split; [reflexivity | lia].
  - rewrite iter_pos_nat, shr_iter_half, shr_record_of_loc_m, positive_nat_Z;
      [split; reflexivity | now rewrite shr_record_of_loc_m].
Qed.

Lemma round_nearest_even_near (m : Z) (l : location) :
  round_nearest_even m l = m \/ round_nearest_even m l = m + 1.
Proof.
  destruct l as [|[| |]]; simpl; auto. destruct (Z.even m); auto.
Qed.

Lemma bitlen_unique (v n : Z) : 0 < n -> 2 ^ (n - 1) <= v < 2 ^ n -> bitlen v = n.
Proof.
  intros Hn H. unfold bitlen.
  rewrite (Z.log2_unique v (n - 1)); try lia.
  replace (Z.succ (n - 1)) with n by lia. exact H.
Qed.

(** A 53-bit mantissa at an exponent in range is a canonical float. *)
Lemma canon_mantissa (m E : Z) :
  2 ^ 52 <= m < 2 ^ 53 -> -1074 <= E <= 971 ->
  representable (m * 2 ^ (E + 1074))
  /\ canon (m * 2 ^ (E + 1074)) = S754_finite false (Z.to_pos m) E.
Proof.
  intros Hm HE.
  assert (Hpos : 0 < m) by lia.
  destruct m as [|p|p]; try lia.
  assert (Hb : bounded prec emax p E = true).
  { unfold bounded, canonical_mantissa. apply andb_true_iff. split.
    - apply Z.eqb_eq. rewrite fexp_eq, digits2_bitlen.
      rewrite (bitlen_unique (Zpos p) 53) by lia. lia.
    - apply Z.leb_le. change (emax - prec) with 971. lia. }
  destruct (valid_canon p E Hb) as [Hc Hr]. split; [exact Hr|].
  now rewrite <- Hc.
Qed.

Lemma Zdigits2_bitlen (m : Z) : 0 < m -> Zdigits2 m = bitlen m.
Proof. intros H. destruct m as [|p|p]; try lia. apply digits2_bitlen. Qed.

Lemma shr_fexp_shift (m : Z) (l : location) (e : Z) :
  0 < m -> e <= fexp prec emax (bitlen m + e) ->
  shr_m (fst (shr_fexp prec emax m e l))
  = m / 2 ^ (fexp prec emax (bitlen m + e) - e)
  /\ snd (shr_fexp prec emax m e l) = fexp prec emax (bitlen m + e).
Proof.
  intros Hm He. unfold shr_fexp. rewrite (Zdigits2_bitlen m Hm).
  destruct (shr_m_shift m l e (fexp prec emax (bitlen m + e) - e)) as [H1 H2];
    [lia | lia |].
  split; [exact H1 | rewrite H2; lia].
Qed.

(** Rounding moves a value by less than one unit in the last place. *)
Lemma round_aux_near (q : positive) (e E0 : Z) (l : location) :
  E0 = bitlen (Zpos q) + e - 53 ->
  -1074 <= E0 -> e <= E0 -> E0 + 1 <= 971 ->
  exists m2,
    (m2 = Zpos q / 2 ^ (E0 - e) \/ m2 = Zpos q / 2 ^ (E0 - e) + 1)
    /\ 2 ^ 52 <= Zpos q / 2 ^ (E0 - e) < 2 ^ 53
    /\ binary_round_aux prec emax false (Zpos q) e l
       = canon (m2 * 2 ^ (E0 + 1074))
    /\ representable (m2 * 2 ^ (E0 + 1074)).
Proof.
  intros HE0 Hlo Hle Hhi.
  set (n := E0 - e). assert (Hn : 0 <= n) by (unfold n; lia).
  pose proof (pow2_pos n Hn) as Hpn.
  pose proof (bitlen_bounds (Zpos q) ltac:(lia)) as Hq.
  assert (Hfexp : fexp prec emax (bitlen (Zpos q) + e) = E0)
    by (rewrite fexp_eq; lia).
  assert (Hm1 : 2 ^ 52 <= Zpos q / 2 ^ n < 2 ^ 53).
  { replace (bitlen (Zpos q)) with (n + 53) in Hq by (unfold n; lia).
    replace (n + 53 - 1) with (52 + n) in Hq by lia.
    rewrite !Z.pow_add_r in Hq by lia. split.
    - apply Z.div_le_lower_bound; lia.
    - apply Z.div_lt_upper_bound; lia. }
  set (m1 := Zpos q / 2 ^ n) in *.
  unfold binary_round_aux.
  destruct (shr_fexp_shift (Zpos q) l e ltac:(lia) ltac:(lia)) as [Hs1 Hs2].
  rewrite Hfexp in Hs1, Hs2. fold n in Hs1. fold m1 in Hs1.
  destruct (shr_fexp prec emax (Zpos q) e l) as [mrs' e'].
  cbn [fst snd] in Hs1, Hs2. subst e'. rewrite Hs1.
  set (m2 := round_nearest_even m1 (loc_of_shr_record mrs')).
  assert (Hm2 : m2 = m1 \/ m2 = m1 + 1) by apply round_nearest_even_near.
  exists m2. split; [exact Hm2|]. split; [exact Hm1|].
  assert (Hm2pos : 0 < m2) by lia.
  destruct (Z_lt_le_dec m2 (2 ^ 53)) as [Hsmall|Hbig].
  - (* no carry *)
    assert (Hbl : bitlen m2 = 53) by (apply bitlen_unique; lia).
    destruct (shr_fexp_shift m2 loc_Exact E0 Hm2pos) as [Ht1 Ht2];
      [rewrite Hbl, fexp_eq; lia|].
    rewrite Hbl in Ht1, Ht2.
    replace (fexp prec emax (53 + E0)) with E0 in Ht1, Ht2
      by (rewrite fexp_eq; lia).
    replace (E0 - E0) with 0 in Ht1 by lia.
    rewrite Z.pow_0_r, Z.div_1_r in Ht1.
    destruct (shr_fexp prec emax m2 E0 loc_Exact) as [mrs'' e''].
    cbn [fst snd] in Ht1, Ht2. subst e''. rewrite Ht1.
    destruct (canon_mantissa m2 E0 ltac:(lia) ltac:(lia)) as [Hr Hc].
    split; [|exact Hr]. rewrite Hc.
    destruct m2 as [|p|p]; try lia.
    change (emax - prec) with 971.
    replace (E0 <=? 971) with true by (symmetry; apply Z.leb_le; lia).
    reflexivity.
  - (* the mantissa carries into the next binade *)
    assert (Heq : m2 = 2 ^ 53) by lia.
    assert (Hbl : bitlen m2 = 54) by (rewrite Heq; reflexivity).
    destruct (shr_fexp_shift m2 loc_Exact E0 Hm2pos) as [Ht1 Ht2];
      [rewrite Hbl, fexp_eq; lia|].
    rewrite Hbl in Ht1, Ht2.
    replace (fexp prec emax (54 + E0)) with (E0 + 1) in Ht1, Ht2
      by (rewrite fexp_eq; lia).
    replace (E0 + 1 - E0) with 1 in Ht1 by lia.
    destruct (shr_fexp prec emax m2 E0 loc_Exact) as [mrs'' e''].
    cbn [fst snd] in Ht1, Ht2. subst e''. rewrite Ht1, Heq.
    change (2 ^ 53 / 2 ^ 1) with (2 ^ 52).
    destruct (canon_mantissa (2 ^ 52) (E0 + 1) ltac:(lia) ltac:(lia)) as [Hr Hc].
    replace (2 ^ 53 * 2 ^ (E0 + 1074)) with (2 ^ 52 * 2 ^ (E0 + 1 + 1074)).
    2:{ replace (E0 + 1 + 1074) with (1 + (E0 + 1074)) by lia.
        rewrite (Z.pow_add_r 2 1 (E0 + 1074)) by lia.
        change (2 ^ 53) with (2 ^ 52 * 2 ^ 1). ring. }
    split; [|exact Hr]. rewrite Hc.
    change (emax - prec) with 971.
    replace (E0 + 1 <=? 971) with true by (symmetry; apply Z.leb_le; lia).
    reflexivity.
Qed.

Lemma near_bound (v v' : Z) :
  near v v' -> v - 2 ^ shift_of v < v' <= v + 2 ^ shift_of v.
Proof.
  pose proof (pow2_pos _ (shift_of_nonneg v)) as Hp.
  pose proof (Z.div_mod v (2 ^ shift_of v) ltac:(lia)) as Hdm.
  pose proof (Z.mod_pos_bound v (2 ^ shift_of v) Hp) as Hb.
  intros [->| ->]; nia.
Qed.

Lemma representable_near_self (v : Z) : representable v -> near v v.
Proof.
  intros [_ [Hmod _]]. left.
  pose proof (pow2_pos _ (shift_of_nonneg v)) as Hp.
  apply Z.div_exact in Hmod; lia.
Qed.

(** The float of [M * 2^e], rounded. *)
Lemma normalize_near (M e : Z) (sz : bool) :
  0 < M -> -1074 <= e ->
  53 <= bitlen (M * 2 ^ (e + 1074)) <= 2097 ->
  exists v',
    binary_normalize prec emax M e sz = canon v'
    /\ representable v'
    /\ near (M * 2 ^ (e + 1074)) v'.
Proof.
  intros HM He Hlen.
  set (V := M * 2 ^ (e + 1074)) in *.
  pose proof (pow2_pos (e + 1074) ltac:(lia)) as Hpe.
  assert (HV : 0 < V) by (unfold V; nia).
  assert (Hbl : bitlen V = bitlen M + (e + 1074)).
  { unfold V. apply bitlen_shift; lia. }
  assert (Hsh : shift_of V = bitlen V - 53) by (unfold shift_of; lia).
  destruct (Z_le_gt_dec (shift_of V) (e + 1074)) as [Hexact|Hround].
  - (* nothing to round *)
    assert (Hr : representable V).
    { unfold representable. repeat split; try lia.
      apply mod_pow2_le with (e + 1074);
        [pose proof (shift_of_nonneg V); lia|].
      unfold V. apply Z.mod_mul. lia. }
    exists V. split; [|split; [exact Hr | now apply representable_near_self]].
    now apply normalize_exact.
  - destruct M as [|q|q]; try lia.
    set (E0 := bitlen (Zpos q) + e - 53).
    assert (Hshl : shl_align q e (fexp prec emax (Zpos (digits2_pos q) + e))
                   = (q, e)).
    { unfold shl_align. rewrite digits2_bitlen, fexp_eq.
      destruct (Z.max (bitlen (Zpos q) + e - 53) (-1074) - e) eqn:Hd;
        try reflexivity. lia. }
    unfold binary_normalize, binary_round. rewrite Hshl.
    destruct (round_aux_near q e E0 loc_Exact eq_refl)
      as [m2 [Hm2 [Hm1 [Hres Hrep]]]]; try (unfold E0; lia).
    exists (m2 * 2 ^ (E0 + 1074)). split; [exact Hres|]. split; [exact Hrep|].
    assert (HshE : shift_of V = E0 + 1074) by (unfold E0; lia).
    assert (Hdiv : V / 2 ^ shift_of V = Zpos q / 2 ^ (E0 - e)).
    { rewrite HshE. unfold V.
      replace (E0 + 1074) with (E0 - e + (e + 1074)) by lia.
      rewrite (Z.pow_add_r 2 (E0 - e) (e + 1074)) by (unfold E0; lia).
      apply Z.div_mul_cancel_r; apply Z.pow_nonzero; unfold E0; lia. }
    unfold near. rewrite Hdiv, HshE.
    destruct Hm2 as [->| ->]; [now left | now right].
Qed.

(** A subtraction, rounded. *)
Lemma fsub_near (vx vy : Z) :
  representable vx -> representable vy -> vy < vx ->
  53 <= bitlen (vx - vy) -> bitlen vx <= 2097 ->
  exists v',
    fsub (canon vx) (canon vy) = canon v'
    /\ representable v'
    /\ near (vx - vy) v'.
Proof.
  intros Hx Hy Hlt Hlen Hmax.
  assert (Hy0 : 0 <= vy) by (destruct Hy; lia).
  assert (Hvx : 0 < vx) by lia.
  assert (Hlen' : bitlen (vx - vy) <= 2097).
  { pose proof (bitlen_le (vx - vy) vx ltac:(lia)). lia. }
  destruct (canon_fields vx Hx Hvx) as [mx [ex [Ex [Hvalx [Hshx Hex]]]]].
  destruct (Z.eq_dec vy 0) as [->|Hney].
  { rewrite Z.sub_0_r in *. exists vx.
    split; [rewrite Ex; reflexivity|].
    split; [exact Hx | now apply representable_near_self]. }
  assert (Hvy : 0 < vy) by lia.
  destruct (canon_fields vy Hy Hvy) as [my [ey [Ey [Hvaly [Hshy Hey]]]]].
  rewrite Ex, Ey. unfold fsub, SFsub.
  set (ez := Z.min ex ey).
  assert (Hez : -1074 <= ez) by (unfold ez; lia).
  pose proof (pow2_pos (ez + 1074) ltac:(lia)) as Hp.
  rewrite !shl_align_value by (unfold ez; lia).
  cbv beta iota delta [cond_Zopp].
  set (X := Zpos mx * 2 ^ (ex - ez)). set (Y := Zpos my * 2 ^ (ey - ez)).
  assert (HX : X * 2 ^ (ez + 1074) = vx).
  { unfold X. rewrite aligned_value; [exact Hvalx | unfold ez; lia]. }
  assert (HY : Y * 2 ^ (ez + 1074) = vy).
  { unfold Y. rewrite aligned_value; [exact Hvaly | unfold ez; lia]. }
  assert (Hdiff : vx - vy = (X - Y) * 2 ^ (ez + 1074)) by lia.
  rewrite Hdiff in *.
  apply normalize_near; try lia. nia.
Qed.

Lemma div_eucl_div_mod (a b : Z) : Z.div_eucl a b = (a / b, a mod b).
Proof. unfold Z.div, Z.modulo. now destruct (Z.div_eucl a b). Qed.

(** A division, rounded: the result is the quotient rounded down to a
    53-bit mantissa, or the next float above it. *)
Lemma fdiv_near (vx vw : Z) :
  representable vx -> representable vw -> 0 < vw -> vw <= vx ->
  shift_of vw <= shift_of vx ->
  bitlen vx - bitlen vw <= 1000 ->
  exists P sh v',
    fdiv (canon vx) (canon vw) = canon v'
    /\ representable v'
    /\ 0 <= sh
    /\ (v' = P \/ v' = P + 2 ^ sh)
    /\ 2 ^ 52 * 2 ^ sh <= P
    /\ P * vw <= vx * 2 ^ 1074 < (P + 2 ^ sh) * vw.
Proof.
  intros Hx Hw Hvw Hle Hshift Hlen.
  assert (Hvx : 0 < vx) by lia.
  destruct (canon_fields vx Hx Hvx) as [mx [ex [Ex [Hvalx [Hshx Hex]]]]].
  destruct (canon_fields vw Hw Hvw) as [my [ey [Ey [Hvaly [Hshy Hey]]]]].
  rewrite Ex, Ey. unfold fdiv, SFdiv.
  change (xorb false false) with false.
  set (d1 := bitlen (Zpos mx)). set (d2 := bitlen (Zpos my)).
  assert (Hbx : bitlen vx = d1 + (ex + 1074)).
  { rewrite <- Hvalx. apply bitlen_shift; lia. }
  assert (Hby : bitlen vw = d2 + (ey + 1074)).
  { rewrite <- Hvaly. apply bitlen_shift; lia. }
  pose proof (bitlen_le vw vx Hle) as Hble.
  set (D := d1 + ex - (d2 + ey)).
  assert (HD : 0 <= D <= 1000) by (unfold D; lia).
  set (e' := Z.min (D - 53) (ex - ey)).
  set (s := ex - ey - e').
  assert (Hs : 53 - d1 + d2 <= s) by (unfold s, e', D; lia).
  assert (Hs0 : 0 <= s) by (unfold s, e'; lia).
  assert (He' : -53 <= e') by (unfold e'; lia).
  pose proof (bitlen_bounds (Zpos mx) ltac:(lia)) as Hmx. fold d1 in Hmx.
  pose proof (bitlen_bounds (Zpos my) ltac:(lia)) as Hmy. fold d2 in Hmy.
  pose proof (bitlen_pos (Zpos mx) ltac:(lia)) as Hd1. fold d1 in Hd1.
  pose proof (bitlen_pos (Zpos my) ltac:(lia)) as Hd2. fold d2 in Hd2.
  pose proof (pow2_pos s Hs0) as Hps.
  set (m' := Zpos mx * 2 ^ s).
  set (q := m' / Zpos my).
  assert (Hcore : SFdiv_core_binary prec emax (Zpos mx) ex (Zpos my) ey
                  = (q, e', new_location (Zpos my) (m' mod Zpos my))).
  { unfold SFdiv_core_binary.
    change (Zdigits2 (Zpos mx)) with (Zpos (digits2_pos mx)).
    change (Zdigits2 (Zpos my)) with (Zpos (digits2_pos my)).
    rewrite !digits2_bitlen. fold d1 d2. fold D.
    replace (fexp prec emax D) with (D - 53) by (rewrite fexp_eq; lia).
    fold e'. fold s.
    assert (Hshift' : match s with
                      | 0 => Zpos mx
                      | Zpos _ => Z.shiftl (Zpos mx) s
                      | Zneg _ => 0
                      end = m').
    { unfold m'. destruct s as [|p|p] eqn:Hsp; try lia.
      rewrite Z.shiftl_mul_pow2; lia. }
    rewrite Hshift', div_eucl_div_mod. reflexivity. }
  rewrite Hcore. cbv beta iota.
  (* the quotient has at least 53 bits *)
  set (j := d1 + s - 1 - d2).
  assert (Hj : 52 <= j) by (unfold j; lia).
  assert (Hm'lo : 2 ^ j * 2 ^ d2 <= m').
  { unfold m'. rewrite <- Z.pow_add_r by lia.
    replace (j + d2) with (d1 - 1 + s) by (unfold j; lia).
    rewrite Z.pow_add_r by lia. nia. }
  assert (Hm'hi : m' < 2 ^ (j + 2) * 2 ^ (d2 - 1)).
  { unfold m'. rewrite <- Z.pow_add_r by lia.
    replace (j + 2 + (d2 - 1)) with (d1 + s) by (unfold j; lia).
    rewrite Z.pow_add_r by lia. nia. }
  pose proof (pow2_pos j ltac:(lia)) as Hpj.
  pose proof (pow2_pos (j + 2) ltac:(lia)) as Hpj2.
  assert (Hqlo : 2 ^ j <= q).
  { unfold q. apply Z.div_le_lower_bound; [lia|]. nia. }
  assert (Hqhi : q < 2 ^ (j + 2)).
  { unfold q. apply Z.div_lt_upper_bound; [lia|]. nia. }
  assert (Hq0 : 0 < q) by lia.
  assert (Hblq : j + 1 <= bitlen q <= j + 2).
  { split.
    - pose proof (bitlen_le (2 ^ j) q Hqlo) as H.
      unfold bitlen in H at 1. rewrite Z.log2_pow2 in H by lia. exact H.
    - apply bitlen_lt_pow2; lia. }
  destruct q as [|qp|qp] eqn:Eq; try lia.
  set (E0 := bitlen (Zpos qp) + e' - 53).
  assert (HE0 : D - 53 <= E0 <= D - 52) by (unfold E0, j, s in *; lia).
  destruct (round_aux_near qp e' E0 (new_location (Zpos my) (m' mod Zpos my))
              eq_refl) as [m2 [Hm2 [Hm1 [Hres Hrep]]]];
    try (unfold E0; lia).
  set (n := E0 - e') in *.
  assert (Hn : 0 <= n) by (unfold n, E0; lia).
  pose proof (pow2_pos n Hn) as Hpn.
  set (m1 := Zpos qp / 2 ^ n) in *.
  exists (m1 * 2 ^ (E0 + 1074)), (E0 + 1074), (m2 * 2 ^ (E0 + 1074)).
  split; [exact Hres|]. split; [exact Hrep|]. split; [lia|].
  pose proof (pow2_pos (E0 + 1074) ltac:(lia)) as HpE.
  split; [destruct Hm2 as [->| ->]; [now left | right; ring]|].
  split; [nia|].
  (* the exact quotient lies between the two candidates *)
  pose proof (Z.div_mod (Zpos qp) (2 ^ n) ltac:(lia)) as Hdm1.
  pose proof (Z.mod_pos_bound (Zpos qp) (2 ^ n) Hpn) as Hb1.
  fold m1 in Hdm1.
  pose proof (Z.div_mod m' (Zpos my) ltac:(lia)) as Hdm2.
  pose proof (Z.mod_pos_bound m' (Zpos my) ltac:(lia)) as Hb2.
  fold q in Hdm2. rewrite Eq in Hdm2.
  set (C := 2 ^ (e' + 1074) * 2 ^ (ey + 1074)).
  assert (HC : 0 < C).
  { unfold C. apply Z.mul_pos_pos; apply pow2_pos; lia. }
  assert (HP : m1 * 2 ^ (E0 + 1074) * vw = m1 * 2 ^ n * Zpos my * C).
  { rewrite <- Hvaly. unfold C.
    replace (E0 + 1074) with (n + (e' + 1074)) by (unfold n; lia).
    rewrite (Z.pow_add_r 2 n (e' + 1074)) by lia. ring. }
  assert (HP1 : (m1 * 2 ^ (E0 + 1074) + 2 ^ (E0 + 1074)) * vw
                = (m1 + 1) * 2 ^ n * Zpos my * C).
  { rewrite <- Hvaly. unfold C.
    replace (E0 + 1074) with (n + (e' + 1074)) by (unfold n; lia).
    rewrite (Z.pow_add_r 2 n (e' + 1074)) by lia. ring. }
  assert (HX : vx * 2 ^ 1074 = m' * C).
  { rewrite <- Hvalx. unfold m', C.
    rewrite <- !Z.mul_assoc, <- !Z.pow_add_r by lia.
    f_equal. f_equal. unfold s. lia. }
  rewrite HP, HP1, HX. split.
  - apply Z.mul_le_mono_nonneg_r; [lia|]. nia.
  - apply Z.mul_lt_mono_pos_r; [lia|]. nia.
Qed.

(** [floor] on a float that need not be an integer. *)
Lemma floor_canon (v : Z) :
  representable v -> v / 2 ^ 1074 < 2 ^ 53 ->
  floor (canon v) = canon (v / 2 ^ 1074 * 2 ^ 1074).
Proof.
  intros Hr Hlt.
  assert (Hv0 : 0 <= v) by (destruct Hr; lia).
  assert (HF : 0 <= v / 2 ^ 1074) by (apply Z.div_pos; lia).
  destruct (Z.eq_dec v 0) as [->|Hne]; [reflexivity|].
  destruct (canon_fields v Hr ltac:(lia)) as [m [e [E [Hval [_ He]]]]].
  rewrite E. unfold floor.
  destruct (0 <=? e) eqn:Hsign.
  - apply Z.leb_le in Hsign. rewrite <- E. f_equal.
    rewrite <- Hval, Z.pow_add_r, Z.mul_assoc, Z.div_mul by lia. reflexivity.
  - apply Z.leb_gt in Hsign. cbv beta iota delta [cond_Zopp].
    assert (Hdiv : Zpos m / 2 ^ (- e) = v / 2 ^ 1074).
    { rewrite <- Hval.
      replace 1074 with (- e + (e + 1074)) at 2 by lia.
      rewrite (Z.pow_add_r 2 (- e) (e + 1074)) by lia.
      rewrite Z.div_mul_cancel_r; try (apply Z.pow_nonzero; lia). reflexivity. }
    rewrite Hdiv. now apply of_Z_exact.
Qed.

(** The mantissa of a canonical float has at most 53 bits, and exactly 53
    above the smallest exponent. *)
Lemma canon_mantissa_bounds (v : Z) (m : positive) (e : Z) :
  0 < v -> Zpos m * 2 ^ (e + 1074) = v -> e + 1074 = shift_of v ->
  Zpos m < 2 ^ 53 /\ (-1074 < e -> 2 ^ 52 <= Zpos m).
Proof.
  intros Hv Hval Hsh.
  pose proof (shift_of_nonneg v) as Hs0.
  pose proof (pow2_pos (e + 1074) ltac:(lia)) as Hp.
  pose proof (bitlen_bounds v Hv) as Hb.
  pose proof (bitlen_pos v Hv) as Hbp.
  unfold shift_of in Hsh. split.
  - assert (Hlen : bitlen v <= 53 + (e + 1074)) by lia.
    assert (v < 2 ^ 53 * 2 ^ (e + 1074)).
    { rewrite <- Z.pow_add_r by lia.
      apply Z.lt_le_trans with (2 ^ bitlen v); [lia|].
      apply Z.pow_le_mono_r; lia. }
    nia.
  - intros He. assert (Hlen : bitlen v = 53 + (e + 1074)) by lia.
    assert (2 ^ 52 * 2 ^ (e + 1074) <= v).
    { rewrite <- Z.pow_add_r by lia.
      replace (52 + (e + 1074)) with (bitlen v - 1) by lia. lia. }
    nia.
Qed.

Lemma canon_order (a b : Z) (ma mb : positive) (ea eb : Z) :
  Zpos ma * 2 ^ (ea + 1074) = a -> Zpos mb * 2 ^ (eb + 1074) = b ->
  -1074 <= ea < eb -> Zpos ma < 2 ^ 53 -> 2 ^ 52 <= Zpos mb ->
  a < b.
Proof.
  intros Hva Hvb He Hma Hmb.
  pose proof (pow2_pos (ea + 1074) ltac:(lia)) as Hpa.
  apply Z.lt_le_trans with (2 ^ 53 * 2 ^ (ea + 1074)).
  - rewrite <- Hva. apply Z.mul_lt_mono_pos_r; lia.
  - rewrite <- Hvb.
    replace (eb + 1074) with (eb - ea + (ea + 1074)) by lia.
    rewrite (Z.pow_add_r 2 (eb - ea) (ea + 1074)) by lia.
    assert (Ht : 2 ^ 1 <= 2 ^ (eb - ea)) by (apply Z.pow_le_mono_r; lia).
    change (2 ^ 53) with (2 ^ 52 * 2 ^ 1).
    rewrite <- Z.mul_assoc.
    apply Z.mul_le_mono_nonneg; try lia.
    apply Z.mul_le_mono_nonneg_r; lia.
Qed.

(** Comparison of canonical floats is comparison of their values. *)
Lemma flt_canon (a b : Z) :
  representable a -> representable b -> flt (canon a) (canon b) = (a <? b).
Proof.
  intros Ha Hb.
  assert (Ha0 : 0 <= a) by (destruct Ha; lia).
  assert (Hb0 : 0 <= b) by (destruct Hb; lia).
  destruct (Z.eq_dec a 0) as [->|Hna]; destruct (Z.eq_dec b 0) as [->|Hnb].
  - reflexivity.
  - destruct (canon_fields b Hb ltac:(lia)) as [mb [eb [Eb _]]].
    rewrite Eb. simpl canon. unfold flt, SFltb, SFcompare.
    symmetry. apply Z.ltb_lt. lia.
  - destruct (canon_fields a Ha ltac:(lia)) as [ma [ea [Ea _]]].
    rewrite Ea. simpl canon. unfold flt, SFltb, SFcompare.
    symmetry. apply Z.ltb_ge. lia.
  - destruct (canon_fields a Ha ltac:(lia)) as [ma [ea [Ea [Hva [Hsa Hea]]]]].
    destruct (canon_fields b Hb ltac:(lia)) as [mb [eb [Eb [Hvb [Hsb Heb]]]]].
    destruct (canon_mantissa_bounds a ma ea ltac:(lia) Hva Hsa) as [Hma1 Hma2].
    destruct (canon_mantissa_bounds b mb eb ltac:(lia) Hvb Hsb) as [Hmb1 Hmb2].
    rewrite Ea, Eb. unfold flt, SFltb, SFcompare.
    pose proof (pow2_pos (ea + 1074) ltac:(lia)) as Hpa.
    pose proof (pow2_pos (eb + 1074) ltac:(lia)) as Hpb.
    destruct (Z.compare_spec ea eb) as [Heq|Hlt|Hgt].
    + subst eb. rewrite Pos.compare_cont_spec. simpl Pos.switch_Eq.
      destruct (Pos.compare_spec ma mb) as [Hm|Hm|Hm]; symmetry.
      * apply Z.ltb_ge. subst. lia.
      * apply Z.ltb_lt. rewrite <- Hva, <- Hvb.
        apply Z.mul_lt_mono_pos_r; lia.
      * apply Z.ltb_ge. rewrite <- Hva, <- Hvb.
        apply Z.mul_le_mono_nonneg_r; lia.
    + symmetry. apply Z.ltb_lt.
      apply (canon_order a b ma mb ea eb); auto; lia.
    + symmetry. apply Z.ltb_ge. apply Z.lt_le_incl.
      apply (canon_order b a mb ma eb ea); auto; lia.
Qed.

(** An addition whose exact result is representable. *)
Lemma fadd_exact (vx vy : Z) :
  representable vx -> representable vy -> 0 < vx -> 0 < vy ->
  representable (vx + vy) ->
  fadd (canon vx) (canon vy) = canon (vx + vy).
Proof.
  intros Hx Hy Hvx Hvy Hr.
  destruct (canon_fields vx Hx Hvx) as [mx [ex [Ex [Hvalx [Hshx Hex]]]]].
  destruct (canon_fields vy Hy Hvy) as [my [ey [Ey [Hvaly [Hshy Hey]]]]].
  rewrite Ex, Ey. unfold fadd, SFadd.
  set (ez := Z.min ex ey).
  assert (Hez : -1074 <= ez) by (unfold ez; lia).
  pose proof (pow2_pos (ez + 1074) ltac:(lia)) as Hp.
  rewrite !shl_align_value by (unfold ez; lia).
  cbv beta iota delta [cond_Zopp].
  set (X := Zpos mx * 2 ^ (ex - ez)). set (Y := Zpos my * 2 ^ (ey - ez)).
  assert (HX : X * 2 ^ (ez + 1074) = vx).
  { unfold X. rewrite aligned_value; [exact Hvalx | unfold ez; lia]. }
  assert (HY : Y * 2 ^ (ez + 1074) = vy).
  { unfold Y. rewrite aligned_value; [exact Hvaly | unfold ez; lia]. }
  assert (Hsum : vx + vy = (X + Y) * 2 ^ (ez + 1074)) by lia.
  rewrite Hsum in *.
  apply normalize_exact; [nia | lia | exact Hr].
Qed.

Lemma div_between (a b k : Z) : 0 < b -> k * b <= a < (k + 1) * b -> a / b = k.
Proof.
  intros Hb H. symmetry. apply Z.div_unique with (a - k * b); lia.
Qed.

(** [s // 3600] between 2^57 and 2^62: the subtraction and the division
    round, and the quotient is snapped back to the exact integer. *)
Lemma float_floor_div_hours (v : Z) :
  representable v -> 2 ^ 1131 <= v < 2 ^ 1136 ->
  float_floor_div (canon v) (of_Z 3600)
  = Ret (canon (v / (3600 * 2 ^ 1074) * 2 ^ 1074))
  /\ 0 <= v / (3600 * 2 ^ 1074) < 2 ^ 53.
Proof.
  intros Hv Hrange.
  pose proof (representable_int 3600 ltac:(lia)) as Hw.
  set (U := 2 ^ 1074) in *.
  assert (HU : 0 < U) by (unfold U; lia).
  set (W := 3600 * U) in *.
  assert (HW : 0 < W) by (unfold W; lia).
  set (k := v / W).
  pose proof (Z.div_mod v W ltac:(lia)) as Hdm. fold k in Hdm.
  pose proof (Z.mod_pos_bound v W HW) as Hmb.
  assert (Hk : 2 ^ 45 <= k < 2 ^ 51 - 1).
  { unfold k, W, U. split.
    - apply Z.div_le_lower_bound; lia.
    - apply Z.div_lt_upper_bound; lia. }
  split; [|lia].
  destruct (fmod_exact v W Hv Hw HW) as [Hmod Hrep].
  (* the subtraction *)
  assert (Hwk : v - v mod W = W * k) by lia.
  assert (Hwklo : 2 ^ 1130 <= W * k).
  { rewrite <- Hwk. unfold W, U in *. lia. }
  assert (Hblv : bitlen v <= 1136) by (apply bitlen_lt_pow2; lia).
  assert (Hblwk : 1131 <= bitlen (W * k) <= 1136).
  { split.
    - pose proof (bitlen_le _ _ Hwklo) as H.
      unfold bitlen in H at 1. rewrite Z.log2_pow2 in H by lia. lia.
    - pose proof (bitlen_le (W * k) v ltac:(lia)). lia. }
  destruct (fsub_near v (v mod W) Hv Hrep) as [d' [Hsub [Hd'r Hd'n]]];
    [lia | rewrite Hwk; lia | lia |].
  rewrite Hwk in Hd'n. apply near_bound in Hd'n.
  assert (Hulp : 2 ^ shift_of (W * k) <= 512 * U).
  { unfold U. change (512 * 2 ^ 1074) with (2 ^ 1083).
    apply Z.pow_le_mono_r; [lia|]. unfold shift_of. lia. }
  assert (Hd' : W * k - 512 * U < d' <= W * k + 512 * U) by lia.
  clear Hd'n Hulp.
  (* the division *)
  assert (Hd'lo : 2 ^ 1129 <= d').
  { unfold W, U in *. lia. }
  assert (Hd'hi : d' < 2 ^ 1137).
  { unfold W, U in *. lia. }
  assert (Hbld' : 1130 <= bitlen d' <= 1137).
  { split.
    - pose proof (bitlen_le _ _ Hd'lo) as H.
      unfold bitlen in H at 1. rewrite Z.log2_pow2 in H by lia. lia.
    - apply bitlen_lt_pow2; lia. }
  assert (HblW : bitlen W = 1086) by reflexivity.
  destruct (fdiv_near d' W Hd'r Hw HW) as [P [sh [q' [Hdiv [Hq'r [Hsh0 [Hq' [HP HPq]]]]]]]];
    [unfold W, U in *; lia | unfold shift_of; lia | lia |].
  fold U in HPq.
  assert (HP1 : 3600 * P <= d').
  { apply Z.mul_le_mono_pos_r with U; [lia|]. unfold W in HPq. lia. }
  assert (HP2 : d' < 3600 * (P + 2 ^ sh)).
  { apply Z.mul_lt_mono_pos_r with U; [lia|]. unfold W in HPq. lia. }
  assert (Hshb : sh <= 1072).
  { assert (Hlt : 2 ^ (52 + sh) < 2 ^ 1125).
    { rewrite Z.pow_add_r by lia.
      apply Z.le_lt_trans with P; [lia|].
      change (2 ^ 1125) with (2 ^ 51 * 2 ^ 1074). fold U. unfold W in *. nia. }
    apply Z.pow_lt_mono_r_iff in Hlt; lia. }
  assert (HT : 4 * 2 ^ sh <= U).
  { unfold U. change (2 ^ 1074) with (4 * 2 ^ 1072).
    assert (2 ^ sh <= 2 ^ 1072) by (apply Z.pow_le_mono_r; lia). lia. }
  pose proof (pow2_pos sh Hsh0) as HTpos.
  assert (Hnear : 3600 * (k * U) - 1412 * U < 3600 * q'
                  /\ 3600 * q' <= 3600 * (k * U) + 1412 * U).
  { unfold W in *. destruct Hq' as [->| ->]; lia. }
  clear HP HPq HP1 HP2 Hq' Hd' Hd'lo Hd'hi Hbld'.
  assert (Hq'pos : 0 < q').
  { assert (2 ^ 45 * U <= k * U) by (apply Z.mul_le_mono_nonneg_r; lia). lia. }
  (* the quotient is snapped to the integer *)
  pose proof (representable_int k ltac:(lia)) as Hkr. fold U in Hkr.
  assert (Hone : one = canon U) by reflexivity.
  assert (Hhalf : half = canon (2 ^ 1073)) by reflexivity.
  assert (Hhalfr : representable (2 ^ 1073)).
  { split; [lia|]. split; [reflexivity | vm_compute; discriminate]. }
  assert (HU2 : U = 2 * 2 ^ 1073) by reflexivity.
  pose proof (representable_int 1 ltac:(lia)) as H1r.
  change (1 * 2 ^ 1074) with U in H1r.
  unfold float_floor_div, float_div_mod. rewrite of_Z_exact by lia.
  fold U. fold W. rewrite (is_zero_canon _ Hw).
  replace (W =? 0) with false by (symmetry; apply Z.eqb_neq; lia).
  rewrite Hmod, Hsub, Hdiv.
  rewrite (is_zero_canon _ Hrep), (flt_canon_zero _ Hw), (flt_canon_zero _ Hrep).
  change (Bool.eqb false false) with true. cbv beta iota delta [negb].
  assert (Hbranch : forall m : float,
            fst (let '(mod1, div1) := (m, canon q') in
                 (if if is_zero div1 then false else true
                  then if flt half (fsub div1 (floor div1))
                       then fadd (floor div1) one else floor div1
                  else copysign_zero (fdiv (canon v) (canon W)), mod1))
            = canon (k * U)).
  { intros m. cbv beta iota delta [fst].
    rewrite (is_zero_canon _ Hq'r).
    replace (q' =? 0) with false by (symmetry; apply Z.eqb_neq; lia).
    destruct (Z_le_gt_dec (k * U) q') as [Hge|Hlt].
    - (* at or above the integer *)
      assert (HF : q' / U = k) by (apply div_between; lia).
      rewrite (floor_canon q' Hq'r) by (fold U; rewrite HF; lia).
      fold U. rewrite HF.
      assert (Hfr : representable (q' - k * U)).
      { destruct (Z.eq_dec (q' - k * U) 0) as [->|Hnz];
          [apply representable_zero|].
        pose proof (shift_of_nonneg q') as Hs0.
        destruct Hq'r as [_ [Hq'mod Hq'sh]].
        assert (Hblq : bitlen q' <= 1125).
        { apply bitlen_lt_pow2; [lia|].
          change (2 ^ 1125) with (2 ^ 51 * 2 ^ 1074). fold U. nia. }
        assert (Hsq : shift_of q' <= 1072) by (unfold shift_of; lia).
        apply representable_multiple with (shift_of q'); try lia.
        - rewrite Zminus_mod, Hq'mod.
          replace ((k * U) mod 2 ^ shift_of q') with 0; [reflexivity|].
          symmetry. apply mod_pow2_le with 1074; [lia|].
          unfold U. apply Z.mod_mul. lia.
        - pose proof (bitlen_le (q' - k * U) q' ltac:(lia)).
          unfold shift_of. lia. }
      rewrite (fsub_exact q' (k * U) Hq'r Hkr Hge Hfr).
      rewrite Hhalf, (flt_canon _ _ Hhalfr Hfr).
      replace (2 ^ 1073 <? q' - k * U) with false; [reflexivity|].
      symmetry. apply Z.ltb_ge. lia.
    - (* just below the integer *)
      assert (HF : q' / U = k - 1) by (apply div_between; lia).
      pose proof (representable_int (k - 1) ltac:(lia)) as Hk1r. fold U in Hk1r.
      rewrite (floor_canon q' Hq'r) by (fold U; rewrite HF; lia).
      fold U. rewrite HF.
      assert (Hfr : representable (q' - (k - 1) * U)).
      { pose proof (shift_of_nonneg q') as Hs0.
        destruct Hq'r as [_ [Hq'mod Hq'sh]].
        assert (Hblq : bitlen q' <= 1125).
        { apply bitlen_lt_pow2; [lia|].
          change (2 ^ 1125) with (2 ^ 51 * 2 ^ 1074). fold U. nia. }
        assert (Hsq : shift_of q' <= 1072) by (unfold shift_of; lia).
        apply representable_multiple with (shift_of q'); try lia.
        - rewrite Zminus_mod, Hq'mod.
          replace (((k - 1) * U) mod 2 ^ shift_of q') with 0; [reflexivity|].
          symmetry. apply mod_pow2_le with 1074; [lia|].
          unfold U. apply Z.mod_mul. lia.
        - pose proof (bitlen_le (q' - (k - 1) * U) q' ltac:(lia)).
          unfold shift_of. lia. }
      rewrite (fsub_exact q' ((k - 1) * U) Hq'r Hk1r ltac:(lia) Hfr).
      rewrite Hhalf, (flt_canon _ _ Hhalfr Hfr).
      replace (2 ^ 1073 <? q' - (k - 1) * U) with true
        by (symmetry; apply Z.ltb_lt; lia).
      assert (Hsum : (k - 1) * U + U = k * U) by ring.
      rewrite Hone, (fadd_exact ((k - 1) * U) U Hk1r H1r);
        [now rewrite Hsum | nia | lia | now rewrite Hsum]. }
  destruct (if v mod W =? 0 then false else true); rewrite Hbranch; reflexivity.
Qed.

End FloatExact.

(** ** The timestamp of the specification *)

Section Timestamp.

Local Abbreviation U := (2 ^ 1074).
Local Abbreviation Up := (2 ^ 1074)%positive.

Lemma Up_U : Zpos Up = U.
Proof. reflexivity. Qed.

(** *** Fields of a fraction *)

Lemma Qfloor_frac_div (V : Z) (p d : positive) :
  Qfloor ((V # p) / inject_Z (Zpos d)) = V / (Zpos d * Zpos p).
Proof.
  unfold Qdiv, Qinv, Qmult, Qfloor. cbn [Qnum Qden inject_Z].
  rewrite Z.mul_1_r, Pos2Z.inj_mul. f_equal. lia.
Qed.

Lemma Qmod_frac (V : Z) (p d : positive) :
  (Qmod (V # p) (inject_Z (Zpos d)) == (V mod (Zpos d * Zpos p)) # p)%Q.
Proof.
  unfold Qmod. rewrite Qfloor_frac_div.
  unfold Qeq, Qminus, Qplus, Qopp, Qmult. cbn [Qnum Qden inject_Z].
  rewrite !Pos2Z.inj_mul.
  pose proof (Z.div_mod V (Zpos d * Zpos p) ltac:(lia)) as Hdm.
  rewrite !Z.mul_1_r.
  set (k := V / (Zpos d * Zpos p)) in *.
  set (r := V mod (Zpos d * Zpos p)) in *.
  rewrite Hdm at 1. ring.
Qed.

Lemma Qmod_comp (v v' d : Q) : (v == v')%Q -> (Qmod v d == Qmod v' d)%Q.
Proof.
  intros H. unfold Qmod.
  assert (Hf : Qfloor (v / d) = Qfloor (v' / d)).
  { apply Qfloor_comp. now rewrite H. }
  rewrite Hf. now rewrite H.
Qed.

(** The fields of the specification for the fraction [V / p]. *)
Lemma spec_fields_frac (v : Q) (V : Z) (p : positive) :
  (v == V # p)%Q ->
  spec_hours v = V / (3600 * Zpos p)
  /\ spec_minutes v = V mod (3600 * Zpos p) / (60 * Zpos p)
  /\ spec_seconds v = V mod (60 * Zpos p) / Zpos p.
Proof.
  intros Hv. unfold spec_hours, spec_minutes, spec_seconds.
  repeat split.
  - rewrite Hv. apply (Qfloor_frac_div V p 3600).
  - assert (H : (Qmod v 3600 / 60 == ((V mod (3600 * Zpos p)) # p) / 60)%Q).
    { rewrite (Qmod_comp v (V # p) 3600 Hv).
      now rewrite (Qmod_frac V p 3600). }
    rewrite H. apply (Qfloor_frac_div _ p 60).
  - assert (H : (Qmod v 60 == (V mod (60 * Zpos p)) # p)%Q).
    { rewrite (Qmod_comp v (V # p) 60 Hv).
      apply (Qmod_frac V p 60). }
    rewrite H. reflexivity.
Qed.

Lemma value_scaled (m : positive) (e : Z) :
  -1074 <= e ->
  (value (S754_finite false m e) == (Zpos m * 2 ^ (e + 1074)) # Up)%Q.
Proof.
  intros He. unfold value. cbv beta iota delta [cond_Zopp].
  rewrite (Qmake_Qdiv (Zpos m * 2 ^ (e + 1074)) Up), Up_U.
  rewrite inject_Z_mult, !Zpower_Qpower by lia.
  change (inject_Z 2) with 2%Q.
  rewrite (Qpower_plus 2 e 1074) by discriminate.
  field.
Qed.

Lemma spec_fields_scaled (v : Q) (V : Z) :
  (v == V # Up)%Q ->
  spec_hours v = V / (3600 * U)
  /\ spec_minutes v = V mod (3600 * U) / (60 * U)
  /\ spec_seconds v = V mod (60 * U) / U.
Proof.
  intros Hv. pose proof (spec_fields_frac v V Up Hv) as H.
  now rewrite Up_U in H.
Qed.

(** *** The format spec [02d] *)

Lemma digits_small (n : Z) :
  0 <= n < 10 -> digits_of n = [(48 + Z.to_N n)%N].
Proof.
  intros H. rewrite <- (Z2Nat.id n) by lia.
  assert (Hk : (Z.to_nat n < 10)%nat) by lia.
  revert Hk. generalize (Z.to_nat n). intros k Hk.
  do 10 (destruct k as [|k]; [reflexivity|]). lia.
Qed.

Lemma uint_short_small (u : Decimal.uint) :
  (List.length (str_of_uint u) < 2)%nat -> (N.of_uint u < 10)%N.
Proof.
  destruct u as [|u|u|u|u|u|u|u|u|u|u]; simpl; try (intros; reflexivity);
    destruct u; simpl; intros H; try lia; reflexivity.
Qed.

Lemma digits_long (n : Z) : 10 <= n -> (2 <= List.length (digits_of n))%nat.
Proof.
  intros H. unfold digits_of.
  destruct (Nat.lt_ge_cases (List.length (str_of_uint (N.to_uint (Z.abs_N n)))) 2)
    as [Hlt|Hge]; [|exact Hge].
  apply uint_short_small in Hlt. rewrite DecimalN.Unsigned.of_to in Hlt. lia.
Qed.

Lemma format_02d_padded (n : Z) : 0 <= n -> format_02d n = zero_padded2 n.
Proof.
  intros H. unfold format_02d, zero_padded2.
  replace (n <? 0) with false by (symmetry; apply Z.ltb_ge; lia).
  destruct (n <? 10) eqn:E.
  - apply Z.ltb_lt in E. now rewrite digits_small by lia.
  - apply Z.ltb_ge in E. pose proof (digits_long n E) as Hlen.
    replace (2 - List.length (digits_of n))%nat with 0%nat by lia. reflexivity.
Qed.

(** *** [format_timestamp] on a canonical float *)

Lemma format_timestamp_scaled (V : Z) :
  representable V -> V < 2 ^ 1136 ->
  format_timestamp (PyFloat (canon V))
  = Ret (zero_padded2 (V / (3600 * U)) ++ py ":"
         ++ zero_padded2 (V mod (3600 * U) / (60 * U)) ++ py ":"
         ++ zero_padded2 (V mod (60 * U) / U)).
Proof.
  intros Hr Hlt.
  assert (HV : 0 <= V) by (destruct Hr; lia).
  assert (Hhours : float_floor_div (canon V) (of_Z 3600)
                   = Ret (canon (V / (3600 * U) * U))
                   /\ 0 <= V / (3600 * U) < 2 ^ 53).
  { destruct (Z_lt_le_dec V (2 ^ 1131)) as [Hsmall|Hlarge].
    - apply (float_floor_div_exact V 3600 4 Hr);
        [lia | lia | reflexivity | exact Hsmall].
    - apply (float_floor_div_hours V Hr). lia. }
  destruct Hhours as [Hdiv Hk].
  destruct (float_rem_exact V 3600 Hr) as [Hrem Hr2]; [lia|].
  pose proof (Z.mod_pos_bound V (3600 * U) ltac:(lia)) as Hb2.
  destruct (float_floor_div_exact (V mod (3600 * U)) 60 2 Hr2) as [Hdiv2 Hk2];
    [lia | lia | reflexivity | |].
  { apply Z.lt_trans with (3600 * U); [lia|].
    change (2 ^ (2 + 1127)) with (2 ^ 55 * U). lia. }
  destruct (float_rem_exact V 60 Hr) as [Hrem3 Hr3]; [lia|].
  pose proof (Z.mod_pos_bound V (60 * U) ltac:(lia)) as Hb3.
  unfold format_timestamp, py_floordiv, py_mod, py_int.
  rewrite Hdiv, Hrem. cbv beta iota delta [bind].
  rewrite Hdiv2, Hrem3. cbv beta iota delta [bind].
  rewrite !float_int_exact by (try apply representable_int; assumption).
  rewrite !Z.div_mul by lia.
  rewrite !format_02d_padded; try lia; [reflexivity|].
  apply Z.div_pos; lia.
Qed.

(** *** [format_timestamp] on an [int] *)

Lemma format_timestamp_int (n : Z) :
  0 <= n ->
  format_timestamp (PyInt n) = Ret (spec_timestamp (inject_Z n)).
Proof.
  intros Hn.
  destruct (spec_fields_frac (inject_Z n) n 1 ltac:(reflexivity))
    as [Hh [Hm Hs]].
  unfold spec_timestamp. rewrite Hh, Hm, Hs.
  change (3600 * 1) with 3600. change (60 * 1) with 60. rewrite Z.div_1_r.
  pose proof (Z.mod_pos_bound n 3600 ltac:(lia)).
  pose proof (Z.mod_pos_bound n 60 ltac:(lia)).
  unfold format_timestamp, py_floordiv, py_mod, py_int.
  cbv beta iota delta [bind Z.eqb].
  rewrite !format_02d_padded; try lia; [reflexivity | |];
    apply Z.div_pos; lia.
Qed.

End Timestamp.

Lemma bounded_exponent (m : positive) (e : Z) :
  bounded prec emax m e = true -> -1074 <= e.
Proof.
  unfold bounded, canonical_mantissa. intros H.
  apply andb_true_iff in H as [Hc _]. apply Z.eqb_eq in Hc.
  rewrite fexp_eq in Hc. lia.
Qed.

Lemma value_bound_scaled (m : positive) (e : Z) :
  -1074 <= e ->
  (value (S754_finite false m e) < 2 ^ 62)%Q ->
  Zpos m * 2 ^ (e + 1074) < 2 ^ 1136.
Proof.
  intros He Hlt. rewrite (value_scaled m e He) in Hlt.
  change (2 ^ 62)%Q with (4611686018427387904 # 1)%Q in Hlt.
  unfold Qlt in Hlt. cbn [Qnum Qden] in Hlt.
  change (Zpos (2 ^ 1074)) with (2 ^ 1074) in Hlt.
  change (2 ^ 1136) with (4611686018427387904 * 2 ^ 1074). lia.
Qed.

(** C3, on a range where the hours are exact: for every finite
    non-negative float below 2^62 (either zero included),
    [format_timestamp] returns the specification's HH:MM:SS, with hours
    floor(s/3600), minutes floor((s mod 3600)/60) and seconds
    floor(s mod 60), each zero-padded to two digits, the hours wider when
    needed; and 0 gives "00:00:00", 3661 gives "01:01:01", 59.9 gives
    "00:00:59". *)
Theorem C3_timestamp_below_2p62 :
  (forall s : float,
     is_finite_nonneg s = true ->
     (value s < 2 ^ 62)%Q ->
     format_timestamp (PyFloat s) = Ret (spec_timestamp (value s)))
  /\ format_timestamp (PyFloat (of_Z 0)) = Ret (py "00:00:00")
  /\ format_timestamp (PyFloat (of_Z 3661)) = Ret (py "01:01:01")
  /\ format_timestamp (PyFloat (lit 599 10)) = Ret (py "00:00:59").
Proof.
  split; [|repeat split; vm_compute; reflexivity].
  intros s Hfin Hlt.
  destruct s as [b|b| |[|] m e]; try discriminate Hfin.
  - destruct b; vm_compute; reflexivity.
  - simpl in Hfin.
    pose proof (bounded_exponent m e Hfin) as He.
    destruct (valid_canon m e Hfin) as [Hcanon Hrep].
    pose proof (value_bound_scaled m e He Hlt) as Hbound.
    pose proof (spec_fields_scaled _ _ (value_scaled m e He))
      as [Hh [Hm Hs]].
    rewrite Hcanon at 1.
    rewrite (format_timestamp_scaled _ Hrep Hbound).
    unfold spec_timestamp. now rewrite Hh, Hm, Hs.
Qed.

Lemma C3_timestamp_witness :
  format_timestamp (PyFloat (lit 599 10))
  = Ret (spec_timestamp (value (lit 599 10)))
  /\ spec_timestamp (value (lit 599 10)) = py "00:00:59".
Proof.
  split.
  - apply (proj1 C3_timestamp_below_2p62); vm_compute; reflexivity.
  - vm_compute. reflexivity.
Defined.

(** C3 as stated fails for large floats: at s = 2e19 the difference
    [s - s % 3600] rounds back to [s] and the quotient to a float, so
    the hours field is 5555555555555556 where floor(s/3600) is
    5555555555555555; at +infinity the quotient is NaN and the conversion
    to [int] raises. *)
Lemma C3_hours_rounded_at_2e19 :
  is_finite_nonneg (of_Z (2 * 10 ^ 19)) = true
  /\ format_timestamp (PyFloat (of_Z (2 * 10 ^ 19)))
     = Ret (py "5555555555555556:33:20")
  /\ spec_timestamp (value (of_Z (2 * 10 ^ 19))) = py "5555555555555555:33:20"
  /\ format_timestamp (PyFloat (of_Z (2 * 10 ^ 19)))
     <> Ret (spec_timestamp (value (of_Z (2 * 10 ^ 19))))
  /\ format_timestamp (PyFloat (S754_infinity false))
     = Raise (Exc "ValueError" (py "cannot convert float NaN to integer")).
Proof.
  repeat split; try (vm_compute; reflexivity).
  vm_compute. discriminate.
Qed.

(** The same at s = 1e20, where floor(s/3600) is not a float. *)
Lemma hours_rounded_at_1e20 :
  format_timestamp (PyFloat (of_Z (10 ^ 20)))
  = Ret (py "27777777777777776:46:40")
  /\ spec_timestamp (value (of_Z (10 ^ 20))) = py "27777777777777777:46:40".
Proof. split; vm_compute; reflexivity. Qed.

(** ** The formatters on concrete inputs *)

(** C1: the three segments (0,"A","hello"), (1,"A","world"), (3,"B","hi")
    give exactly the two blocks "[00:00:00] A: hello world" and
    "[00:00:03] B: hi" separated by one blank line, whether the start
    times are ints or floats: the two segments of speaker A are merged
    into one line that carries the first one's start. *)
Theorem C1_merges_consecutive_speaker :
  format_transcript_with_speakers
    [seg (PyInt 0) "A" "hello"; seg (PyInt 1) "A" "world"; seg (PyInt 3) "B" "hi"]
  = Ret (py "[00:00:00] A: hello world" ++ [nl; nl] ++ py "[00:00:03] B: hi")
  /\
  format_transcript_with_speakers
    [seg (PyFloat (of_Z 0)) "A" "hello"; seg (PyFloat (of_Z 1)) "A" "world";
     seg (PyFloat (of_Z 3)) "B" "hi"]
  = Ret (py "[00:00:00] A: hello world" ++ [nl; nl] ++ py "[00:00:03] B: hi").
Proof. split; vm_compute; reflexivity. Qed.

(** C2, as the code has it: for (0,"A",""), (1,"A","ok") the empty-text
    segment is skipped entirely, so the single block carries the start of
    the first segment with text: "[00:00:01] A: ok". *)
Theorem C2_empty_segment_skipped :
  format_transcript_with_speakers
    [seg (PyInt 0) "A" ""; seg (PyInt 1) "A" "ok"]
  = Ret (py "[00:00:01] A: ok")
  /\
  format_transcript_with_speakers
    [seg (PyFloat (of_Z 0)) "A" ""; seg (PyFloat (of_Z 1)) "A" "ok"]
  = Ret (py "[00:00:01] A: ok").
Proof. split; vm_compute; reflexivity. Qed.

(** C2 as stated fails: the result is not the block "[00:00:00] A: ok". *)
Lemma C2_not_timestamp_of_empty_segment :
  format_transcript_with_speakers
    [seg (PyInt 0) "A" ""; seg (PyInt 1) "A" "ok"]
  <> Ret (py "[00:00:00] A: ok").
Proof. vm_compute. discriminate. Qed.

(** C4: on the empty segment sequence both formatters return the same
    fixed sentinel, "No transcription results.": a value, not an
    exception, and not the empty string. *)
Theorem C4_empty_input_sentinel :
  format_transcript_with_speakers [] = Ret no_results
  /\ format_transcript_simple [] = Ret no_results
  /\ no_results = py "No transcription results."
  /\ no_results <> [].
Proof. repeat split. discriminate. Qed.

(** ** The loop of [format_transcript_with_speakers] *)

Lemma loop_body_blank (st : loop_state) (s : Segment) :
  nonblank s = false -> loop_body st s = Ret st.
Proof.
  unfold nonblank, text_of, loop_body. intros H.
  apply negb_false_iff in H. now rewrite H.
Qed.

Lemma simple_body_blank (ls : list str) (s : Segment) :
  nonblank s = false -> simple_body ls s = Ret ls.
Proof.
  unfold nonblank, text_of, simple_body. intros H. now rewrite H.
Qed.

Lemma blank_text_nonblank (s : Segment) :
  blank (get (seg_text s) []) -> nonblank s = false.
Proof.
  intros H. unfold nonblank, text_of. now rewrite (strip_blank _ H).
Qed.

Lemma run_loop_all_blank (st : loop_state) (segs : list Segment) :
  Forall (fun s => nonblank s = false) segs -> run_loop st segs = Ret st.
Proof.
  induction 1 as [|s segs Hs _ IH]; simpl; [reflexivity|].
  now rewrite (loop_body_blank st s Hs).
Qed.

Lemma simple_loop_all_blank (ls : list str) (segs : list Segment) :
  Forall (fun s => nonblank s = false) segs -> simple_loop ls segs = Ret ls.
Proof.
  induction 1 as [|s segs Hs _ IH]; simpl; [reflexivity|].
  now rewrite (simple_body_blank ls s Hs).
Qed.

(** C10: when the sequence is non-empty and every segment's text is empty
    or whitespace-only (an absent text counts as empty), both formatters
    return the empty string, not the sentinel of the empty input. *)
Theorem C10_all_blank_gives_empty_string (segs : list Segment) :
  segs <> [] ->
  Forall (fun s => blank (get (seg_text s) [])) segs ->
  format_transcript_with_speakers segs = Ret []
  /\ format_transcript_simple segs = Ret []
  /\ Ret (A := str) [] <> Ret no_results.
Proof.
  intros Hne Hall.
  assert (Hnb : Forall (fun s => nonblank s = false) segs).
  { eapply Forall_impl; [|exact Hall]. intros s. apply blank_text_nonblank. }
  destruct segs as [|s0 segs]; [congruence|].
  unfold format_transcript_with_speakers, format_transcript_simple,
    speaker_lines, simple_lines.
  rewrite (run_loop_all_blank _ _ Hnb), (simple_loop_all_blank _ _ Hnb).
  repeat split. discriminate.
Qed.

Lemma C10_all_blank_witness :
  let segs := [seg (PyInt 0) "A" "  ";
               {| seg_start := None; seg_speaker := None; seg_text := None |};
               {| seg_start := Some (PyFloat (lit 25 10));
                  seg_speaker := Some (py "B");
                  seg_text := Some [9%N; 160%N; 12288%N; nl] |}] in
  format_transcript_with_speakers segs = Ret []
  /\ format_transcript_simple segs = Ret []
  /\ Ret (A := str) [] <> Ret no_results.
Proof.
  apply C10_all_blank_gives_empty_string.
  - discriminate.
  - repeat constructor.
Defined.

(** *** The open block always has text *)

Lemma block_has_text_initial : block_has_text initial_state.
Proof. intros H. now elim H. Qed.

Lemma loop_body_keeps_invariant (st st' : loop_state) (s : Segment) :
  block_has_text st -> loop_body st s = Ret st' -> block_has_text st'.
Proof.
  unfold loop_body. intros Hinv.
  destruct (is_empty _); [now intros [= <-]|].
  destruct (speaker_differs _ _).
  - destruct (flush st) as [ls|e]; simpl; [|discriminate].
    intros [= <-] _. simpl. split; discriminate.
  - intros [= <-] Hopen. simpl in *. split.
    + intros Habs. now apply app_eq_nil in Habs as [_ Habs].
    + now apply Hinv.
Qed.

Lemma run_loop_keeps_invariant (segs : list Segment) :
  forall st st', block_has_text st -> run_loop st segs = Ret st' ->
                 block_has_text st'.
Proof.
  induction segs as [|s segs IH]; simpl; intros st st' Hinv.
  - now intros [= <-].
  - destruct (loop_body st s) as [st1|e] eqn:Hbody; simpl; [|discriminate].
    apply IH. eapply loop_body_keeps_invariant; eauto.
Qed.

(** C9: at every point of the loop (that is, after any prefix of the
    segments), an open block has a non-empty fragment list; and at a
    segment with non-empty trimmed text whose speaker differs from the
    open block's, the iteration appends exactly one line, the open
    block's, before the new block starts (or propagates the exception of
    formatting that block's start time). *)
Theorem C9_open_block_has_text (prefix : list Segment) (st : loop_state) :
  run_loop initial_state prefix = Ret st ->
  (current_speaker st <> None -> current_text_parts st <> [])
  /\ forall (segment : Segment) (c : str),
       current_speaker st = Some c ->
       nonblank segment = true ->
       speaker_of segment <> c ->
       exists t0 : pynum,
         segment_start_time st = Some t0 /\
         loop_body st segment =
           (timestamp <- format_timestamp t0 ;;
            Ret {| lines := lines st ++
                     [speaker_line timestamp c
                        (join (py " ") (current_text_parts st))];
                   current_speaker := Some (speaker_of segment);
                   current_text_parts := [text_of segment];
                   segment_start_time := Some (start_of segment) |}).
Proof.
  intros Hrun.
  pose proof (run_loop_keeps_invariant prefix _ _ block_has_text_initial Hrun)
    as Hinv.
  split; [intros H; now apply Hinv|].
  intros segment c Hc Hnb Hdiff.
  destruct Hinv as [Hparts Hstart]; [congruence|].
  destruct (segment_start_time st) as [t0|] eqn:Ht0; [|congruence].
  exists t0. split; [reflexivity|].
  unfold loop_body, flush. fold (text_of segment) (speaker_of segment)
    (start_of segment).
  unfold nonblank in Hnb. apply negb_true_iff in Hnb. rewrite Hnb, Hc. simpl.
  destruct (PyStr.eqb (speaker_of segment) c) eqn:E.
  { apply eqb_eq in E. contradiction. }
  simpl. destruct (current_text_parts st) as [|p ps]; [congruence|].
  rewrite Ht0. simpl. destruct (format_timestamp t0); reflexivity.
Qed.

Lemma C9_open_block_witness :
  let st := {| lines := [];
               current_speaker := Some (py "A");
               current_text_parts := [py "hello"; py "world"];
               segment_start_time := Some (PyInt 0) |} in
  current_text_parts st <> []
  /\ loop_body st (seg (PyInt 3) "B" "hi")
     = Ret {| lines := [py "[00:00:00] A: hello world"];
              current_speaker := Some (py "B");
              current_text_parts := [py "hi"];
              segment_start_time := Some (PyInt 3) |}.
Proof.
  intros st.
  destruct (C9_open_block_has_text
              [seg (PyInt 0) "A" "hello"; seg (PyInt 1) "A" "world"] st
              eq_refl) as [Hparts Hflush].
  split.
  - apply Hparts. discriminate.
  - destruct (Hflush (seg (PyInt 3) "B" "hi") (py "A") eq_refl eq_refl)
      as [t0 [Ht0 Hbody]].
    + discriminate.
    + injection Ht0 as <-. exact Hbody.
Defined.

(** ** Trimmed text begins and ends with a non-space character *)

Lemma lstrip_head (s : str) :
  match lstrip s with
  | [] => True
  | c :: _ => isspace c = false
  end.
Proof.
  induction s as [|c s IH]; simpl; [exact I|].
  destruct (isspace c) eqn:E; [exact IH | exact E].
Qed.

Lemma lstrip_fixed (c : char) (s : str) :
  isspace c = false -> lstrip (c :: s) = c :: s.
Proof. intros H. simpl. now rewrite H. Qed.

Lemma lstrip_keeps_last (s : str) (c : char) :
  isspace c = false -> exists s', lstrip (s ++ [c]) = s' ++ [c].
Proof.
  intros Hc. induction s as [|x s IH]; simpl.
  - rewrite Hc. now exists [].
  - destruct (isspace x); [exact IH|]. now exists (x :: s).
Qed.

Lemma rstrip_fixed (s : str) (c : char) :
  isspace c = false -> rstrip (s ++ [c]) = s ++ [c].
Proof.
  intros Hc. unfold rstrip. rewrite rev_app_distr. simpl.
  rewrite Hc. simpl. now rewrite rev_involutive.
Qed.

Lemma strip_trimmed (s : str) : strip s <> [] -> trimmed (strip s).
Proof.
  unfold strip, rstrip. intros Hne.
  pose proof (lstrip_head s) as Hhead.
  destruct (lstrip s) as [|a r]; [now elim Hne|].
  pose proof (lstrip_head (rev (a :: r))) as Hlast.
  simpl rev in *.
  destruct (lstrip_keeps_last (rev r) a Hhead) as [s' Hs'].
  split.
  - rewrite Hs', rev_app_distr. simpl. now exists a, (rev s').
  - destruct (lstrip (rev r ++ [a])) as [|b q].
    + now destruct s'.
    + simpl. now exists (rev q), b.
Qed.

Lemma strip_fixed (t : str) : trimmed t -> strip t = t.
Proof.
  intros [[a [r [Ha Hsp]]] [r' [b [Hb Hsp']]]]. unfold strip.
  rewrite Ha at 1. rewrite (lstrip_fixed a r Hsp), <- Ha, Hb.
  now apply rstrip_fixed.
Qed.

Lemma trimmed_nonempty (t : str) : trimmed t -> t <> [].
Proof. intros [[a [r [-> _]]] _]. discriminate. Qed.

Lemma join_trimmed (sep : str) (parts : list str) :
  parts <> [] -> Forall trimmed parts -> trimmed (join sep parts).
Proof.
  induction parts as [|p parts IH]; [congruence|]. intros _ Hall.
  inversion Hall as [|? ? Hp Hrest]; subst.
  destruct parts as [|q parts]; [exact Hp|].
  specialize (IH ltac:(discriminate) Hrest).
  change (join sep (p :: q :: parts)) with (p ++ sep ++ join sep (q :: parts)).
  destruct Hp as [[a [r [-> Ha]]] _].
  destruct IH as [_ [r' [b [-> Hb]]]].
  split.
  - simpl. eexists _, _. split; [reflexivity | exact Ha].
  - exists ((a :: r) ++ sep ++ r'), b. split; [|exact Hb].
    now rewrite <- !app_assoc.
Qed.

Lemma text_of_trimmed (s : Segment) : nonblank s = true -> trimmed (text_of s).
Proof.
  unfold nonblank, text_of. intros H. apply strip_trimmed.
  destruct (strip _); [discriminate | discriminate].
Qed.

(** ** Grouping into SpeakerBlocks *)

Lemma group_head (x : Segment) (rest : list Segment) :
  exists g gs, group_by_speaker (x :: rest) = (x :: g) :: gs.
Proof.
  simpl. destruct (group_by_speaker rest) as [|[|first g] gs].
  - now exists [], [].
  - now exists [], ([] :: gs).
  - destruct (PyStr.eqb _ _); eexists _, _; reflexivity.
Qed.

Lemma group_one_speaker (sp : str) (g : list Segment) :
  g <> [] -> one_speaker sp g -> group_by_speaker g = [g].
Proof.
  induction g as [|a g IH]; [congruence|]. intros _ Hall.
  inversion Hall as [|? ? Ha Hrest]; subst.
  destruct g as [|b g]; [reflexivity|].
  change (group_by_speaker (a :: b :: g)) with
    (match group_by_speaker (b :: g) with
     | (first :: g') :: gs =>
         if PyStr.eqb (speaker_of a) (speaker_of first)
         then (a :: first :: g') :: gs
         else [a] :: (first :: g') :: gs
     | gs => [a] :: gs
     end).
  rewrite (IH ltac:(discriminate) Hrest).
  inversion Hrest; subst.
  replace (speaker_of b) with (speaker_of a) by congruence.
  now rewrite eqb_refl.
Qed.

Lemma group_app_other_speaker (g : list Segment) (x : Segment)
    (rest : list Segment) :
  g <> [] -> one_speaker (speaker_of (hd x g)) g ->
  speaker_of x <> speaker_of (hd x g) ->
  group_by_speaker (g ++ x :: rest) = g :: group_by_speaker (x :: rest).
Proof.
  induction g as [|a g IH]; [congruence|]. intros _ Hall Hdiff.
  simpl hd in *. inversion Hall as [|? ? _ Hrest]; subst.
  destruct (group_head x rest) as [g' [gs Hx]].
  destruct g as [|b g].
  - simpl app.
    change (group_by_speaker (a :: x :: rest)) with
      (match group_by_speaker (x :: rest) with
       | (first :: g') :: gs =>
           if PyStr.eqb (speaker_of a) (speaker_of first)
           then (a :: first :: g') :: gs
           else [a] :: (first :: g') :: gs
       | gs => [a] :: gs
       end).
    rewrite Hx. destruct (PyStr.eqb _ _) eqn:E; [|reflexivity].
    apply eqb_eq in E. congruence.
  - inversion Hrest as [|? ? Hb Hrest']; subst.
    assert (IH' : group_by_speaker ((b :: g) ++ x :: rest)
                  = (b :: g) :: group_by_speaker (x :: rest)).
    { apply IH; simpl; [discriminate | | congruence].
      rewrite Hb. exact Hrest. }
    change (group_by_speaker ((a :: b :: g) ++ x :: rest)) with
      (match group_by_speaker ((b :: g) ++ x :: rest) with
       | (first :: g') :: gs =>
           if PyStr.eqb (speaker_of a) (speaker_of first)
           then (a :: first :: g') :: gs
           else [a] :: (first :: g') :: gs
       | gs => [a] :: gs
       end).
    rewrite IH', Hb. now rewrite eqb_refl.
Qed.

(** The blocks, concatenated, are the segments in their order. *)
Lemma group_concat (segs : list Segment) :
  List.concat (group_by_speaker segs) = segs.
Proof.
  induction segs as [|s segs IH]; [reflexivity|]. simpl.
  destruct (group_by_speaker segs) as [|[|first g] gs]; simpl in *.
  - now rewrite <- IH.
  - now rewrite <- IH.
  - destruct (PyStr.eqb _ _); simpl; now rewrite <- IH.
Qed.

(** Every block is non-empty and has one speaker. *)
Lemma group_blocks (segs : list Segment) :
  Forall (fun g => g <> [] /\ exists first, hd_error g = Some first /\
                     one_speaker (speaker_of first) g)
         (group_by_speaker segs).
Proof.
  induction segs as [|s segs IH]; [constructor|]. simpl.
  destruct (group_by_speaker segs) as [|[|first g] gs].
  - constructor; [|constructor]. split; [discriminate|].
    exists s. split; [reflexivity|]. now constructor.
  - constructor; [|exact IH]. split; [discriminate|].
    exists s. split; [reflexivity|]. now constructor.
  - inversion IH as [|? ? [_ [f [Hf Hone]]] Hgs]; subst.
    injection Hf as <-.
    destruct (PyStr.eqb _ _) eqn:E.
    + apply eqb_eq in E. constructor; [|exact Hgs].
      split; [discriminate|]. exists s. split; [reflexivity|].
      constructor; [reflexivity|]. now rewrite E.
    + constructor; [|exact IH]. split; [discriminate|].
      exists s. split; [reflexivity|]. now constructor.
Qed.

(** ** The loops compute the blocks in order *)

Lemma loop_body_same_speaker (ls : list str) (first x : Segment)
    (g : list Segment) :
  nonblank x = true -> speaker_of x = speaker_of first ->
  loop_body (open_block ls first g) x = Ret (open_block ls first (g ++ [x])).
Proof.
  intros Hnb Hsp. unfold loop_body.
  fold (text_of x) (speaker_of x) (start_of x).
  unfold nonblank in Hnb. apply negb_true_iff in Hnb. rewrite Hnb.
  simpl. rewrite Hsp, eqb_refl. simpl.
  unfold open_block. simpl. now rewrite map_app.
Qed.

Lemma loop_body_other_speaker (ls : list str) (first x : Segment)
    (g : list Segment) :
  nonblank x = true -> speaker_of x <> speaker_of first ->
  loop_body (open_block ls first g) x =
    (b <- render_block (first :: g) ;; Ret (open_block (ls ++ [b]) x [])).
Proof.
  intros Hnb Hsp. unfold loop_body.
  fold (text_of x) (speaker_of x) (start_of x).
  unfold nonblank in Hnb. apply negb_true_iff in Hnb. rewrite Hnb.
  simpl. destruct (PyStr.eqb (speaker_of x) (speaker_of first)) eqn:E.
  { apply eqb_eq in E. contradiction. }
  simpl. unfold flush. simpl.
  destruct (format_timestamp (start_of first)); reflexivity.
Qed.

Lemma mapM_cons {A B : Type} (f : A -> res B) (a : A) (l : list A) :
  mapM f (a :: l) = (b <- f a ;; bs <- mapM f l ;; Ret (b :: bs)).
Proof. reflexivity. Qed.

Lemma run_open_block (segs : list Segment) :
  Forall (fun s => nonblank s = true) segs ->
  forall (ls : list str) (first : Segment) (g : list Segment),
    one_speaker (speaker_of first) (first :: g) ->
    (st <- run_loop (open_block ls first g) segs ;; flush st)
    = (bs <- mapM render_block (group_by_speaker ((first :: g) ++ segs)) ;;
       Ret (ls ++ bs)).
Proof.
  induction 1 as [|x segs Hx _ IH]; intros ls first g Hone.
  - rewrite app_nil_r.
    rewrite (group_one_speaker _ (first :: g) ltac:(discriminate) Hone).
    simpl. unfold flush. simpl.
    destruct (format_timestamp (start_of first)); reflexivity.
  - simpl run_loop.
    destruct (PyStr.eqb (speaker_of x) (speaker_of first)) eqn:E.
    + apply eqb_eq in E.
      rewrite (loop_body_same_speaker ls first x g Hx E). simpl bind.
      rewrite IH.
      * replace ((first :: g ++ [x]) ++ segs) with ((first :: g) ++ x :: segs)
          by (simpl; now rewrite <- app_assoc).
        reflexivity.
      * unfold one_speaker. rewrite app_comm_cons. apply Forall_app.
        split; [exact Hone | now constructor].
    + assert (Hdiff : speaker_of x <> speaker_of first).
      { intros Heq. rewrite Heq, eqb_refl in E. discriminate. }
      rewrite (loop_body_other_speaker ls first x g Hx Hdiff).
      rewrite (group_app_other_speaker (first :: g) x segs
                 ltac:(discriminate) Hone Hdiff).
      rewrite mapM_cons.
      destruct (render_block (first :: g)) as [b|e]; [|reflexivity].
      unfold bind at 2 3. unfold bind at 3.
      rewrite (IH (ls ++ [b]) x []); [|now constructor].
      change ([x] ++ segs) with (x :: segs).
      destruct (mapM render_block (group_by_speaker (x :: segs)));
        unfold bind; [|reflexivity].
      now rewrite <- app_assoc.
Qed.

Lemma run_loop_skips_blank (segs : list Segment) (st : loop_state) :
  run_loop st segs = run_loop st (filter nonblank segs).
Proof.
  revert st. induction segs as [|s segs IH]; intros st; [reflexivity|].
  simpl. destruct (nonblank s) eqn:E.
  - simpl. destruct (loop_body st s); simpl; [apply IH | reflexivity].
  - rewrite (loop_body_blank st s E). simpl. apply IH.
Qed.

Lemma filter_nonblank_all (segs : list Segment) :
  Forall (fun s => nonblank s = true) (filter nonblank segs).
Proof. apply Forall_forall. intros s Hs. now apply filter_In in Hs. Qed.

Lemma speaker_lines_blocks (segs : list Segment) :
  speaker_lines segs
  = mapM render_block (group_by_speaker (filter nonblank segs)).
Proof.
  unfold speaker_lines. rewrite run_loop_skips_blank.
  pose proof (filter_nonblank_all segs) as Hall.
  destruct (filter nonblank segs) as [|x rest]; [reflexivity|].
  inversion Hall as [|? ? Hx Hrest]; subst.
  simpl run_loop.
  assert (Hfirst : loop_body initial_state x = Ret (open_block [] x [])).
  { unfold loop_body. fold (text_of x) (speaker_of x) (start_of x).
    unfold nonblank in Hx. apply negb_true_iff in Hx. now rewrite Hx. }
  rewrite Hfirst. simpl bind.
  rewrite (run_open_block rest Hrest [] x []); [|now constructor].
  simpl app. destruct (mapM _ _); reflexivity.
Qed.

Lemma simple_loop_lines (segs : list Segment) (ls : list str) :
  simple_loop ls segs
  = (bs <- mapM render_simple (filter nonblank segs) ;; Ret (ls ++ bs)).
Proof.
  revert ls. induction segs as [|s segs IH]; intros ls.
  - simpl. now rewrite app_nil_r.
  - simpl. destruct (nonblank s) eqn:E.
    + unfold simple_body. fold (text_of s) (start_of s).
      unfold nonblank in E. rewrite E. simpl. unfold render_simple.
      destruct (format_timestamp (start_of s)); simpl; [|reflexivity].
      rewrite IH. destruct (mapM _ _); simpl; [|reflexivity].
      now rewrite <- app_assoc.
    + rewrite (simple_body_blank ls s E). simpl. apply IH.
Qed.

(** C5: for every segment sequence, the lines of either formatter are the
    renderings, in order, of the segments with text: one line per
    SpeakerBlock (the blocks, concatenated, are exactly the segments with
    text in their input order, and each block has one speaker),
    respectively one line per segment with text; the returned string is
    these lines joined by blank lines; and the text of every block or
    segment that yields a line is non-empty after trimming.  An exception
    of a timestamp conversion is the exception of the first block or
    segment, in that order, that has one. *)
Theorem C5_lines_in_segment_order (segs : list Segment) :
  let with_text := filter nonblank segs in
  let blocks := group_by_speaker with_text in
  speaker_lines segs = mapM render_block blocks
  /\ List.concat blocks = with_text
  /\ Forall (fun g => g <> [] /\ strip (block_text g) <> []) blocks
  /\ Forall (fun g => exists first, hd_error g = Some first /\
                        one_speaker (speaker_of first) g) blocks
  /\ simple_lines segs = mapM render_simple with_text
  /\ Forall (fun s => strip (text_of s) <> []) with_text
  /\ format_transcript_with_speakers segs
     = match segs with
       | [] => Ret no_results
       | _ :: _ => ls <- mapM render_block blocks ;; Ret (join [nl; nl] ls)
       end
  /\ format_transcript_simple segs
     = match segs with
       | [] => Ret no_results
       | _ :: _ => ls <- mapM render_simple with_text ;; Ret (join [nl; nl] ls)
       end.
Proof.
  intros with_text blocks.
  assert (Hsimple : simple_lines segs = mapM render_simple with_text).
  { unfold simple_lines. rewrite simple_loop_lines.
    fold with_text. destruct (mapM _ _); reflexivity. }
  split; [apply speaker_lines_blocks|].
  split; [apply group_concat|].
  split; [|split; [|split; [exact Hsimple|split; [|split]]]].
  - pose proof (group_blocks with_text) as Hb.
    assert (Hin : forall g, In g blocks -> Forall (fun s => nonblank s = true) g).
    { intros g Hg. apply Forall_forall. intros s Hs.
      assert (Hs' : In s with_text).
      { unfold with_text. rewrite <- (group_concat (filter nonblank segs)).
        apply in_concat. now exists g. }
      now apply filter_In in Hs'. }
    apply Forall_forall. intros g Hg.
    pose proof (proj1 (Forall_forall _ _) Hb g Hg) as [Hne _].
    split; [exact Hne|].
    assert (Htr : trimmed (block_text g)).
    { apply join_trimmed.
      - destruct g; [congruence | discriminate].
      - apply Forall_map. eapply Forall_impl; [|apply (Hin g Hg)].
        intros s. apply text_of_trimmed. }
    rewrite (strip_fixed _ Htr). now apply trimmed_nonempty.
  - eapply Forall_impl; [|apply (group_blocks with_text)].
    intros g [_ H]. exact H.
  - eapply Forall_impl; [|apply filter_nonblank_all].
    intros s Hs. pose proof (text_of_trimmed s Hs) as Htr.
    rewrite (strip_fixed _ Htr). now apply trimmed_nonempty.
  - destruct segs as [|s0 segs']; [reflexivity|].
    unfold format_transcript_with_speakers.
    now rewrite speaker_lines_blocks.
  - destruct segs as [|s0 segs']; [reflexivity|].
    unfold format_transcript_simple. now rewrite Hsimple.
Qed.

(** ** Progress fractions of composed computations *)

Lemma fractions_app (a b : list event) :
  fractions (a ++ b) = fractions a ++ fractions b.
Proof.
  induction a as [|ev a IH]; [reflexivity|].
  destruct ev; simpl; now rewrite IH.
Qed.

Lemma in_seq_product (S1 S2 : list (list float)) (a b : list float) :
  In a S1 -> In b S2 -> In (a ++ b) (seq_product S1 S2).
Proof.
  intros Ha Hb. apply in_flat_map. exists a. split; [exact Ha|].
  now apply in_map.
Qed.

Section Emitted.

Context {A B : Type}.

Lemma emitted_ret (a : A) : emitted (io_ret a) [[]].
Proof. intros tr. exists []. simpl. rewrite app_nil_r. auto. Qed.

Lemma emitted_lift (r : res A) : emitted (lift r) [[]].
Proof. intros tr. exists []. simpl. rewrite app_nil_r. auto. Qed.

Lemma emitted_call (name : string) (r : res A) : emitted (call name r) [[]].
Proof. intros tr. exists [Call name]. simpl. auto. Qed.

Lemma emitted_setenv (name : string) (v : str) :
  emitted (emit (SetEnv name v)) [[]].
Proof. intros tr. exists [SetEnv name v]. simpl. auto. Qed.

Lemma emitted_progress (f : float) (desc : str) :
  emitted (progress f desc) [[f]].
Proof. intros tr. exists [Progress f desc]. simpl. auto. Qed.

Lemma emitted_attempt (c : io A) (handler : exn -> io B) (k : A -> io B)
    (S1 SH SK : list (list float)) :
  emitted c S1 ->
  (forall e, emitted (handler e) SH) ->
  (forall a, emitted (k a) SK) ->
  emitted (attempt c handler k) (seq_product S1 (SH ++ SK)).
Proof.
  intros Hc Hh Hk tr. unfold attempt.
  destruct (Hc tr) as [evs1 [Htr1 Hin1]].
  destruct (c tr) as [tr1 [a|e]]; simpl in Htr1; subst tr1.
  - destruct (Hk a (tr ++ evs1)) as [evs2 [Htr2 Hin2]].
    exists (evs1 ++ evs2). rewrite Htr2, app_assoc, fractions_app.
    split; [reflexivity|].
    apply in_seq_product; [exact Hin1 | apply in_or_app; now right].
  - destruct (Hh e (tr ++ evs1)) as [evs2 [Htr2 Hin2]].
    exists (evs1 ++ evs2). rewrite Htr2, app_assoc, fractions_app.
    split; [reflexivity|].
    apply in_seq_product; [exact Hin1 | apply in_or_app; now left].
Qed.

Lemma emitted_bind (c : io A) (k : A -> io B) (S1 S2 : list (list float)) :
  emitted c S1 ->
  (forall a, emitted (k a) S2) ->
  emitted (io_bind c k) (seq_product S1 ([] :: S2)).
Proof.
  intros Hc Hk tr. unfold io_bind.
  destruct (Hc tr) as [evs1 [Htr1 Hin1]].
  destruct (c tr) as [tr1 [a|e]]; simpl in Htr1; subst tr1.
  - destruct (Hk a (tr ++ evs1)) as [evs2 [Htr2 Hin2]].
    exists (evs1 ++ evs2). rewrite Htr2, app_assoc, fractions_app.
    split; [reflexivity|].
    apply in_seq_product; [exact Hin1 | now right].
  - exists evs1. split; [reflexivity|].
    rewrite <- (app_nil_r (fractions evs1)).
    apply in_seq_product; [exact Hin1 | now left].
Qed.

Lemma emitted_if (b : bool) (c1 c2 : io A) (S1 S2 : list (list float)) :
  emitted c1 S1 -> emitted c2 S2 ->
  emitted (if b then c1 else c2) (S1 ++ S2).
Proof.
  intros H1 H2 tr. destruct b.
  - destruct (H1 tr) as [evs [Htr Hin]]. exists evs.
    split; [exact Htr | apply in_or_app; now left].
  - destruct (H2 tr) as [evs [Htr Hin]]. exists evs.
    split; [exact Htr | apply in_or_app; now right].
Qed.

End Emitted.

Lemma sortedb_sound (fs : list float) :
  sortedb fs = true -> Sorted fraction_le fs.
Proof.
  induction fs as [|a fs IH]; [constructor|].
  destruct fs as [|b fs]; [repeat constructor|].
  intros H. change (fle a b && sortedb (b :: fs) = true) in H.
  apply andb_true_iff in H as [Hab Hrest].
  constructor; [now apply IH | now constructor].
Qed.

Lemma in_rangeb_sound (fs : list float) :
  forallb in_rangeb fs = true -> Forall fraction_in_range fs.
Proof.
  intros H. apply Forall_forall. intros f Hf.
  rewrite forallb_forall in H. specialize (H f Hf).
  now apply andb_true_iff in H.
Qed.

Lemma emitted_sound {A : Type} (c : io A) (S : list (list float)) :
  emitted c S ->
  forallb (fun fs => sortedb fs && forallb in_rangeb fs) S = true ->
  Sorted fraction_le (fractions (fst (run c)))
  /\ Forall fraction_in_range (fractions (fst (run c))).
Proof.
  intros Hc HS. destruct (Hc []) as [evs [Htr Hin]].
  unfold run. rewrite Htr. simpl.
  rewrite forallb_forall in HS. specialize (HS _ Hin).
  apply andb_true_iff in HS as [Hs Hr].
  split; [now apply sortedb_sound | now apply in_rangeb_sound].
Qed.

Ltac emitted_step :=
  lazymatch goal with
  | |- emitted (io_ret _) _ => apply emitted_ret
  | |- emitted (lift _) _ => apply emitted_lift
  | |- emitted (call _ _) _ => apply emitted_call
  | |- emitted (emit (SetEnv _ _)) _ => apply emitted_setenv
  | |- emitted (progress _ _) _ => apply emitted_progress
  | |- emitted (io_bind _ _) _ => eapply emitted_bind; [| intros ]
  | |- emitted (attempt _ _ _) _ => eapply emitted_attempt; [| intros | intros ]
  | |- emitted (if _ then _ else _) _ => eapply emitted_if
  | |- emitted (let '(_, _) := ?p in _) _ => destruct p
  end.

(** ** The pipeline *)

Section Pipeline.

Variable w : World.
Variables (model_size : str) (hf_token : option str).
Variables (min_speakers max_speakers : option Z) (num_threads : Z).

Let device : string := fst (get_device_and_compute_type w).
Let compute_type : string := snd (get_device_and_compute_type w).

Let invoke (audio_file : option str) : list event * res (str * option str) :=
  run (transcribe_audio w audio_file model_size hf_token
         min_speakers max_speakers num_threads).

(** C6: a missing audio input, a model-load failure and a transcription
    failure (loading the audio or transcribing it) each end the
    invocation at once with the message as the text and an absent file
    path; the log shows that no later stage ran. *)
Theorem C6_fatal_failures_report_no_file :
  (forall audio_file, truthy audio_file = false ->
     invoke audio_file = ([], Ret (py "Please upload an audio file.", None)))
  /\
  (forall path e, path <> [] ->
     set_num_threads w num_threads = Ret tt ->
     load_model w model_size device compute_type = Raise e ->
     invoke (Some path) =
       ([SetEnv "OMP_NUM_THREADS" (str_of_int num_threads);
         Call "torch.set_num_threads";
         Progress (lit 5 100) (py "Loading Whisper model...");
         Call "whisperx.load_model"],
        Ret (py "Error loading model: " ++ exn_message e, None)))
  /\
  (forall path model e, path <> [] ->
     set_num_threads w num_threads = Ret tt ->
     load_model w model_size device compute_type = Ret model ->
     (load_audio w path = Raise e
      \/ exists audio,
           load_audio w path = Ret audio /\
           transcribe w model audio (if is_cuda device then 16 else 4)
           = Raise e) ->
     snd (invoke (Some path))
     = Ret (py "Error during transcription: " ++ exn_message e, None)
     /\ fractions (fst (invoke (Some path))) = [lit 5 100; lit 15 100]).
Proof.
  subst invoke device compute_type.
  unfold run, transcribe_audio. split; [|split].
  - intros audio_file H. now rewrite H.
  - intros path e Hpath Hthreads Hload.
    destruct path as [|c path]; [congruence|]. simpl truthy. simpl negb.
    cbv iota. cbv beta delta [get io_bind emit call attempt progress].
    rewrite Hthreads.
    destruct (get_device_and_compute_type w) as [d c0]. simpl in *.
    now rewrite Hload.
  - intros path model e Hpath Hthreads Hload Hfail.
    destruct path as [|c path]; [congruence|]. simpl truthy. simpl negb.
    cbv iota. cbv beta delta [get io_bind emit call attempt progress].
    rewrite Hthreads.
    destruct (get_device_and_compute_type w) as [d c0]. simpl in *.
    rewrite Hload.
    destruct Hfail as [Ha | [audio [Ha Ht]]]; rewrite Ha;
      [split; reflexivity|].
    rewrite Ht. split; reflexivity.
Qed.

(** C8: on every execution path (early return, fatal failure, degraded
    alignment or diarization, an exception that escapes, or success)
    the progress fractions are emitted in non-decreasing order and lie
    in (0, 1].  On a degraded path the fraction of the failed stage is
    emitted a second time with the warning, so two consecutive
    fractions can be equal. *)
Theorem C8_progress_fractions_monotone (audio_file : option str) :
  Sorted fraction_le (fractions (fst (invoke audio_file)))
  /\ Forall fraction_in_range (fractions (fst (invoke audio_file))).
Proof.
  subst invoke. cbv beta.
  eapply emitted_sound.
  - unfold transcribe_audio, align_stage, diarize_stage, empty_cache_if_cuda.
    cbv zeta. repeat emitted_step.
  - vm_compute. reflexivity.
Qed.

End Pipeline.

(** The fractions of a run in which alignment and diarization both fail,
    and of a run in which every stage succeeds. *)
Lemma progress_on_degraded_path :
  fractions (fst (run (transcribe_audio
                         (example_world (Some (py "hf_x")) true true false false
                            [seg (PyInt 0) "A" "hello"])
                         (Some (py "talk.wav")) (py "medium") None None None 8)))
  = [lit 5 100; lit 15 100; lit 50 100; lit 50 100; lit 65 100; lit 65 100;
     lit 90 100; lit 95 100; lit 10 10].
Proof. vm_compute. reflexivity. Qed.

Lemma progress_on_success_path :
  fractions (fst (run (transcribe_audio
                         (example_world (Some (py "hf_x")) true true true true
                            [seg (PyInt 0) "A" "hello"])
                         (Some (py "talk.wav")) (py "medium") None None None 8)))
  = [lit 5 100; lit 15 100; lit 50 100; lit 65 100; lit 90 100; lit 95 100;
     lit 10 10].
Proof. vm_compute. reflexivity. Qed.

Lemma C6_fatal_failures_witness :
  run (transcribe_audio (example_world None false true true true [])
         (Some (py "talk.wav")) (py "medium") None None None 8)
  = ([SetEnv "OMP_NUM_THREADS" (py "8");
      Call "torch.set_num_threads";
      Progress (lit 5 100) (py "Loading Whisper model...");
      Call "whisperx.load_model"],
     Ret (py "Error loading model: model file missing", None))
  /\ snd (run (transcribe_audio (example_world None true false true true [])
                 (Some (py "talk.wav")) (py "medium") None None None 8))
     = Ret (py "Error during transcription: decoding failed", None)
  /\ run (transcribe_audio (example_world None true true true true [])
            (Some []) (py "medium") None None None 8)
     = ([], Ret (py "Please upload an audio file.", None)).
Proof.
  split; [|split].
  - apply (proj1 (proj2 (C6_fatal_failures_report_no_file
                           (example_world None false true true true [])
                           (py "medium") None None None 8))
             (py "talk.wav") (Exc "RuntimeError" (py "model file missing")));
      [discriminate | reflexivity | reflexivity].
  - apply (proj2 (proj2 (C6_fatal_failures_report_no_file
                           (example_world None true false true true [])
                           (py "medium") None None None 8))
             (py "talk.wav") 1%N (Exc "RuntimeError" (py "decoding failed")));
      [discriminate | reflexivity | reflexivity |].
    right. exists 2%N. split; reflexivity.
  - apply (proj1 (C6_fatal_failures_report_no_file
                    (example_world None true true true true [])
                    (py "medium") None None None 8)).
    reflexivity.
Defined.

(** ** Credential resolution *)

Lemma not_called (name : string) (tr : list event) :
  existsb (is_call name) tr = false -> ~ In (Call name) tr.
Proof.
  intros H Hin.
  assert (existsb (is_call name) tr = true); [|congruence].
  apply existsb_exists. exists (Call name). split; [exact Hin|].
  simpl. apply String.eqb_refl.
Qed.

Section Credentials.

Variable w : World.
Variables (model_size : str) (hf_token : option str).
Variables (min_speakers max_speakers : option Z) (num_threads : Z).

Let device : string := fst (get_device_and_compute_type w).
Let compute_type : string := snd (get_device_and_compute_type w).
Let batch_size : Z := if is_cuda device then 16 else 4.

Let invoke (audio_file : option str) : list event * res (str * option str) :=
  run (transcribe_audio w audio_file model_size hf_token
         min_speakers max_speakers num_threads).

(** C7: a UI token that is non-blank after trimming is the effective
    credential, trimmed, whatever the environment holds; an absent or
    blank UI token leaves the environment's token ([HF_TOKEN], else
    [HUGGINGFACE_TOKEN]); and when no token is available, no diarization
    is attempted and the invocation still returns the fallback
    transcript, prefixed with the notice, together with the path of the
    file it wrote. *)
Theorem C7_credential_resolution :
  (forall t env_token, strip t <> [] ->
     effective_token_of (Some t) env_token = Some (strip t))
  /\
  (forall env_token, effective_token_of None env_token = env_token)
  /\
  (forall t env_token, strip t = [] ->
     effective_token_of (Some t) env_token = env_token)
  /\
  get_hf_token_from_env w
  = (if truthy (getenv w "HF_TOKEN") then getenv w "HF_TOKEN"
     else getenv w "HUGGINGFACE_TOKEN")
  /\
  (forall path model audio result0 dir,
     path <> [] ->
     truthy (effective_token_of hf_token (get_hf_token_from_env w)) = false ->
     set_num_threads w num_threads = Ret tt ->
     load_model w model_size device compute_type = Ret model ->
     load_audio w path = Ret audio ->
     transcribe w model audio batch_size = Ret result0 ->
     cuda_empty_cache w = Ret tt ->
     mkdtemp w = Ret dir ->
     (forall p c, write_file w p c = Ret tt) ->
     exists result1,
       (result1 = result0
        \/ exists segs model_a,
             segments result0 = Some segs /\
             load_align_model w device = Ret model_a /\
             align w segs model_a audio device = Ret result1)
       /\ ~ In (Call "whisperx.DiarizationPipeline") (fst (invoke (Some path)))
       /\ forall t,
            format_transcript_simple (get (segments result1) []) = Ret t ->
            snd (invoke (Some path))
            = Ret (no_token_note ++ t,
                   Some (path_join w dir
                           (path_stem w path ++ py "_transcript.txt")))).
Proof.
  repeat split.
  - intros t env_token Ht. unfold effective_token_of, ui_token_given.
    destruct t as [|c t]; [now elim Ht|]. simpl is_empty at 1. simpl negb.
    destruct (strip (c :: t)); [now elim Ht | reflexivity].
  - intros t env_token Ht. unfold effective_token_of, ui_token_given.
    rewrite Ht. simpl. now rewrite andb_false_r.
  - intros path model audio result0 dir Hpath Htok Hthreads Hload Haudio
      Htrans Hcache Hdir Hwrite.
    subst invoke batch_size device compute_type.
    unfold run, transcribe_audio.
    destruct path as [|ch path]; [congruence|].
    change (truthy (Some (ch :: path))) with true.
    change (get (Some (ch :: path)) []) with (ch :: path).
    cbv beta iota zeta delta [negb].
    rewrite Htok.
    destruct (get_device_and_compute_type w) as [d c0]. cbn [fst snd] in *.
    unfold align_stage, empty_cache_if_cuda.
    cbv beta iota zeta delta
      [io_bind io_ret emit call attempt progress lift negb].
    rewrite Hthreads, Hload, Haudio, Htrans.
    destruct (load_align_model w d) as [ma|ea] eqn:Hma;
      [destruct (segments result0) as [segs|] eqn:Hsegs;
       [destruct (align w segs ma audio d) as [r1|ealign] eqn:Halign|]|].
    all: match goal with
         | |- context [format_transcript_simple (get (segments ?r) [])] =>
             exists r
         end.
    all: split; [first [now left | right; now exists segs, ma]|].
    all: destruct (is_cuda d); try rewrite Hcache.
    all: split;
      [|intros t Ht; rewrite Ht; cbv beta iota delta [bind];
        rewrite Hdir, Hwrite; reflexivity].
    all: destruct (format_transcript_simple _);
      cbv beta iota delta [bind]; try rewrite Hdir; try rewrite Hwrite;
      cbn [fst]; apply not_called; vm_compute; reflexivity.
Qed.

End Credentials.

Lemma C7_credential_resolution_witness :
  effective_token_of (Some (py "  hf_ui ")) (Some (py "hf_env"))
  = Some (py "hf_ui")
  /\ effective_token_of (Some (py "   ")) (Some (py "hf_env"))
     = Some (py "hf_env")
  /\ let inv :=
       run (transcribe_audio
              (example_world None true true true true [seg (PyInt 0) "A" "hello"])
              (Some (py "talk.wav")) (py "medium") (Some (py "   "))
              None None 8) in
     ~ In (Call "whisperx.DiarizationPipeline") (fst inv)
     /\ snd inv = Ret (no_token_note ++ py "[00:00:00] hello",
                       Some (py "/tmp/tmpdir/talk_transcript.txt")).
Proof.
  pose (w := example_world None true true true true [seg (PyInt 0) "A" "hello"]).
  pose proof (C7_credential_resolution w (py "medium") (Some (py "   "))
                None None 8) as [Hui [_ [Hblank [_ Hrun]]]].
  split; [|split].
  - apply (Hui (py "  hf_ui ")). discriminate.
  - apply (Hblank (py "   ")). reflexivity.
  - destruct (Hrun (py "talk.wav") 1%N 2%N
                (mkResult (Some [seg (PyInt 0) "A" "hello"])) (py "/tmp/tmpdir"))
      as [r1 [Hr1 [Hno Hfmt]]];
      try reflexivity; try discriminate.
    split; [exact Hno|].
    apply Hfmt.
    destruct Hr1 as [-> | [segs [ma [Hs [_ Ha]]]]]; [reflexivity|].
    injection Hs as <-. injection Ha as <-. reflexivity.
Defined.

(* ===================================================================== *)
(** * Further properties of the code *)
(* ===================================================================== *)

(** ** Timestamps of whole seconds *)

Lemma int_fields (n : Z) :
  0 <= n mod 3600 / 60 < 60
  /\ 0 <= n mod 60 < 60
  /\ 3600 * (n / 3600) + 60 * (n mod 3600 / 60) + n mod 60 = n.
Proof.
  pose proof (Z.div_mod n 3600 ltac:(lia)) as H1.
  pose proof (Z.mod_pos_bound n 3600 ltac:(lia)) as B1.
  pose proof (Z.div_mod (n mod 3600) 60 ltac:(lia)) as H2.
  pose proof (Z.mod_pos_bound (n mod 3600) 60 ltac:(lia)) as B2.
  pose proof (Z.div_mod n 60 ltac:(lia)) as H3.
  pose proof (Z.mod_pos_bound n 60 ltac:(lia)) as B3.
  lia.
Qed.

(** X1: on an [int] number of seconds, of either sign, [format_timestamp]
    never raises; its minutes and seconds fields lie in 0..59 and the
    three fields recombine to the input, hours*3600 + minutes*60 + seconds
    (so a negative input gives negative hours: -1 is "-1:59:59"). *)
Theorem X1_int_timestamp_recombines (n : Z) :
  exists hours minutes secs : Z,
    format_timestamp (PyInt n)
    = Ret (format_02d hours ++ py ":" ++ format_02d minutes ++ py ":"
           ++ format_02d secs)
    /\ 0 <= minutes < 60 /\ 0 <= secs < 60
    /\ 3600 * hours + 60 * minutes + secs = n.
Proof.
  exists (n / 3600), (n mod 3600 / 60), (n mod 60).
  split; [reflexivity | apply int_fields].
Qed.

(** *** Decimal digits *)

Lemma str_of_uint_inj (u v : Decimal.uint) :
  str_of_uint u = str_of_uint v -> u = v.
Proof.
  revert v. induction u; intros v; destruct v; simpl; intros H;
    try discriminate; try reflexivity; injection H as H; f_equal; auto.
Qed.

Lemma str_of_uint_digits (u : Decimal.uint) :
  Forall (fun c => (48 <= c <= 57)%N) (str_of_uint u).
Proof. induction u; simpl; constructor; auto; lia. Qed.

Lemma digits_of_inj (a b : Z) : digits_of a = digits_of b -> Z.abs a = Z.abs b.
Proof.
  unfold digits_of. intros H. apply str_of_uint_inj in H.
  apply (f_equal N.of_uint) in H. rewrite !DecimalN.Unsigned.of_to in H. lia.
Qed.

Lemma digits_of_nonempty (z : Z) : exists c r, digits_of z = c :: r /\ (48 <= c <= 57)%N.
Proof.
  unfold digits_of. pose proof (str_of_uint_digits (N.to_uint (Z.abs_N z))) as Hd.
  destruct (N.to_uint (Z.abs_N z)) eqn:E; simpl in *;
    try (inversion Hd; subst; eexists _, _; split; [reflexivity | assumption]).
  exfalso. destruct (Z.abs_N z); simpl in E; [discriminate|].
  now apply DecimalPos.Unsigned.to_uint_nonnil in E.
Qed.

Lemma format_02d_cases (z : Z) :
  (z < 0 /\ format_02d z = 45%N :: digits_of z)
  \/ (0 <= z < 10 /\ format_02d z = [48%N; (48 + Z.to_N z)%N])
  \/ (10 <= z /\ format_02d z = digits_of z
      /\ (2 <= List.length (digits_of z))%nat).
Proof.
  destruct (Z_lt_le_dec z 0) as [Hneg|Hpos].
  - left. split; [exact Hneg|]. unfold format_02d.
    replace (z <? 0) with true by (symmetry; apply Z.ltb_lt; lia).
    destruct (digits_of_nonempty z) as [c [r [-> _]]]. reflexivity.
  - right. rewrite (format_02d_padded z Hpos). unfold zero_padded2.
    destruct (z <? 10) eqn:E.
    + left. apply Z.ltb_lt in E. split; [lia | reflexivity].
    + right. apply Z.ltb_ge in E. split; [exact E|].
      split; [reflexivity | now apply digits_long].
Qed.

Lemma leading_zero_small (u : Decimal.uint) (c : char) :
  str_of_uint u = [48%N; c] -> (N.of_uint u < 10)%N.
Proof.
  destruct u as [|u|u|u|u|u|u|u|u|u|u]; simpl; try discriminate.
  intros H. injection H as H.
  destruct u as [|u|u|u|u|u|u|u|u|u|u]; simpl in H; try discriminate;
    injection H as _ H; destruct u; try discriminate; reflexivity.
Qed.

Lemma format_02d_inj (a b : Z) : format_02d a = format_02d b -> a = b.
Proof.
  assert (Hmixed : forall x y : Z, 0 <= x < 10 -> 10 <= y ->
            [48%N; (48 + Z.to_N x)%N] = digits_of y -> False).
  { intros x y _ Hy H. symmetry in H. unfold digits_of in H.
    apply leading_zero_small in H.
    rewrite DecimalN.Unsigned.of_to in H. lia. }
  destruct (format_02d_cases a) as [[Ha ->] | [[Ha ->] | [Ha [-> La]]]];
    destruct (format_02d_cases b) as [[Hb ->] | [[Hb ->] | [Hb [-> Lb]]]];
    intros H.
  - injection H as H. apply digits_of_inj in H. lia.
  - discriminate H.
  - destruct (digits_of_nonempty b) as [c [r [E Hc]]]. rewrite E in H.
    injection H as H _. lia.
  - discriminate H.
  - assert (Hd : (48 + Z.to_N a)%N = (48 + Z.to_N b)%N) by congruence.
    apply N.add_cancel_l in Hd. apply Z2N.inj in Hd; lia.
  - exfalso. exact (Hmixed a b Ha Hb H).
  - destruct (digits_of_nonempty a) as [c [r [E Hc]]]. rewrite E in H.
    injection H as H _. lia.
  - exfalso. symmetry in H. exact (Hmixed b a Hb Ha H).
  - apply digits_of_inj in H. lia.
Qed.

Lemma format_02d_two (z : Z) : 0 <= z < 60 -> List.length (format_02d z) = 2%nat.
Proof.
  intros H. rewrite <- (Z2Nat.id z) by lia.
  assert (Hk : (Z.to_nat z < 60)%nat) by lia.
  revert Hk. generalize (Z.to_nat z). intros k Hk.
  do 60 (destruct k as [|k]; [reflexivity|]). lia.
Qed.

Lemma app_inj_length {A : Type} (x x' y y' : list A) :
  x ++ y = x' ++ y' -> List.length y = List.length y' -> x = x' /\ y = y'.
Proof.
  intros H Hlen.
  assert (Hx : List.length x = List.length x').
  { apply (f_equal (@List.length A)) in H. rewrite !length_app in H. lia. }
  revert x' H Hx. induction x as [|a x IH]; intros [|a' x'] H Hx;
    simpl in *; try discriminate.
  - now split.
  - injection H as -> H. destruct (IH x' H) as [-> ->]; [lia|]. now split.
Qed.

(** X2: distinct whole numbers of seconds never share a timestamp:
    [format_timestamp] is injective on [int]s, of either sign. *)
Theorem X2_int_timestamp_injective (a b : Z) :
  format_timestamp (PyInt a) = format_timestamp (PyInt b) -> a = b.
Proof.
  intros H.
  pose proof (int_fields a) as [Hma [Hsa Ha]].
  pose proof (int_fields b) as [Hmb [Hsb Hb]].
  change (Ret (format_02d (a / 3600) ++ [58%N] ++ format_02d (a mod 3600 / 60)
               ++ [58%N] ++ format_02d (a mod 60))
          = Ret (format_02d (b / 3600) ++ [58%N] ++ format_02d (b mod 3600 / 60)
                 ++ [58%N] ++ format_02d (b mod 60))) in H.
  injection H as H.
  apply app_inj_length in H as [Hh H];
    [|simpl; rewrite !length_app; simpl; rewrite !format_02d_two by lia;
      reflexivity].
  injection H as H.
  apply app_inj_length in H as [Hm H];
    [|simpl; rewrite !format_02d_two by lia; reflexivity].
  injection H as H.
  apply format_02d_inj in Hh, Hm, H. lia.
Qed.

Lemma X2_int_timestamp_injective_witness :
  format_timestamp (PyInt 3661) = format_timestamp (PyInt (3600 + 61))
  /\ 3661 = 3600 + 61.
Proof.
  split; [reflexivity|].
  apply (X2_int_timestamp_injective 3661 (3600 + 61)). reflexivity.
Defined.

(** ** Timestamps of floats *)

Lemma format_timestamp_float (s : float) :
  is_finite_nonneg s = true -> (value s < 2 ^ 62)%Q ->
  format_timestamp (PyFloat s) = Ret (spec_timestamp (value s)).
Proof.
  intros Hfin Hlt.
  destruct s as [b|b| |[|] m e]; try discriminate Hfin.
  - destruct b; vm_compute; reflexivity.
  - simpl in Hfin.
    pose proof (bounded_exponent m e Hfin) as He.
    destruct (valid_canon m e Hfin) as [Hcanon Hrep].
    pose proof (value_bound_scaled m e He Hlt) as Hbound.
    pose proof (spec_fields_scaled _ _ (value_scaled m e He))
      as [Hh [Hm Hs]].
    rewrite Hcanon at 1.
    rewrite (format_timestamp_scaled _ Hrep Hbound).
    unfold spec_timestamp. now rewrite Hh, Hm, Hs.
Qed.

Lemma value_nonneg (s : float) : is_finite_nonneg s = true -> (0 <= value s)%Q.
Proof.
  destruct s as [b|b| |[|] m e]; try discriminate. intros _.
  unfold value. cbv beta iota delta [cond_Zopp].
  apply Qmult_le_0_compat; [discriminate|].
  apply Qpower_0_le. discriminate.
Qed.

(** The fields of [v] are those of its integer part. *)
Lemma spec_timestamp_floor (v : Q) :
  spec_timestamp (inject_Z (Qfloor v)) = spec_timestamp v.
Proof.
  destruct v as [V p].
  destruct (spec_fields_frac (V # p) V p (Qeq_refl _)) as [Hh [Hm Hs]].
  destruct (spec_fields_frac (inject_Z (Qfloor (V # p))) (V / Zpos p) 1
              (Qeq_refl _)) as [Hh' [Hm' Hs']].
  unfold spec_timestamp. rewrite Hh, Hm, Hs, Hh', Hm', Hs'.
  change (3600 * 1) with 3600. change (60 * 1) with 60. rewrite Z.div_1_r.
  assert (HD : 0 < Zpos p) by lia.
  pose proof (Z.mod_pos_bound V (Zpos p) HD) as Hr.
  assert (E1 : V / (3600 * Zpos p) = V / Zpos p / 3600).
  { rewrite (Z.mul_comm 3600). symmetry. apply Z.div_div; lia. }
  assert (E2 : V mod (3600 * Zpos p) / (60 * Zpos p)
               = (V / Zpos p) mod 3600 / 60).
  { rewrite (Z.mul_comm 3600), (Z.mul_comm 60).
    rewrite Z.rem_mul_r by lia.
    rewrite <- Z.div_div by lia.
    rewrite (Z.mul_comm (Zpos p)), Z.div_add by lia.
    now rewrite (Z.div_small _ _ Hr). }
  assert (E3 : V mod (60 * Zpos p) / Zpos p = (V / Zpos p) mod 60).
  { rewrite (Z.mul_comm 60), Z.rem_mul_r by lia.
    rewrite (Z.mul_comm (Zpos p)), Z.div_add by lia.
    now rewrite (Z.div_small _ _ Hr). }
  now rewrite E1, E2, E3.
Qed.

(** X3: the fractional part of a float is discarded: a finite
    non-negative float below 2^62 is formatted exactly like the [int] it
    truncates to. *)
Theorem X3_float_formats_like_its_integer_part (s : float) :
  is_finite_nonneg s = true -> (value s < 2 ^ 62)%Q ->
  format_timestamp (PyFloat s) = format_timestamp (PyInt (Qfloor (value s))).
Proof.
  intros Hfin Hlt.
  rewrite (format_timestamp_float s Hfin Hlt).
  rewrite format_timestamp_int.
  - now rewrite spec_timestamp_floor.
  - change 0 with (Qfloor 0). apply Qfloor_resp_le. now apply value_nonneg.
Qed.

Lemma X3_float_formats_like_its_integer_part_witness :
  format_timestamp (PyFloat (lit 36615 10)) = format_timestamp (PyInt 3661)
  /\ Qfloor (value (lit 36615 10)) = 3661.
Proof.
  split; [|vm_compute; reflexivity].
  apply (X3_float_formats_like_its_integer_part (lit 36615 10));
    vm_compute; reflexivity.
Defined.

(** X4: a NaN or an infinite number of seconds makes [format_timestamp]
    raise [ValueError]: the floor division yields NaN, which [int()]
    refuses. *)
Theorem X4_nonfinite_seconds_raise (s : float) :
  is_nonfinite s = true ->
  format_timestamp (PyFloat s)
  = Raise (Exc "ValueError" (py "cannot convert float NaN to integer")).
Proof.
  destruct s as [b|[|]| |b m e]; try discriminate; intros _;
    vm_compute; reflexivity.
Qed.

Lemma X4_nonfinite_seconds_raise_witness :
  format_timestamp (PyFloat (S754_infinity true))
  = Raise (Exc "ValueError" (py "cannot convert float NaN to integer")).
Proof. apply (X4_nonfinite_seconds_raise (S754_infinity true)). reflexivity. Defined.

(** ** Width of a timestamp *)

Lemma uint_short_two_digits (u : Decimal.uint) :
  (List.length (str_of_uint u) < 3)%nat -> (N.of_uint u < 100)%N.
Proof.
  destruct u as [|u|u|u|u|u|u|u|u|u|u]; simpl; try (intros; reflexivity);
    (destruct u as [|u|u|u|u|u|u|u|u|u|u]; simpl; try (intros; reflexivity));
    destruct u; simpl; intros H; try lia; reflexivity.
Qed.

Lemma zero_padded2_length (k : Z) :
  0 <= k ->
  (2 <= List.length (zero_padded2 k))%nat
  /\ (List.length (zero_padded2 k) = 2%nat <-> k < 100).
Proof.
  intros Hk. unfold zero_padded2. destruct (k <? 10) eqn:E.
  - apply Z.ltb_lt in E. simpl. split; [lia|]. split; intros; [lia | reflexivity].
  - apply Z.ltb_ge in E. pose proof (digits_long k E) as Hlen.
    split; [exact Hlen|]. split.
    + intros H2. unfold digits_of in H2.
      assert (Hlt : (List.length (str_of_uint (N.to_uint (Z.abs_N k))) < 3)%nat)
        by lia.
      apply uint_short_two_digits in Hlt.
      rewrite DecimalN.Unsigned.of_to in Hlt. lia.
    + intros Hlt. rewrite <- (Z2Nat.id k) by lia.
      assert (Hn : (Z.to_nat k < 100)%nat) by lia.
      assert (Hn' : (10 <= Z.to_nat k)%nat) by lia.
      revert Hn Hn'. generalize (Z.to_nat k). intros n Hn Hn'.
      do 10 (destruct n as [|n]; [lia|]).
      do 90 (destruct n as [|n]; [reflexivity|]). lia.
Qed.

Lemma spec_timestamp_length (v : Q) :
  (0 <= v)%Q ->
  (8 <= List.length (spec_timestamp v))%nat
  /\ (List.length (spec_timestamp v) = 8%nat <-> (v < 360000)%Q).
Proof.
  intros Hv. destruct v as [V p].
  destruct (spec_fields_frac (V # p) V p (Qeq_refl _)) as [Hh [Hm Hs]].
  assert (HV : 0 <= V).
  { unfold Qle in Hv. cbn [Qnum Qden] in Hv. lia. }
  assert (Hp : 0 < Zpos p) by lia.
  pose proof (Z.mod_pos_bound V (3600 * Zpos p) ltac:(lia)) as B1.
  pose proof (Z.mod_pos_bound V (60 * Zpos p) ltac:(lia)) as B2.
  assert (Bh : 0 <= V / (3600 * Zpos p)) by (apply Z.div_pos; lia).
  assert (Bm : 0 <= V mod (3600 * Zpos p) / (60 * Zpos p) < 60).
  { split; [apply Z.div_pos; lia|]. apply Z.div_lt_upper_bound; lia. }
  assert (Bs : 0 <= V mod (60 * Zpos p) / Zpos p < 60).
  { split; [apply Z.div_pos; lia|]. apply Z.div_lt_upper_bound; lia. }
  unfold spec_timestamp. rewrite Hh, Hm, Hs. rewrite !length_app.
  change (List.length (py ":")) with 1%nat.
  destruct (zero_padded2_length _ Bh) as [Lh Lh'].
  destruct (zero_padded2_length (V mod (3600 * Zpos p) / (60 * Zpos p)))
    as [_ Lm]; [lia|].
  destruct (zero_padded2_length (V mod (60 * Zpos p) / Zpos p))
    as [_ Ls]; [lia|].
  rewrite (proj2 Lm) by lia. rewrite (proj2 Ls) by lia.
  split; [lia|].
  assert (Hiff : V / (3600 * Zpos p) < 100 <-> (V # p < 360000)%Q).
  { unfold Qlt. cbn [Qnum Qden].
    change (Zpos 1) with 1. rewrite Z.mul_1_r. split; intros H.
    - destruct (Z_lt_le_dec V (360000 * Zpos p)) as [Hlt|Hge]; [exact Hlt|].
      assert (100 <= V / (3600 * Zpos p))
        by (apply Z.div_le_lower_bound; lia).
      lia.
    - apply Z.div_lt_upper_bound; lia. }
  rewrite <- Hiff, <- Lh'. lia.
Qed.

(** X5: a timestamp has at least 8 characters, and exactly the 8 of
    HH:MM:SS precisely when the time is below 100 hours (360000 seconds);
    for a non-negative [int], and for a finite non-negative float below
    2^62. *)
Theorem X5_timestamp_width :
  (forall n : Z, 0 <= n ->
     exists t, format_timestamp (PyInt n) = Ret t
               /\ (8 <= List.length t)%nat
               /\ (List.length t = 8%nat <-> n < 360000))
  /\
  (forall s : float, is_finite_nonneg s = true -> (value s < 2 ^ 62)%Q ->
     exists t, format_timestamp (PyFloat s) = Ret t
               /\ (8 <= List.length t)%nat
               /\ (List.length t = 8%nat <-> (value s < 360000)%Q)).
Proof.
  split.
  - intros n Hn. exists (spec_timestamp (inject_Z n)).
    split; [now apply format_timestamp_int|].
    destruct (spec_timestamp_length (inject_Z n)) as [H8 Hiff].
    { change 0%Q with (inject_Z 0). now rewrite <- Zle_Qle. }
    split; [exact H8|]. rewrite Hiff.
    change 360000%Q with (inject_Z 360000). now rewrite <- Zlt_Qlt.
  - intros s Hfin Hlt. exists (spec_timestamp (value s)).
    split; [now apply format_timestamp_float|].
    apply spec_timestamp_length. now apply value_nonneg.
Qed.

Lemma X5_timestamp_width_witness :
  (exists t, format_timestamp (PyInt 359999) = Ret t
             /\ (8 <= List.length t)%nat
             /\ (List.length t = 8%nat <-> 359999 < 360000))
  /\ (exists t, format_timestamp (PyFloat (of_Z 360000)) = Ret t
                /\ (8 <= List.length t)%nat
                /\ (List.length t = 8%nat
                    <-> (value (of_Z 360000) < 360000)%Q)).
Proof.
  split.
  - apply (proj1 X5_timestamp_width 359999). lia.
  - apply (proj2 X5_timestamp_width (of_Z 360000)); vm_compute; reflexivity.
Defined.

(** ** The formatters as functions of the segments with text *)

Lemma filter_without_blank (pre post : list Segment) (b : Segment) :
  nonblank b = false ->
  filter nonblank (pre ++ b :: post) = filter nonblank (pre ++ post).
Proof. intros Hb. rewrite !filter_app. simpl. now rewrite Hb. Qed.

Lemma simple_lines_filter (segs : list Segment) :
  simple_lines segs = mapM render_simple (filter nonblank segs).
Proof.
  unfold simple_lines. rewrite simple_loop_lines.
  destruct (mapM _ _); reflexivity.
Qed.

Lemma formatters_by_lines (segs segs' : list Segment) :
  segs <> [] -> segs' <> [] ->
  filter nonblank segs = filter nonblank segs' ->
  format_transcript_with_speakers segs = format_transcript_with_speakers segs'
  /\ format_transcript_simple segs = format_transcript_simple segs'.
Proof.
  intros Hne Hne' Hf.
  destruct segs as [|s segs]; [congruence|].
  destruct segs' as [|s' segs']; [congruence|].
  unfold format_transcript_with_speakers, format_transcript_simple.
  now rewrite !speaker_lines_blocks, !simple_lines_filter, Hf.
Qed.

(** X6: a segment whose text is absent, empty or whitespace only is
    invisible to both formatters: removing it from anywhere in a sequence
    that keeps at least one segment changes nothing, whatever its speaker
    and start time (so it neither splits nor starts a speaker block). *)
Theorem X6_blank_segment_is_invisible (pre post : list Segment) (b : Segment) :
  blank_segment b -> pre ++ post <> [] ->
  format_transcript_with_speakers (pre ++ b :: post)
  = format_transcript_with_speakers (pre ++ post)
  /\ format_transcript_simple (pre ++ b :: post)
     = format_transcript_simple (pre ++ post).
Proof.
  intros Hb Hne. apply formatters_by_lines.
  - now destruct pre.
  - exact Hne.
  - apply filter_without_blank. now apply blank_text_nonblank.
Qed.

Lemma X6_blank_segment_is_invisible_witness :
  let b := {| seg_start := Some (PyFloat S754_nan);
              seg_speaker := Some (py "B");
              seg_text := Some (py "   ") |} in
  format_transcript_with_speakers
    [seg (PyInt 0) "A" "hello"; b; seg (PyInt 2) "A" "world"]
  = Ret (py "[00:00:00] A: hello world")
  /\ format_transcript_simple
       [seg (PyInt 0) "A" "hello"; b; seg (PyInt 2) "A" "world"]
     = format_transcript_simple
         [seg (PyInt 0) "A" "hello"; seg (PyInt 2) "A" "world"].
Proof.
  intros b.
  destruct (X6_blank_segment_is_invisible
              [seg (PyInt 0) "A" "hello"] [seg (PyInt 2) "A" "world"] b)
    as [Hw Hs].
  - repeat constructor.
  - discriminate.
  - split; [|exact Hs]. simpl app in Hw. rewrite Hw. reflexivity.
Defined.

(** *** Every line begins with the bracket of its timestamp *)

Lemma mapM_Forall {A B : Type} (f : A -> res B) (P : A -> Prop) (Q : B -> Prop)
    (l : list A) (bs : list B) :
  (forall a b, P a -> f a = Ret b -> Q b) ->
  Forall P l -> mapM f l = Ret bs -> Forall Q bs.
Proof.
  intros Hf Hl. revert bs. induction Hl as [|a l Ha _ IH]; intros bs; simpl.
  - intros [= <-]. constructor.
  - destruct (f a) as [b|e] eqn:Efa; simpl; [|discriminate].
    destruct (mapM f l) as [bs'|e]; simpl; [|discriminate].
    intros [= <-]. constructor; [now apply (Hf a) | now apply IH].
Qed.

Lemma mapM_length {A B : Type} (f : A -> res B) (l : list A) (bs : list B) :
  mapM f l = Ret bs -> List.length bs = List.length l.
Proof.
  revert bs. induction l as [|a l IH]; intros bs; simpl.
  - now intros [= <-].
  - destruct (f a); simpl; [|discriminate].
    destruct (mapM f l) as [bs'|e]; simpl; [|discriminate].
    intros [= <-]. simpl. now rewrite (IH bs').
Qed.

Lemma join_head (sep : str) (c : char) (ls : list str) :
  ls <> [] -> Forall (fun l => exists r, l = c :: r) ls ->
  exists r, join sep ls = c :: r.
Proof.
  intros Hne Hall. destruct ls as [|l ls]; [congruence|].
  inversion Hall as [|? ? [r ->] _]; subst.
  destruct ls; simpl; eexists; reflexivity.
Qed.

Lemma render_block_head (g : list Segment) (b : str) :
  g <> [] -> render_block g = Ret b -> exists r, b = 91%N :: r.
Proof.
  destruct g as [|first g]; [congruence|]. intros _. simpl.
  destruct (format_timestamp (start_of first)); simpl; [|discriminate].
  intros [= <-]. eexists. reflexivity.
Qed.

Lemma render_simple_head (s : Segment) (b : str) :
  render_simple s = Ret b -> exists r, b = 91%N :: r.
Proof.
  unfold render_simple.
  destruct (format_timestamp (start_of s)); simpl; [|discriminate].
  intros [= <-]. eexists. reflexivity.
Qed.

Lemma speaker_lines_heads (segs : list Segment) (ls : list str) :
  speaker_lines segs = Ret ls ->
  Forall (fun l => exists r, l = 91%N :: r) ls
  /\ (ls = [] -> filter nonblank segs = []).
Proof.
  rewrite speaker_lines_blocks. intros H. split.
  - eapply (mapM_Forall render_block (fun g => g <> [])); [| |exact H].
    + intros g b Hg. now apply render_block_head.
    + eapply Forall_impl; [|apply group_blocks]. now intros g [Hg _].
  - intros ->. apply mapM_length in H. simpl in H.
    rewrite <- (group_concat (filter nonblank segs)).
    destruct (group_by_speaker (filter nonblank segs)); [reflexivity|].
    discriminate.
Qed.

Lemma simple_lines_heads (segs : list Segment) (ls : list str) :
  simple_lines segs = Ret ls ->
  Forall (fun l => exists r, l = 91%N :: r) ls
  /\ (ls = [] -> filter nonblank segs = []).
Proof.
  rewrite simple_lines_filter. intros H. split.
  - eapply (mapM_Forall render_simple (fun _ => True)); [| |exact H].
    + intros s b _. apply render_simple_head.
    + apply Forall_forall. auto.
  - intros ->. apply mapM_length in H. simpl in H.
    destruct (filter nonblank segs); [reflexivity | discriminate].
Qed.

Lemma filter_nil_no_text (segs : list Segment) (s : Segment) :
  filter nonblank segs = [] -> In s segs -> nonblank s = true -> False.
Proof.
  intros Hf Hin Hs.
  assert (Hin' : In s (filter nonblank segs)) by (apply filter_In; now split).
  now rewrite Hf in Hin'.
Qed.

(** X7: whenever some segment carries text, the string a formatter
    returns begins with the opening bracket of the first timestamp; so it
    is neither empty nor the sentinel of the empty input. *)
Theorem X7_output_begins_with_timestamp (segs : list Segment) (s : Segment)
    (out : str) :
  In s segs -> nonblank s = true ->
  (format_transcript_with_speakers segs = Ret out
   \/ format_transcript_simple segs = Ret out) ->
  exists rest, out = 91%N :: rest.
Proof.
  intros Hin Hs H.
  destruct segs as [|s0 segs]; [now elim Hin|].
  unfold format_transcript_with_speakers, format_transcript_simple in H.
  destruct H as [H|H].
  - destruct (speaker_lines (s0 :: segs)) as [ls|e] eqn:E; [|discriminate].
    injection H as <-.
    destruct (speaker_lines_heads _ _ E) as [Hheads Hnil].
    apply join_head; [|exact Hheads].
    intros ->. exact (filter_nil_no_text _ s (Hnil eq_refl) Hin Hs).
  - destruct (simple_lines (s0 :: segs)) as [ls|e] eqn:E; [|discriminate].
    injection H as <-.
    destruct (simple_lines_heads _ _ E) as [Hheads Hnil].
    apply join_head; [|exact Hheads].
    intros ->. exact (filter_nil_no_text _ s (Hnil eq_refl) Hin Hs).
Qed.

Lemma X7_output_begins_with_timestamp_witness :
  format_transcript_simple
    [seg (PyInt 3) "A" " "; seg (PyInt 7) "A" " hello "]
  = Ret (py "[00:00:07] hello")
  /\ exists rest, py "[00:00:07] hello" = 91%N :: rest.
Proof.
  split; [reflexivity|].
  apply (X7_output_begins_with_timestamp
           [seg (PyInt 3) "A" " "; seg (PyInt 7) "A" " hello "]
           (seg (PyInt 7) "A" " hello ")).
  - right. now left.
  - reflexivity.
  - right. reflexivity.
Defined.

(** X8: the sentinel "No transcription results." is returned for the
    empty sequence only: on any sequence with at least one segment, no
    formatter returns it. *)
Theorem X8_sentinel_only_for_empty_input (segs : list Segment) :
  (format_transcript_with_speakers segs = Ret no_results <-> segs = [])
  /\ (format_transcript_simple segs = Ret no_results <-> segs = []).
Proof.
  assert (Hj : forall ls, Forall (fun l => exists r, l = 91%N :: r) ls ->
                          join [nl; nl] ls <> no_results).
  { intros ls Hall Heq. destruct ls as [|l ls]; [discriminate Heq|].
    destruct (join_head [nl; nl] 91%N (l :: ls) ltac:(discriminate) Hall)
      as [r Hr].
    rewrite Hr in Heq. discriminate Heq. }
  split; (split; [|now intros ->]).
  - destruct segs as [|s0 segs]; [reflexivity|].
    unfold format_transcript_with_speakers.
    destruct (speaker_lines (s0 :: segs)) as [ls|e] eqn:E; [|discriminate].
    intros [= H]. exfalso. apply (Hj ls); [|exact H].
    apply (speaker_lines_heads _ _ E).
  - destruct segs as [|s0 segs]; [reflexivity|].
    unfold format_transcript_simple.
    destruct (simple_lines (s0 :: segs)) as [ls|e] eqn:E; [|discriminate].
    intros [= H]. exfalso. apply (Hj ls); [|exact H].
    apply (simple_lines_heads _ _ E).
Qed.

(** ** One speaker, absent keys, start times that are not read *)

(** X9: when all the segments with text carry one speaker label, the
    speaker-aware formatter returns a single line: the timestamp of the
    first of them, the label, and their trimmed texts joined by single
    spaces. *)
Theorem X9_one_speaker_one_line (segs : list Segment) (first : Segment)
    (rest : list Segment) (sp timestamp : str) :
  filter nonblank segs = first :: rest ->
  Forall (fun s => nonblank s = true -> speaker_of s = sp) segs ->
  format_timestamp (start_of first) = Ret timestamp ->
  format_transcript_with_speakers segs
  = Ret (speaker_line timestamp sp
           (join (py " ") (map text_of (first :: rest)))).
Proof.
  intros Hf Hsp Hts.
  assert (Hone : one_speaker sp (first :: rest)).
  { rewrite <- Hf. apply Forall_forall. intros s Hs.
    apply filter_In in Hs as [Hin Hnb].
    exact (proj1 (Forall_forall _ _) Hsp s Hin Hnb). }
  destruct segs as [|s0 segs]; [discriminate Hf|].
  unfold format_transcript_with_speakers.
  rewrite speaker_lines_blocks, Hf.
  rewrite (group_one_speaker sp (first :: rest) ltac:(discriminate) Hone).
  simpl mapM. unfold render_block. rewrite Hts. simpl.
  inversion Hone; subst. reflexivity.
Qed.

Lemma X9_one_speaker_one_line_witness :
  format_transcript_with_speakers
    [seg (PyInt 5) "A" " one "; seg (PyInt 6) "B" ""; seg (PyInt 9) "A" "two"]
  = Ret (py "[00:00:05] A: one two").
Proof.
  apply (X9_one_speaker_one_line _ (seg (PyInt 5) "A" " one ")
           [seg (PyInt 9) "A" "two"] (py "A") (py "00:00:05")).
  - reflexivity.
  - repeat constructor; discriminate.
  - reflexivity.
Defined.

Lemma loop_body_with_defaults (st : loop_state) (s : Segment) :
  loop_body st (with_defaults s) = loop_body st s.
Proof. reflexivity. Qed.

Lemma run_loop_with_defaults (segs : list Segment) (st : loop_state) :
  run_loop st (map with_defaults segs) = run_loop st segs.
Proof.
  revert st. induction segs as [|s segs IH]; intros st; [reflexivity|].
  simpl. rewrite loop_body_with_defaults.
  destruct (loop_body st s); simpl; [apply IH | reflexivity].
Qed.

Lemma simple_loop_with_defaults (segs : list Segment) (ls : list str) :
  simple_loop ls (map with_defaults segs) = simple_loop ls segs.
Proof.
  revert ls. induction segs as [|s segs IH]; intros ls; [reflexivity|].
  simpl. change (simple_body ls (with_defaults s)) with (simple_body ls s).
  destruct (simple_body ls s); simpl; [apply IH | reflexivity].
Qed.

(** X10: an absent key is read as its default, throughout: a segment
    without "speaker" is treated as one labelled "UNKNOWN" (and merges
    with its neighbours so labelled), one without "text" as one with the
    empty text (it is skipped), one without "start" as one starting at 0.
    Filling in the defaults changes the result of neither formatter. *)
Theorem X10_absent_keys_read_as_defaults (segs : list Segment) :
  format_transcript_with_speakers (map with_defaults segs)
  = format_transcript_with_speakers segs
  /\ format_transcript_simple (map with_defaults segs)
     = format_transcript_simple segs.
Proof.
  destruct segs as [|s segs]; [split; reflexivity|].
  unfold format_transcript_with_speakers, format_transcript_simple,
    speaker_lines, simple_lines.
  change (map with_defaults (s :: segs))
    with (with_defaults s :: map with_defaults segs).
  cbv iota.
  rewrite <- (run_loop_with_defaults (s :: segs)).
  rewrite <- (simple_loop_with_defaults (s :: segs)).
  split; reflexivity.
Qed.

Lemma run_loop_app (a b : list Segment) (st : loop_state) :
  run_loop st (a ++ b) = (st' <- run_loop st a ;; run_loop st' b).
Proof.
  revert st. induction a as [|s a IH]; intros st; [reflexivity|].
  simpl. destruct (loop_body st s); simpl; [apply IH | reflexivity].
Qed.

Lemma loop_body_sets_speaker (st st' : loop_state) (x : Segment) :
  nonblank x = true -> loop_body st x = Ret st' ->
  current_speaker st' = Some (speaker_of x).
Proof.
  unfold nonblank, loop_body. fold (text_of x) (speaker_of x) (start_of x).
  intros Hnb. apply negb_true_iff in Hnb. rewrite Hnb.
  destruct (speaker_differs (speaker_of x) (current_speaker st)) eqn:E.
  - destruct (flush st); simpl; [|discriminate]. now intros [= <-].
  - intros [= <-]. simpl. unfold speaker_differs in E.
    destruct (current_speaker st) as [c|]; [|discriminate].
    apply negb_false_iff, eqb_eq in E. now rewrite E.
Qed.

Lemma loop_body_ignores_start (st : loop_state) (s : Segment)
    (t : option pynum) :
  current_speaker st = Some (speaker_of s) ->
  loop_body st (with_start s t) = loop_body st s.
Proof.
  intros Hc. unfold loop_body, with_start. simpl.
  fold (text_of s) (speaker_of s). rewrite Hc. simpl.
  rewrite eqb_refl. simpl. reflexivity.
Qed.

(** X11: the start time of a segment that continues the open speaker
    block is never read: after a segment with text, and any number of
    blank segments, a segment with the same speaker label can carry any
    value under "start" (or none) without changing the result of
    [format_transcript_with_speakers]. *)
Theorem X11_start_of_continuing_segment_unread
    (pre blanks post : list Segment) (x s : Segment) (t : option pynum) :
  nonblank x = true ->
  Forall blank_segment blanks ->
  speaker_of s = speaker_of x ->
  format_transcript_with_speakers (pre ++ x :: blanks ++ with_start s t :: post)
  = format_transcript_with_speakers (pre ++ x :: blanks ++ s :: post).
Proof.
  intros Hx Hblanks Hsp.
  assert (Hnb : Forall (fun b => nonblank b = false) blanks).
  { eapply Forall_impl; [|exact Hblanks]. intros b. apply blank_text_nonblank. }
  assert (Hrun : forall st,
            run_loop st (pre ++ x :: blanks ++ with_start s t :: post)
            = run_loop st (pre ++ x :: blanks ++ s :: post)).
  { intros st. rewrite !run_loop_app.
    destruct (run_loop st pre) as [st1|e]; simpl; [|reflexivity].
    destruct (loop_body st1 x) as [st2|e] eqn:E; simpl; [|reflexivity].
    rewrite !run_loop_app, (run_loop_all_blank _ _ Hnb). simpl.
    rewrite loop_body_ignores_start; [reflexivity|].
    rewrite Hsp. now apply (loop_body_sets_speaker st1). }
  unfold format_transcript_with_speakers, speaker_lines.
  rewrite Hrun. now destruct pre.
Qed.

Lemma X11_start_of_continuing_segment_unread_witness :
  format_transcript_with_speakers
    [seg (PyInt 4) "A" "so"; seg (PyInt 5) "B" " ";
     with_start (seg (PyInt 6) "A" "far") (Some (PyFloat S754_nan))]
  = Ret (py "[00:00:04] A: so far").
Proof.
  refine (eq_trans
            (X11_start_of_continuing_segment_unread
               [] [seg (PyInt 5) "B" " "] [] (seg (PyInt 4) "A" "so")
               (seg (PyInt 6) "A" "far") (Some (PyFloat S754_nan)) _ _ _) _);
    [reflexivity | repeat constructor | reflexivity | reflexivity].
Defined.

(** ** When the formatters return and when they raise *)

Lemma format_timestamp_returns (t : pynum) :
  formattable t -> exists ts, format_timestamp t = Ret ts.
Proof.
  destruct t as [n|f]; simpl.
  - intros _. eexists. reflexivity.
  - intros [Hfin Hlt]. eexists. now apply format_timestamp_float.
Qed.

Lemma mapM_returns {A B : Type} (f : A -> res B) (l : list A) :
  Forall (fun a => exists b, f a = Ret b) l -> exists bs, mapM f l = Ret bs.
Proof.
  induction 1 as [|a l [b Hb] _ [bs IH]]; simpl.
  - eexists. reflexivity.
  - rewrite Hb, IH. eexists. reflexivity.
Qed.

Lemma group_members (segs : list Segment) (g : list Segment) (s : Segment) :
  In g (group_by_speaker segs) -> In s g -> In s segs.
Proof.
  intros Hg Hs. rewrite <- (group_concat segs). apply in_concat. now exists g.
Qed.

(** X12: neither formatter raises when every start time is absent, an
    [int], or a finite non-negative float below 2^62: both return a
    string. *)
Theorem X12_formatters_return_on_valid_starts (segs : list Segment) :
  Forall (fun s => formattable (start_of s)) segs ->
  (exists out, format_transcript_with_speakers segs = Ret out)
  /\ (exists out, format_transcript_simple segs = Ret out).
Proof.
  intros Hall.
  assert (Hin : forall s, In s (filter nonblank segs) ->
                          exists ts, format_timestamp (start_of s) = Ret ts).
  { intros s Hs. apply filter_In in Hs as [Hs _].
    apply format_timestamp_returns.
    exact (proj1 (Forall_forall _ _) Hall s Hs). }
  destruct segs as [|s0 segs]; [split; eexists; reflexivity|].
  unfold format_transcript_with_speakers, format_transcript_simple.
  rewrite speaker_lines_blocks, simple_lines_filter. split.
  - destruct (mapM_returns render_block
                (group_by_speaker (filter nonblank (s0 :: segs)))) as [bs ->];
      [|eexists; reflexivity].
    apply Forall_forall. intros g Hg.
    destruct g as [|first g]; [eexists; reflexivity|].
    destruct (Hin first) as [ts Hts].
    { eapply group_members; [exact Hg | now left]. }
    simpl. rewrite Hts. eexists. reflexivity.
  - destruct (mapM_returns render_simple (filter nonblank (s0 :: segs)))
      as [bs ->]; [|eexists; reflexivity].
    apply Forall_forall. intros s Hs. destruct (Hin s Hs) as [ts Hts].
    unfold render_simple. rewrite Hts. eexists. reflexivity.
Qed.

Lemma X12_formatters_return_on_valid_starts_witness :
  let segs := [seg (PyInt (-5)) "A" "a";
               {| seg_start := None; seg_speaker := None;
                  seg_text := Some (py "b") |};
               seg (PyFloat (lit 725 100)) "B" "c"] in
  (exists out, format_transcript_with_speakers segs = Ret out)
  /\ (exists out, format_transcript_simple segs = Ret out).
Proof.
  apply X12_formatters_return_on_valid_starts.
  repeat constructor; vm_compute; reflexivity.
Defined.

(** X13: a start time that [format_timestamp] rejects on the first
    segment with text makes both formatters raise that exception,
    whatever follows. *)
Theorem X13_bad_first_start_raises (blanks post : list Segment) (s : Segment)
    (e : exn) :
  Forall blank_segment blanks ->
  nonblank s = true ->
  format_timestamp (start_of s) = Raise e ->
  format_transcript_with_speakers (blanks ++ s :: post) = Raise e
  /\ format_transcript_simple (blanks ++ s :: post) = Raise e.
Proof.
  intros Hblanks Hs He.
  assert (Hf : filter nonblank (blanks ++ s :: post)
               = s :: filter nonblank post).
  { rewrite filter_app. simpl. rewrite Hs.
    replace (filter nonblank blanks) with (@nil Segment); [reflexivity|].
    symmetry. induction Hblanks as [|b bs Hb _ IH]; [reflexivity|].
    simpl. now rewrite (blank_text_nonblank b Hb). }
  assert (Hne : blanks ++ s :: post <> []) by now destruct blanks.
  destruct (blanks ++ s :: post) as [|s0 segs]; [congruence|].
  unfold format_transcript_with_speakers, format_transcript_simple.
  rewrite speaker_lines_blocks, simple_lines_filter, Hf. split.
  - destruct (group_head s (filter nonblank post)) as [g [gs ->]].
    simpl. now rewrite He.
  - simpl. unfold render_simple. now rewrite He.
Qed.

Lemma X13_bad_first_start_raises_witness :
  let segs := [seg (PyInt 0) "A" " ";
               seg (PyFloat (S754_infinity false)) "A" "late";
               seg (PyInt 2) "B" "ok"] in
  format_transcript_with_speakers segs
  = Raise (Exc "ValueError" (py "cannot convert float NaN to integer"))
  /\ format_transcript_simple segs
     = Raise (Exc "ValueError" (py "cannot convert float NaN to integer")).
Proof.
  apply (X13_bad_first_start_raises [seg (PyInt 0) "A" " "]
           [seg (PyInt 2) "B" "ok"]
           (seg (PyFloat (S754_infinity false)) "A" "late")).
  - repeat constructor.
  - reflexivity.
  - reflexivity.
Defined.

(** ** The behaviours of composed computations *)

Lemma in_then_set {U V : Type} (S1 : list (list event * option U))
    (SH SK : list (list event * option V)) (xs ys : list event)
    (r : option U) (r' : option V) :
  In (xs, r) S1 ->
  In (ys, r') (match r with Some _ => SK | None => SH end) ->
  In (xs ++ ys, r') (then_set S1 SH SK).
Proof.
  intros H1 H2. apply in_flat_map. exists (xs, r). split; [exact H1|].
  apply in_map_iff. exists (ys, r'). split; [reflexivity | exact H2].
Qed.

Section Behaves.

Context {A B U : Type}.

Lemma behaves_ret (u : A -> U) (a : A) (x : U) :
  u a = x -> behaves u (io_ret a) [([], Some x)].
Proof. intros <- tr. exists []. simpl. rewrite app_nil_r. auto. Qed.

Lemma behaves_lift (x : U) (r : res A) :
  behaves (fun _ => x) (lift r) [([], Some x); ([], None)].
Proof.
  intros tr. exists []. simpl. rewrite app_nil_r.
  split; [reflexivity|]. destruct r; simpl; auto.
Qed.

Lemma behaves_call (x : U) (name : string) (r : res A) :
  behaves (fun _ => x) (call name r)
    [([Call name], Some x); ([Call name], None)].
Proof.
  intros tr. exists [Call name]. simpl.
  split; [reflexivity|]. destruct r; simpl; auto.
Qed.

Lemma behaves_emit (x : U) (ev ev' : event) :
  erase ev = ev' -> behaves (fun _ => x) (emit ev) [([ev'], Some x)].
Proof. intros <- tr. exists [ev]. simpl. auto. Qed.

Lemma behaves_attempt (u : B -> U) (c : io A) (handler : exn -> io B)
    (k : A -> io B) (S1 : list (list event * option unit))
    (SH SK : list (list event * option U)) :
  behaves (fun _ => tt) c S1 ->
  (forall e, behaves u (handler e) SH) ->
  (forall a, behaves u (k a) SK) ->
  behaves u (attempt c handler k) (then_set S1 SH SK).
Proof.
  intros Hc Hh Hk tr. unfold attempt.
  destruct (Hc tr) as [evs1 [Htr1 Hin1]].
  destruct (c tr) as [tr1 [a|e]]; simpl in Htr1, Hin1; subst tr1.
  - destruct (Hk a (tr ++ evs1)) as [evs2 [Htr2 Hin2]].
    exists (evs1 ++ evs2). rewrite Htr2, app_assoc, map_app.
    split; [reflexivity|]. now apply (in_then_set S1 SH SK _ _ (Some tt)).
  - destruct (Hh e (tr ++ evs1)) as [evs2 [Htr2 Hin2]].
    exists (evs1 ++ evs2). rewrite Htr2, app_assoc, map_app.
    split; [reflexivity|]. now apply (in_then_set S1 SH SK _ _ None).
Qed.

Lemma behaves_bind (u : B -> U) (c : io A) (k : A -> io B)
    (S1 : list (list event * option unit))
    (SK : list (list event * option U)) :
  behaves (fun _ => tt) c S1 ->
  (forall a, behaves u (k a) SK) ->
  behaves u (io_bind c k) (then_set S1 [([], None)] SK).
Proof.
  intros Hc Hk tr. unfold io_bind.
  destruct (Hc tr) as [evs1 [Htr1 Hin1]].
  destruct (c tr) as [tr1 [a|e]]; simpl in Htr1, Hin1; subst tr1.
  - destruct (Hk a (tr ++ evs1)) as [evs2 [Htr2 Hin2]].
    exists (evs1 ++ evs2). rewrite Htr2, app_assoc, map_app.
    split; [reflexivity|]. now apply (in_then_set S1 _ SK _ _ (Some tt)).
  - exists evs1. split; [reflexivity|]. simpl.
    rewrite <- (app_nil_r (map erase evs1)).
    apply (in_then_set S1 _ SK _ _ None); [exact Hin1 | now left].
Qed.

Lemma behaves_if (u : A -> U) (b : bool) (c1 c2 : io A)
    (S1 S2 : list (list event * option U)) :
  behaves u c1 S1 -> behaves u c2 S2 ->
  behaves u (if b then c1 else c2) (S1 ++ S2).
Proof.
  intros H1 H2 tr. destruct b.
  - destruct (H1 tr) as [evs [Htr Hin]]. exists evs.
    split; [exact Htr | apply in_or_app; now left].
  - destruct (H2 tr) as [evs [Htr Hin]]. exists evs.
    split; [exact Htr | apply in_or_app; now right].
Qed.

End Behaves.

Lemma behaves_run {A U : Type} (u : A -> U) (c : io A)
    (S : list (list event * option U)) :
  behaves u c S -> In (map erase (fst (run c)), observe u (snd (run c))) S.
Proof.
  intros H. destruct (H []) as [evs [Htr Hin]]. unfold run.
  rewrite Htr. exact Hin.
Qed.

Ltac behaves_step :=
  lazymatch goal with
  | |- behaves _ (io_ret _) _ => eapply behaves_ret; lazy; reflexivity
  | |- behaves _ (lift _) _ => apply behaves_lift
  | |- behaves _ (call _ _) _ => apply behaves_call
  | |- behaves _ (emit _) _ => eapply behaves_emit; cbn [erase]; reflexivity
  | |- behaves _ (progress _ _) _ => eapply behaves_emit; cbn [erase]; reflexivity
  | |- behaves _ (io_bind _ _) _ => eapply behaves_bind; [| intros ]
  | |- behaves _ (attempt _ _ _) _ => eapply behaves_attempt; [| intros | intros ]
  | |- behaves _ (if _ then _ else _) _ => eapply behaves_if
  | |- behaves _ (let '(_, _) := ?p in _) _ => destruct p
  end.

Lemma behaves_checked {A U : Type} (u : A -> U) (c : io A)
    (S : list (list event * option U))
    (check : list event * option U -> bool) :
  behaves u c S -> forallb check S = true ->
  check (map erase (fst (run c)), observe u (snd (run c))) = true.
Proof.
  intros Hc HS. rewrite forallb_forall in HS. apply HS.
  now apply behaves_run.
Qed.

Ltac check_behaviours :=
  eapply behaves_checked;
  [ unfold transcribe_audio, align_stage, diarize_stage, empty_cache_if_cuda;
    cbv zeta; repeat behaves_step
  | vm_compute; reflexivity ].

(** *** From the checks to the statements *)

Lemma calls_erase (tr : list event) : calls (map erase tr) = calls tr.
Proof.
  induction tr as [|ev tr IH]; [reflexivity|].
  destruct ev; simpl; now rewrite IH.
Qed.

Lemma fractions_erase (tr : list event) :
  fractions (map erase tr) = fractions tr.
Proof.
  induction tr as [|ev tr IH]; [reflexivity|].
  destruct ev; simpl; now rewrite IH.
Qed.

Lemma subsequenceb_sound (xs ys : list string) :
  subsequenceb xs ys = true -> subsequence xs ys.
Proof.
  revert xs. induction ys as [|y ys IH]; intros xs; simpl.
  - destruct xs; [intros _; apply subsequence_nil | discriminate].
  - destruct xs as [|x xs].
    + intros _. apply subsequence_skip. apply IH. now destruct ys.
    + destruct (String.eqb x y) eqn:E; intros H.
      * apply String.eqb_eq in E. subst y. apply subsequence_take.
        now apply IH.
      * apply subsequence_skip. now apply IH.
Qed.

Lemma called_iff (name : string) (tr : list event) :
  called name tr = true <-> In name (calls tr).
Proof.
  unfold called. rewrite existsb_exists. split.
  - intros [n [Hin E]]. apply String.eqb_eq in E. now subst n.
  - intros Hin. exists name. split; [exact Hin | apply String.eqb_refl].
Qed.

Lemma float_eqb_eq (a b : float) : float_eqb a b = true -> a = b.
Proof.
  destruct a as [s|s| |s m e], b as [s'|s'| |s' m' e']; simpl;
    try discriminate; try reflexivity.
  - intros H. apply Bool.eqb_prop in H. now subst.
  - intros H. apply Bool.eqb_prop in H. now subst.
  - intros H. apply andb_true_iff in H as [H He].
    apply andb_true_iff in H as [Hs Hm].
    apply Bool.eqb_prop in Hs. apply Pos.eqb_eq in Hm. apply Z.eqb_eq in He.
    now subst.
Qed.

Lemma float_eqb_refl (a : float) : float_eqb a a = true.
Proof.
  destruct a as [s|s| |s m e]; simpl; try reflexivity;
    try apply Bool.eqb_reflx.
  now rewrite Bool.eqb_reflx, Pos.eqb_refl, Z.eqb_refl.
Qed.

Lemma starts_with_sound (prefix s : str) :
  starts_with prefix s = true -> exists rest, s = prefix ++ rest.
Proof.
  revert s. induction prefix as [|p prefix IH]; intros s; simpl.
  - intros _. now exists s.
  - destruct s as [|c s]; [discriminate|]. intros H.
    apply andb_true_iff in H as [Hp H]. apply N.eqb_eq in Hp. subst c.
    destruct (IH s H) as [rest ->]. now exists rest.
Qed.


Lemma same_calls_sound (tr : list event) (names : list string) :
  same_calls tr names = true -> calls tr = names.
Proof.
  unfold same_calls. now destruct (list_eq_dec string_dec (calls tr) names).
Qed.

(** ** The shape of every invocation *)

Lemma ending_of_no_path (t : str) : ending_of (t, None) <> Saved.
Proof.
  unfold ending_of. cbn [fst snd].
  generalize (PyStr.eqb t (py "Please upload an audio file.")),
    (starts_with (py "Error loading model: ") t),
    (starts_with (py "Error during transcription: ") t).
  intros [|] [|] [|]; discriminate.
Qed.

Section Invocation.

Variable w : World.
Variables (model_size : str) (hf_token : option str).
Variables (min_speakers max_speakers : option Z) (num_threads : Z).

Let invoke (audio_file : option str) : list event * res (str * option str) :=
  run (transcribe_audio w audio_file model_size hf_token
         min_speakers max_speakers num_threads).

(** X14: in every invocation the collaborators are called in the order
    of the pipeline's stages, each at most once (the cache release at
    most twice), and none is called unless the one it depends on was
    called before: no file is written without a temporary directory, no
    directory is made, and neither alignment nor diarization is tried,
    without a transcription. *)
Theorem X14_calls_follow_pipeline_order (audio_file : option str) :
  subsequence (calls (fst (invoke audio_file))) pipeline_calls
  /\ Forall (fun p => In (fst p) (calls (fst (invoke audio_file))) ->
                      In (snd p) (calls (fst (invoke audio_file))))
       prerequisites.
Proof.
  assert (H : check_order
                (map erase (fst (invoke audio_file)),
                 observe ending_of (snd (invoke audio_file))) = true)
    by (subst invoke; check_behaviours).
  unfold check_order in H. cbn [fst snd] in H.
  apply andb_true_iff in H as [Hsub Hpre]. rewrite calls_erase in Hsub.
  split; [now apply subsequenceb_sound|].
  apply Forall_forall. intros p Hp Hin.
  rewrite forallb_forall in Hpre. specialize (Hpre p Hp).
  unfold called in Hpre. rewrite calls_erase in Hpre.
  fold (called (fst p) (fst (invoke audio_file))) in Hpre.
  fold (called (snd p) (fst (invoke audio_file))) in Hpre.
  apply called_iff. apply called_iff in Hin. now rewrite Hin in Hpre.
Qed.


(** X16: a file path is returned exactly when the invocation ran to
    completion: if a path is returned, the log ends with the creation of
    the directory, the writing of the file and the progress report 1.0;
    and if 1.0 is ever reported, a path is returned. *)
Theorem X16_path_returned_iff_complete (audio_file : option str) :
  (forall t p, snd (invoke audio_file) = Ret (t, Some p) ->
     exists before desc,
       fst (invoke audio_file)
       = before ++ [Call "tempfile.mkdtemp"; Call "open/write";
                    Progress (lit 10 10) desc])
  /\ (In (lit 10 10) (fractions (fst (invoke audio_file))) ->
      exists t p, snd (invoke audio_file) = Ret (t, Some p)).
Proof.
  assert (H : check_saved
                (map erase (fst (invoke audio_file)),
                 observe ending_of (snd (invoke audio_file))) = true)
    by (subst invoke; check_behaviours).
  unfold check_saved in H. cbn [fst snd] in H.
  rewrite fractions_erase, <- map_rev in H. split.
  - intros t p Hret. rewrite Hret in H. cbn [observe ending_of snd] in H.
    rewrite <- (rev_involutive (fst (invoke audio_file))).
    destruct (rev (fst (invoke audio_file))) as [|[f desc| |] [|[| |wr] [|[| |mk] r]]];
      try discriminate H.
    simpl in H. apply andb_true_iff in H as [H Hmk].
    apply andb_true_iff in H as [Hf Hwr].
    apply float_eqb_eq in Hf. apply String.eqb_eq in Hwr, Hmk. subst.
    exists (rev r), desc. simpl. now rewrite <- !app_assoc.
  - intros Hin.
    assert (Hex : In (lit 10 10) (fractions (fst (invoke audio_file))) ->
                  existsb (float_eqb (lit 10 10))
                    (fractions (fst (invoke audio_file))) = true).
    { intros Hin'. apply existsb_exists. eexists. split; [exact Hin'|].
      apply float_eqb_refl. }
    destruct (snd (invoke audio_file)) as [[t [p|]]|e] eqn:E.
    + now exists t, p.
    + exfalso. cbn [observe] in H. rewrite (Hex Hin) in H.
      pose proof (ending_of_no_path t) as Hne.
      destruct (ending_of (t, None)); [congruence | | | |];
        exact (Bool.diff_false_true H).
    + exfalso. cbn [observe] in H. rewrite (Hex Hin) in H.
      exact (Bool.diff_false_true H).
Qed.

(** X17: when no file path is returned, the text is one of the three
    refusals and nothing past the failing stage was called: either
    "Please upload an audio file." with an empty log, or a text that
    begins "Error loading model: " after the model load, or one that
    begins "Error during transcription: " after the audio load or the
    transcription. *)
Theorem X17_no_path_means_refusal (audio_file : option str) (t : str) :
  snd (invoke audio_file) = Ret (t, None) ->
  (t = py "Please upload an audio file." /\ fst (invoke audio_file) = [])
  \/ ((exists rest, t = py "Error loading model: " ++ rest)
      /\ calls (fst (invoke audio_file))
         = ["torch.set_num_threads"; "whisperx.load_model"]%string)
  \/ ((exists rest, t = py "Error during transcription: " ++ rest)
      /\ (calls (fst (invoke audio_file))
          = ["torch.set_num_threads"; "whisperx.load_model";
             "whisperx.load_audio"]%string
          \/ calls (fst (invoke audio_file))
             = ["torch.set_num_threads"; "whisperx.load_model";
                "whisperx.load_audio"; "model.transcribe"]%string)).
Proof.
  intros Hret.
  assert (H : check_refused
                (map erase (fst (invoke audio_file)),
                 observe ending_of (snd (invoke audio_file))) = true)
    by (subst invoke; check_behaviours).
  unfold check_refused in H. cbn [fst snd] in H. rewrite Hret in H.
  cbn [observe] in H. unfold ending_of in H. cbn [fst snd] in H.
  destruct (PyStr.eqb t (py "Please upload an audio file.")) eqn:E1.
  { left. apply eqb_eq in E1. split; [exact E1|].
    destruct (fst (invoke audio_file)); [reflexivity | discriminate H]. }
  destruct (starts_with (py "Error loading model: ") t) eqn:E2.
  { right. left. split; [now apply starts_with_sound|].
    apply same_calls_sound in H. now rewrite calls_erase in H. }
  destruct (starts_with (py "Error during transcription: ") t) eqn:E3;
    [|discriminate H].
  right. right. split; [now apply starts_with_sound|].
  apply orb_true_iff in H as [H|H]; apply same_calls_sound in H;
    rewrite calls_erase in H; auto.
Qed.

End Invocation.


Lemma X16_path_returned_iff_complete_witness :
  let inv :=
    run (transcribe_audio
           (example_world (Some (py "hf_x")) true true true true
              [seg (PyInt 0) "A" "hello"])
           (Some (py "talk.wav")) (py "medium") None None None 8) in
  snd inv = Ret (py "[00:00:00] S: hello", Some (py "/tmp/tmpdir/talk_transcript.txt"))
  /\ In (lit 10 10) (fractions (fst inv))
  /\ exists before desc,
       fst inv = before ++ [Call "tempfile.mkdtemp"; Call "open/write";
                            Progress (lit 10 10) desc].
Proof.
  intros inv.
  assert (Hret : snd inv = Ret (py "[00:00:00] S: hello",
                                Some (py "/tmp/tmpdir/talk_transcript.txt")))
    by (vm_compute; reflexivity).
  split; [exact Hret|]. split.
  - vm_compute. do 6 right. now left.
  - exact (proj1 (X16_path_returned_iff_complete
                    (example_world (Some (py "hf_x")) true true true true
                       [seg (PyInt 0) "A" "hello"])
                    (py "medium") None None None 8 (Some (py "talk.wav")))
             _ _ Hret).
Defined.

Lemma X17_no_path_means_refusal_witness :
  let inv :=
    run (transcribe_audio (example_world None false true true true [])
           (Some (py "talk.wav")) (py "medium") None None None 8) in
  snd inv = Ret (py "Error loading model: model file missing", None)
  /\ calls (fst inv) = ["torch.set_num_threads"; "whisperx.load_model"]%string.
Proof.
  intros inv.
  assert (Hret : snd inv
                 = Ret (py "Error loading model: model file missing", None))
    by (vm_compute; reflexivity).
  split; [exact Hret|].
  destruct (X17_no_path_means_refusal
              (example_world None false true true true [])
              (py "medium") None None None 8 (Some (py "talk.wav")) _ Hret)
    as [[Ht _] | [[_ Hc] | [[rest Ht] _]]].
  - discriminate Ht.
  - exact Hc.
  - discriminate Ht.
Defined.

(** ** Diarization: success and fallback *)

Lemma align_stage_returns (w : World) (device : string) (audio : handle)
    (result : Result) (tr : list event) :
  exists evs,
    align_stage w device audio result tr
    = (tr ++ evs, Ret (after_alignment w device audio result)).
Proof.
  unfold align_stage, after_alignment.
  cbv beta iota zeta delta [attempt call lift io_bind io_ret progress emit].
  destruct (load_align_model w device) as [model_a|e].
  - destruct (segments result) as [segs|].
    + destruct (align w segs model_a audio device) as [aligned|e];
        rewrite <- ?app_assoc; eexists; reflexivity.
    + rewrite <- ?app_assoc; eexists; reflexivity.
  - rewrite <- ?app_assoc; eexists; reflexivity.
Qed.

Section Diarization.

Variable w : World.
Variables (model_size : str) (hf_token : option str).
Variables (min_speakers max_speakers : option Z) (num_threads : Z).
Variables (path token dir : str) (model audio : handle) (result0 : Result).

Let device : string := fst (get_device_and_compute_type w).
Let compute_type : string := snd (get_device_and_compute_type w).
Let batch_size : Z := if is_cuda device then 16 else 4.
Let result1 : Result := after_alignment w device audio result0.
Let output_path : str :=
  path_join w dir (path_stem w path ++ py "_transcript.txt").
Let announcement : event :=
  Progress (lit 65 100)
    (py "Performing speaker diarization (token from "
     ++ token_source_of hf_token ++ py ")...").

Let invoke : list event * res (str * option str) :=
  run (transcribe_audio w (Some path) model_size hf_token
         min_speakers max_speakers num_threads).

Hypothesis Hpath : path <> [].
Hypothesis Htoken :
  effective_token_of hf_token (get_hf_token_from_env w) = Some token.
Hypothesis Htoken_given : token <> [].
Hypothesis Hthreads : set_num_threads w num_threads = Ret tt.
Hypothesis Hload : load_model w model_size device compute_type = Ret model.
Hypothesis Haudio : load_audio w path = Ret audio.
Hypothesis Htranscribe : transcribe w model audio batch_size = Ret result0.
Hypothesis Hcache : cuda_empty_cache w = Ret tt.
Hypothesis Hdir : mkdtemp w = Ret dir.

Ltac run_until_diarization :=
  subst invoke result1 output_path announcement batch_size device compute_type;
  unfold run, transcribe_audio;
  destruct path as [|ch rest]; [congruence|];
  change (truthy (Some (ch :: rest))) with true;
  change (get (Some (ch :: rest)) []) with (ch :: rest);
  cbv beta iota zeta delta [negb];
  rewrite Htoken;
  destruct (get_device_and_compute_type w) as [d c0]; cbn [fst snd] in *;
  unfold empty_cache_if_cuda;
  cbv beta iota zeta delta [io_bind io_ret emit call attempt progress lift];
  rewrite Hthreads, Hload, Haudio, Htranscribe;
  match goal with
  | |- context [align_stage w d audio result0 ?tr] =>
      let evs := fresh "evs" in
      let Hev := fresh "Hev" in
      destruct (align_stage_returns w d audio result0 tr) as [evs Hev];
      rewrite Hev
  end;
  replace (truthy (Some token)) with true
    by (destruct token; [congruence | reflexivity]);
  change (get (Some token) []) with token;
  unfold diarize_stage, empty_cache_if_cuda;
  cbv beta iota zeta delta [io_bind io_ret emit call attempt progress lift].

(** X18: with a token and every stage succeeding, the invocation returns
    the speaker-labelled transcript of the diarized result and the path
    of the file it wrote, whose header says "Speaker diarization: Yes".
    The diarizer is called with the (trimmed) effective token and with
    the speaker bounds that are positive; the announcement names the
    source of the token. *)
Theorem X18_diarized_transcript
    (diarize_model diarize_segments : handle) (result2 : Result) (t : str) :
  DiarizationPipeline w token device = Ret diarize_model ->
  diarize w diarize_model audio
    (positive_bound min_speakers) (positive_bound max_speakers)
  = Ret diarize_segments ->
  assign_word_speakers w diarize_segments result1 = Ret result2 ->
  format_transcript_with_speakers (get (segments result2) []) = Ret t ->
  write_file w output_path (file_contents w path model_size true t) = Ret tt ->
  exists before,
    invoke
    = (before
       ++ [announcement; Call "whisperx.DiarizationPipeline";
           Call "diarize_model"; Call "whisperx.assign_word_speakers"]
       ++ (if is_cuda device then [Call "torch.cuda.empty_cache"] else [])
       ++ closing_events,
       Ret (t, Some output_path)).
Proof.
  intros Hpipeline Hdiarize Hassign Hformat Hwrite.
  revert Hpipeline Hdiarize Hassign Hformat Hwrite.
  run_until_diarization.
  intros Hpipeline Hdiarize Hassign Hformat Hwrite.
  destruct (is_cuda d); rewrite ?Hcache; cbv iota;
    rewrite Hpipeline, Hdiarize, Hassign; rewrite ?Hcache; cbv iota;
    rewrite Hformat; cbv beta iota delta [bind];
    rewrite Hdir, Hwrite; unfold closing_events;
    match goal with
    | |- context [(?pre ++ [Progress (lit 65 100) _])] =>
        exists pre
    end;
    rewrite <- !app_assoc; reflexivity.
Qed.

(** X19: with a token, a failure of diarization (building the
    pipeline, running it, or assigning the speakers) is not fatal: it is
    reported at fraction 0.65 with the exception's message, and the
    invocation completes with the plain transcript of the aligned result,
    without the no-token notice, in a file whose header says
    "Speaker diarization: No". *)
Theorem X19_diarization_failure_falls_back (e : exn) (t : str) :
  (DiarizationPipeline w token device = Raise e
   \/ exists diarize_model,
        DiarizationPipeline w token device = Ret diarize_model
        /\ (diarize w diarize_model audio
              (positive_bound min_speakers) (positive_bound max_speakers)
            = Raise e
            \/ exists diarize_segments,
                 diarize w diarize_model audio
                   (positive_bound min_speakers) (positive_bound max_speakers)
                 = Ret diarize_segments
                 /\ assign_word_speakers w diarize_segments result1
                    = Raise e)) ->
  format_transcript_simple (get (segments result1) []) = Ret t ->
  write_file w output_path (file_contents w path model_size false t) = Ret tt ->
  exists before,
    invoke
    = (before
       ++ [Progress (lit 65 100)
             (py "Diarization failed: " ++ exn_message e
              ++ py ", continuing without speaker labels...")]
       ++ closing_events,
       Ret (t, Some output_path)).
Proof.
  intros Hfail Hformat Hwrite.
  revert Hfail Hformat Hwrite.
  run_until_diarization.
  intros Hfail Hformat Hwrite.
  destruct Hfail as [Hp | [dm [Hp [Hd | [ds [Hd Ha]]]]]];
    destruct (is_cuda d); rewrite ?Hcache; cbv iota;
    rewrite Hp, ?Hd, ?Ha; cbv iota;
    rewrite Hformat; cbv beta iota delta [bind negb];
    rewrite Hdir, Hwrite; unfold closing_events;
    match goal with
    | |- context [(?pre ++ [Progress (lit 65 100) (_ ++ exn_message e ++ _)])] =>
        exists pre
    end;
    rewrite <- !app_assoc; reflexivity.
Qed.

End Diarization.

Lemma X18_diarized_transcript_witness :
  exists before,
    run (transcribe_audio
           (example_world (Some (py "hf_x")) true true true true
              [seg (PyInt 0) "A" "hello"])
           (Some (py "talk.wav")) (py "medium") None (Some 0) (Some 2) 8)
    = (before
       ++ [Progress (lit 65 100)
             (py "Performing speaker diarization (token from "
              ++ token_source_of None ++ py ")...");
           Call "whisperx.DiarizationPipeline"; Call "diarize_model";
           Call "whisperx.assign_word_speakers"]
       ++ [] ++ closing_events,
       Ret (py "[00:00:00] S: hello",
            Some (py "/tmp/tmpdir/talk_transcript.txt"))).
Proof.
  apply (X18_diarized_transcript
           (example_world (Some (py "hf_x")) true true true true
              [seg (PyInt 0) "A" "hello"])
           (py "medium") None (Some 0) (Some 2) 8
           (py "talk.wav") (py "hf_x") (py "/tmp/tmpdir") 1%N 2%N
           (mkResult (Some [seg (PyInt 0) "A" "hello"])))
    with (diarize_model := 4%N) (diarize_segments := 5%N)
         (result2 := mkResult (Some [seg (PyInt 0) "S" "hello"]));
    try reflexivity; discriminate.
Defined.

Lemma X19_diarization_failure_falls_back_witness :
  exists before,
    run (transcribe_audio
           (example_world None true true true false
              [seg (PyInt 0) "A" "hello"])
           (Some (py "talk.wav")) (py "medium") (Some (py " hf_ui "))
           None None 8)
    = (before
       ++ [Progress (lit 65 100)
             (py "Diarization failed: access denied, continuing without speaker labels...")]
       ++ closing_events,
       Ret (py "[00:00:00] hello",
            Some (py "/tmp/tmpdir/talk_transcript.txt"))).
Proof.
  apply (X19_diarization_failure_falls_back
           (example_world None true true true false
              [seg (PyInt 0) "A" "hello"])
           (py "medium") (Some (py " hf_ui ")) None None 8
           (py "talk.wav") (py "hf_ui") (py "/tmp/tmpdir") 1%N 2%N
           (mkResult (Some [seg (PyInt 0) "A" "hello"])))
    with (e := Exc "RuntimeError" (py "access denied"));
    try reflexivity; try discriminate.
  left. reflexivity.
Defined.

(** ** The alignment stage *)


(** ** The token field of the interface *)

Lemma truthy_length (s : option str) :
  truthy s = match s with
             | Some t => (0 <? List.length t)%nat
             | None => false
             end.
Proof. destruct s as [[|c t]|]; reflexivity. Qed.

(** X21: [create_ui] presents the token field as optional exactly when
    an invocation that leaves the field blank still resolves a token (and
    so attempts diarization): that is, when [HF_TOKEN] or, failing that,
    [HUGGINGFACE_TOKEN] is set to a non-empty string.  An environment
    variable set to the empty string counts as unset in both places. *)
Theorem X21_token_field_matches_resolution (w : World) (hf_token : option str) :
  ui_token_given hf_token = false ->
  token_from_env w
  = truthy (effective_token_of hf_token (get_hf_token_from_env w))
  /\ token_from_env w
     = (truthy (getenv w "HF_TOKEN") || truthy (getenv w "HUGGINGFACE_TOKEN"))
  /\ (label (hf_token_textbox w)
      = py "HuggingFace Token (optional - override .env)"
      <-> token_from_env w = true).
Proof.
  intros Hui.
  assert (Heff : effective_token_of hf_token (get_hf_token_from_env w)
                 = get_hf_token_from_env w).
  { unfold effective_token_of. destruct hf_token; [|reflexivity].
    now rewrite Hui. }
  assert (Htr : token_from_env w = truthy (get_hf_token_from_env w)).
  { unfold token_from_env. now rewrite truthy_length. }
  split; [now rewrite Heff|]. split.
  - rewrite Htr. unfold get_hf_token_from_env, or_else.
    destruct (truthy (getenv w "HF_TOKEN")) eqn:E; [exact E | reflexivity].
  - unfold hf_token_textbox. destruct (token_from_env w); simpl.
    + split; reflexivity.
    + split; discriminate.
Qed.

Lemma X21_token_field_matches_resolution_witness :
  let w := {| getenv := fun name =>
                if String.eqb name "HF_TOKEN" then Some []
                else if String.eqb name "HUGGINGFACE_TOKEN" then Some (py "hf_y")
                else None;
              cuda_is_available := false;
              cuda_empty_cache := Ret tt;
              set_num_threads := fun _ => Ret tt;
              load_model := fun _ _ _ => Ret 1%N;
              load_audio := fun _ => Ret 2%N;
              transcribe := fun _ _ _ => Ret (mkResult None);
              load_align_model := fun _ => Ret 3%N;
              align := fun _ _ _ _ => Ret (mkResult None);
              DiarizationPipeline := fun _ _ => Ret 4%N;
              diarize := fun _ _ _ _ => Ret 5%N;
              assign_word_speakers := fun _ r => Ret r;
              mkdtemp := Ret [];
              path_stem := fun p => p;
              path_name := fun p => p;
              path_join := fun d f => d ++ f;
              strftime := [];
              write_file := fun _ _ => Ret tt |} in
  token_from_env w = true
  /\ effective_token_of (Some (py "  ")) (get_hf_token_from_env w)
     = Some (py "hf_y").
Proof.
  intros w.
  destruct (X21_token_field_matches_resolution w (Some (py "  ")) eq_refl)
    as [Heff [Henv _]].
  split; [exact Henv | reflexivity].
Defined.
